(** * Tower-defense simulation engine: a shallow embedding and its properties

    The development follows the TypeScript sources module by module:
    [Definitions] (engine/definitions.ts), [Grid] (engine/grid.ts),
    [Effects] (engine/effects.ts), [Targeting] (engine/targeting.ts),
    [Sim] (engine/sim.ts) and [Store] (state/store.ts).  Map generation,
    path finding, the frame loop and the UI are not modelled.

    Number model.  JavaScript numbers that count things (money, lives,
    wave index, tier, cost, bounty, grid coordinates) are modelled as [Z];
    numbers that measure things (time, positions, speeds, hit points,
    damage) are modelled as the real numbers [R], i.e. IEEE rounding, NaN
    and infinities are idealised away.  The one place where the rounding
    of a double is observable on integers, [Math.floor(totalCost * 0.7)],
    is modelled bit-exactly with the binary64 operations of [SpecFloat].
    The one division whose divisor can be zero, by the path length in
    the movement of a mob, is covered for paths of positive length.

    Tables.  [TOWER_DEFINITIONS] and [MOB_DEFINITIONS] are read by their
    own keys wherever the key is a tower or mob type; [Definitions.Untyped]
    models the three functions exported on [string] for every string,
    the members inherited from [Object.prototype] included. *)

From Stdlib Require Import ZArith List String Bool Reals Lra Lia SpecFloat Sorted.
Import ListNotations.

Local Open Scope string_scope.
Local Open Scope list_scope.

(** ** JavaScript helpers *)

Module Js.

(** Exceptions: [throw new Error(msg)] and the [TypeError] raised by a
    property access on [undefined]. *)
Inductive exn : Type :=
| Error (message : string)
| TypeError.

Inductive result (A : Type) : Type :=
| Ok (a : A)
| Throw (e : exn).

Arguments Ok {A} a.
Arguments Throw {A} e.

Definition bind {A B : Type} (r : result A) (k : A -> result B) : result B :=
  match r with
  | Ok a => k a
  | Throw e => Throw e
  end.

(** [o[k]] followed by a property access: [undefined] raises. *)
Definition defined {A : Type} (o : option A) : result A :=
  match o with
  | Some a => Ok a
  | None => Throw TypeError
  end.

(** Comparison operators on numbers. *)
Definition ltb (x y : R) : bool := if Rlt_dec x y then true else false.
Definition leb (x y : R) : bool := if Rle_dec x y then true else false.
Definition gtb (x y : R) : bool := ltb y x.
Definition geb (x y : R) : bool := leb y x.
Definition eqb (x y : R) : bool := if Req_dec_T x y then true else false.

(** [o || d] on an optional number: [undefined] and [0] are falsy. *)
Definition or_else (o : option R) (d : R) : R :=
  match o with
  | Some v => if eqb v 0 then d else v
  | None => d
  end.

(** [Math.floor], [Math.pow] with an integral exponent. *)
Definition floor (x : R) : Z := Zfloor x.
Definition pow (x : R) (n : Z) : R := powerRZ x n.

(** The integers [lo, lo+1, ..., hi] visited by
    [for (let t = lo; t <= hi; t++)]. *)
Definition range (lo hi : Z) : list Z :=
  map (fun i => (lo + Z.of_nat i)%Z) (seq 0 (Z.to_nat (hi - lo + 1))).

End Js.

Import Js.

Notation "x <- c ;; k" := (Js.bind c (fun x => k))
  (at level 61, c at next level, right associativity).

(** ** IEEE-754 binary64 arithmetic on integer operands *)

Module Binary64.

Definition prec : Z := 53.
Definition emax : Z := 1024.

Definition of_Z (n : Z) : spec_float := binary_normalize prec emax n 0 false.

Definition mul : spec_float -> spec_float -> spec_float := SFmul prec emax.
Definition div : spec_float -> spec_float -> spec_float := SFdiv prec emax.

(** The double denoted by the literal [0.7]:
    6305039478318694 * 2^-53 = 0.6999999999999999555910790149937. *)
Definition lit_0_7 : spec_float := S754_finite false 6305039478318694 (-53).

(** [Math.floor] of a finite double, as an integer. *)
Definition floor (x : spec_float) : Z :=
  match x with
  | S754_finite s m e =>
      let n := if s then Z.neg m else Z.pos m in
      if (0 <=? e)%Z then (n * 2 ^ e)%Z else (n / 2 ^ (- e))%Z
  | _ => 0%Z
  end.

(** [Math.floor(n * 0.7)] for an integer-valued [n]. *)
Definition floor_times_0_7 (n : Z) : Z := floor (mul (of_Z n) lit_0_7).

End Binary64.

(** ** engine/types.ts *)

Record Vec2 : Type := mkVec2 { vx : R; vy : R }.

Record GridCoord : Type := mkGridCoord { gx : Z; gy : Z }.

Inductive TileType : Type := Path | Buildable | Blocked.

Record Tile : Type := mkTile {
  tile_coord : GridCoord;
  tile_type : TileType;
  tile_pathIndex : option Z
}.

Inductive MobType : Type := Normal | Fast | Tank | Flying.

Record MobStatus : Type := mkMobStatus {
  slowUntil : option R;
  slowMultiplier : option R
}.

Record Mob : Type := mkMob {
  mob_id : string;
  mob_pos : Vec2;
  mob_hp : R;
  mob_maxHp : R;
  mob_speed : R;
  mob_armor : R;
  mob_type : MobType;
  mob_bounty : Z;
  mob_pathProgress : R;
  mob_status : MobStatus;
  mob_reachedEnd : bool
}.

Inductive TowerType : Type := Arrow | Cannon | Frost.

(** The full tower object built by [updateTowers] for targeting. *)
Record Tower : Type := mkTower {
  tower_id : string;
  tower_gridCoord : GridCoord;
  tower_pos : Vec2;
  tower_type : TowerType;
  tower_tier : Z;
  tower_range : R;
  tower_damage : R;
  tower_attackRate : R;
  tower_projectileSpeed : option R;
  tower_lastAttackTime : R;
  tower_splashRadius : option R;
  tower_slowDuration : option R;
  tower_slowAmount : option R
}.

(** The tower record kept in the state: identity, tier and, once it has
    fired, the time of its last attack. *)
Record PlacedTower : Type := mkPlacedTower {
  pt_id : string;
  pt_gridCoord : GridCoord;
  pt_type : TowerType;
  pt_tier : Z;
  pt_lastAttackTime : option R
}.

Inductive ProjectileType : Type := ArrowShot | Cannonball | FrostShot.

Record Projectile : Type := mkProjectile {
  proj_id : string;
  proj_pos : Vec2;
  proj_targetPos : Vec2;
  proj_targetMobId : option string;
  proj_speed : R;
  proj_damage : R;
  proj_type : ProjectileType;
  proj_splashRadius : option R;
  proj_slowDuration : option R;
  proj_slowAmount : option R;
  proj_hasHit : bool
}.

Record WaveEntry : Type := mkWaveEntry {
  we_delay : R;
  we_mobType : MobType;
  we_count : Z;
  we_spacing : R
}.

Record Wave : Type := mkWave {
  wave_id : Z;
  wave_entries : list WaveEntry;
  wave_isActive : bool;
  wave_isCompleted : bool;
  wave_startTime : option R
}.

Inductive TargetingStrategy : Type := First | Last | Nearest | Strongest | Weakest.

Inductive GamePhase : Type := Preparing | WaveActive | BetweenWaves | Victory | Defeat.

Record GameState : Type := mkGameState {
  phase : GamePhase;
  currentWaveIndex : Z;
  simulationTime : R;
  isPaused : bool;
  gameSpeed : R;
  money : Z;
  lives : Z;
  mobs : list Mob;
  towers : list PlacedTower;
  projectiles : list Projectile;
  map_tiles : list (list Tile);
  pathCoords : list GridCoord;
  waves : list Wave;
  nextWaveTime : option R
}.

Record Upgrade : Type := mkUpgrade {
  up_tier : Z;
  up_cost : Z;
  up_damageMultiplier : R;
  up_rangeMultiplier : option R;
  up_attackRateMultiplier : option R
}.

Record TowerDefinition : Type := mkTowerDefinition {
  td_type : TowerType;
  td_name : string;
  td_description : string;
  td_baseCost : Z;
  td_range : R;
  td_damage : R;
  td_attackRate : R;
  td_projectileSpeed : option R;
  td_splashRadius : option R;
  td_slowDuration : option R;
  td_slowAmount : option R;
  td_upgrades : list Upgrade
}.

Record MobDefinition : Type := mkMobDefinition {
  md_type : MobType;
  md_name : string;
  md_baseHp : R;
  md_baseSpeed : R;
  md_armor : R;
  md_bounty : Z;
  md_hpMultiplier : R;
  md_speedMultiplier : option R
}.

Record GameConfig : Type := mkGameConfig {
  mapWidth : Z;
  mapHeight : Z;
  tileSize : R;
  tickRate : R;
  startingMoney : Z;
  startingLives : Z
}.

(** The string tags of the literal union types. *)
Definition towerTypeKey (t : TowerType) : string :=
  match t with
  | Arrow => "arrow"
  | Cannon => "cannon"
  | Frost => "frost"
  end.

Definition mobTypeKey (t : MobType) : string :=
  match t with
  | Normal => "normal"
  | Fast => "fast"
  | Tank => "tank"
  | Flying => "flying"
  end.

(** A [Record<string, T>] literal used as a map: its own keys in source
    order.  [lookup] reads the own keys only: it is the source's
    [table[key]] for every key that [Object.prototype] does not answer
    to, in particular for the keys of [TowerType] and [MobType], which is
    what the engine and the store pass.  [member] below is [table[key]]
    for every string. *)
Definition Dict (T : Type) : Type := list (string * T).

Fixpoint lookup {T : Type} (k : string) (d : Dict T) : option T :=
  match d with
  | [] => None
  | (k', v) :: rest => if String.eqb k k' then Some v else lookup k rest
  end.

Definition keys {T : Type} (d : Dict T) : list string := List.map fst d.

(** The members every object literal inherits from [Object.prototype]
    (ECMAScript 2015 with its Annex B).  Each is a function, and
    [__proto__] is the prototype object itself: all are truthy, and none
    has any of the fields of a tower or mob definition. *)
Definition objectPrototypeKeys : list string :=
  [ "constructor"; "hasOwnProperty"; "isPrototypeOf"; "propertyIsEnumerable";
    "toLocaleString"; "toString"; "valueOf"; "__proto__";
    "__defineGetter__"; "__defineSetter__";
    "__lookupGetter__"; "__lookupSetter__" ].

(** What [table[key]] evaluates to: an own entry, an inherited member of
    [Object.prototype], or [undefined]. *)
Inductive Member (T : Type) : Type :=
| Own (v : T)
| Inherited
| Absent.

Arguments Own {T} v.
Arguments Inherited {T}.
Arguments Absent {T}.

Definition member {T : Type} (k : string) (d : Dict T) : Member T :=
  match lookup k d with
  | Some v => Own v
  | None =>
      if existsb (String.eqb k) objectPrototypeKeys then Inherited else Absent
  end.

(** ** engine/definitions.ts *)

Module Definitions.

Local Open Scope R_scope.

Definition GAME_CONFIG : GameConfig :=
  {| mapWidth := 16; mapHeight := 12; tileSize := 40; tickRate := 60;
     startingMoney := 100; startingLives := 20 |}.

Definition TOWER_DEFINITIONS : Dict TowerDefinition :=
  [ ("arrow",
     {| td_type := Arrow; td_name := "Arrow Tower";
        td_description := "Fast single-target tower with good range";
        td_baseCost := 25; td_range := 3.5; td_damage := 15;
        td_attackRate := 2.5; td_projectileSpeed := Some 8;
        td_splashRadius := None; td_slowDuration := None;
        td_slowAmount := None;
        td_upgrades :=
          [ {| up_tier := 2; up_cost := 30; up_damageMultiplier := 1.6;
               up_rangeMultiplier := Some 1.2;
               up_attackRateMultiplier := Some 1.3 |};
            {| up_tier := 3; up_cost := 60; up_damageMultiplier := 2.2;
               up_rangeMultiplier := Some 1.3;
               up_attackRateMultiplier := Some 1.4 |} ] |});
    ("cannon",
     {| td_type := Cannon; td_name := "Cannon Tower";
        td_description := "Slow but powerful AoE tower";
        td_baseCost := 50; td_range := 2.5; td_damage := 45;
        td_attackRate := 0.8; td_projectileSpeed := Some 6;
        td_splashRadius := Some 1.5; td_slowDuration := None;
        td_slowAmount := None;
        td_upgrades :=
          [ {| up_tier := 2; up_cost := 75; up_damageMultiplier := 1.5;
               up_rangeMultiplier := Some 1.2;
               up_attackRateMultiplier := Some 1.2 |};
            {| up_tier := 3; up_cost := 120; up_damageMultiplier := 2.0;
               up_rangeMultiplier := Some 1.3;
               up_attackRateMultiplier := Some 1.3 |} ] |});
    ("frost",
     {| td_type := Frost; td_name := "Frost Tower";
        td_description := "Slows enemies and deals moderate damage";
        td_baseCost := 40; td_range := 3.0; td_damage := 20;
        td_attackRate := 1.5; td_projectileSpeed := Some 10;
        td_splashRadius := None; td_slowDuration := Some 3;
        td_slowAmount := Some 0.5;
        td_upgrades :=
          [ {| up_tier := 2; up_cost := 50; up_damageMultiplier := 1.4;
               up_rangeMultiplier := Some 1.15;
               up_attackRateMultiplier := Some 1.3 |};
            {| up_tier := 3; up_cost := 80; up_damageMultiplier := 1.8;
               up_rangeMultiplier := Some 1.25;
               up_attackRateMultiplier := Some 1.4 |} ] |}) ].

Definition MOB_DEFINITIONS : Dict MobDefinition :=
  [ ("normal",
     {| md_type := Normal; md_name := "Goblin"; md_baseHp := 40;
        md_baseSpeed := 1.5; md_armor := 0; md_bounty := 5;
        md_hpMultiplier := 1.2; md_speedMultiplier := None |});
    ("fast",
     {| md_type := Fast; md_name := "Wolf"; md_baseHp := 25;
        md_baseSpeed := 2.8; md_armor := 0; md_bounty := 8;
        md_hpMultiplier := 1.15; md_speedMultiplier := Some 1.03 |});
    ("tank",
     {| md_type := Tank; md_name := "Orc Warrior"; md_baseHp := 150;
        md_baseSpeed := 0.8; md_armor := 8; md_bounty := 20;
        md_hpMultiplier := 1.25; md_speedMultiplier := None |});
    ("flying",
     {| md_type := Flying; md_name := "Bat"; md_baseHp := 35;
        md_baseSpeed := 2.5; md_armor := 0; md_bounty := 15;
        md_hpMultiplier := 1.18; md_speedMultiplier := Some 1.04 |}) ].

Record TowerStats : Type := mkTowerStats {
  ts_damage : R;
  ts_range : R;
  ts_attackRate : R;
  ts_cost : Z;
  ts_dps : R
}.

Record MobStats : Type := mkMobStats {
  ms_hp : R;
  ms_maxHp : R;
  ms_speed : R;
  ms_armor : R;
  ms_bounty : Z;
  ms_type : MobType;
  ms_name : string
}.

(** [definition.upgrades.find(u => u.tier === t)] *)
Definition findUpgrade (definition : TowerDefinition) (t : Z) : option Upgrade :=
  find (fun u => (up_tier u =? t)%Z) (td_upgrades definition).

(** The running [stats] object of [calculateTowerStats]:
    damage, range, attackRate, cost. *)
Definition statsAcc : Type := (R * R * R * Z)%type.

(** One iteration of the loop [for (let t = 2; t <= tier; t++)]. *)
Definition applyUpgrade (definition : TowerDefinition) (stats : statsAcc) (t : Z)
  : statsAcc :=
  let '(dmg, rng, rate, cost) := stats in
  match findUpgrade definition t with
  | Some upgrade =>
      (dmg * up_damageMultiplier upgrade,
       rng * or_else (up_rangeMultiplier upgrade) 1,
       rate * or_else (up_attackRateMultiplier upgrade) 1,
       (cost + up_cost upgrade)%Z)
  | None => stats
  end.

Definition calculateTowerStats (towerType : string) (tier : Z) : result TowerStats :=
  match lookup towerType TOWER_DEFINITIONS with
  | None => Throw (Error (String.append "Unknown tower type: " towerType))
  | Some definition =>
      let stats0 : statsAcc :=
        (td_damage definition, td_range definition,
         td_attackRate definition, td_baseCost definition) in
      let '(dmg, rng, rate, cost) :=
        fold_left (applyUpgrade definition) (Js.range 2 tier) stats0 in
      Ok {| ts_damage := dmg; ts_range := rng; ts_attackRate := rate;
            ts_cost := cost; ts_dps := dmg * rate |}
  end.

Definition calculateMobStats (mobType : string) (waveNumber : Z) : result MobStats :=
  match lookup mobType MOB_DEFINITIONS with
  | None => Throw (Error (String.append "Unknown mob type: " mobType))
  | Some definition =>
      let waveMultiplier := (waveNumber - 1)%Z in
      let hp :=
        IZR (Js.floor (md_baseHp definition
                       * Js.pow (md_hpMultiplier definition) waveMultiplier)) in
      let speed :=
        md_baseSpeed definition
        * Js.pow (or_else (md_speedMultiplier definition) 1) waveMultiplier in
      Ok {| ms_hp := hp; ms_maxHp := hp; ms_speed := speed;
            ms_armor := md_armor definition; ms_bounty := md_bounty definition;
            ms_type := md_type definition; ms_name := md_name definition |}
  end.

(** [upgrade?.cost || 0] *)
Definition calculateUpgradeCost (towerType : string) (fromTier toTier : Z) : Z :=
  match lookup towerType TOWER_DEFINITIONS with
  | None => 0%Z
  | Some definition =>
      if (fromTier >=? toTier)%Z then 0%Z
      else
        match findUpgrade definition toTier with
        | Some upgrade => up_cost upgrade
        | None => 0%Z
        end
  end.

Definition calculateSellValue (towerType : string) (tier : Z) : result Z :=
  stats <- calculateTowerStats towerType tier ;;
  Ok (Binary64.floor_times_0_7 (ts_cost stats)).

Definition calculateDamage (baseDamage armor : R) : R :=
  Rmax 1 (baseDamage - armor).

Definition canBeSlowed : bool := true.

Record PreviewStats : Type := mkPreviewStats {
  pv_damage : R;
  pv_range : R;
  pv_attackRate : R;
  pv_dps : R
}.

Record UpgradePreview : Type := mkUpgradePreview {
  currentStats : PreviewStats;
  upgradeStats : PreviewStats;
  pv_cost : Z;
  canAfford : bool
}.

Definition previewOf (stats : TowerStats) : PreviewStats :=
  {| pv_damage := ts_damage stats; pv_range := ts_range stats;
     pv_attackRate := ts_attackRate stats; pv_dps := ts_dps stats |}.

(** [null] is [None]. *)
Definition getUpgradePreview (towerType : string) (currentTier money : Z)
  : result (option UpgradePreview) :=
  let nextTier := (currentTier + 1)%Z in
  if (nextTier >? 3)%Z then Ok None
  else
    current <- calculateTowerStats towerType currentTier ;;
    upgraded <- calculateTowerStats towerType nextTier ;;
    let upgradeCost := calculateUpgradeCost towerType currentTier nextTier in
    Ok (Some {| currentStats := previewOf current;
                upgradeStats := previewOf upgraded;
                pv_cost := upgradeCost;
                canAfford := (money >=? upgradeCost)%Z |}).

(** *** The exported functions on an arbitrary string

    [calculateTowerStats], [calculateMobStats] and [calculateUpgradeCost]
    are declared on [string].  The definitions above are these functions
    on every key that [Object.prototype] does not answer to.  [Untyped]
    adds what the source does on the inherited keys, where the guard
    [if (!definition)] lets the inherited member through. *)
Module Untyped.

(** A call returns a value of the expected shape, returns an object whose
    number members are [undefined] or [NaN], or throws. *)
Inductive outcome (A : Type) : Type :=
| Returns (a : A)
| ReturnsNaN
| Raises (e : exn).

Arguments Returns {A} a.
Arguments ReturnsNaN {A}.
Arguments Raises {A} e.

Definition ofResult {A : Type} (r : result A) : outcome A :=
  match r with
  | Ok a => Returns a
  | Throw e => Raises e
  end.

(** On an inherited member every [definition.field] is [undefined]: the
    initial [stats] has four undefined members, and the first iteration
    of the loop, if there is one, evaluates [definition.upgrades.find],
    a property access on [undefined]. *)
Definition calculateTowerStats (towerType : string) (tier : Z)
  : outcome TowerStats :=
  match member towerType TOWER_DEFINITIONS with
  | Absent => Raises (Error (String.append "Unknown tower type: " towerType))
  | Inherited => if (2 <=? tier)%Z then Raises TypeError else ReturnsNaN
  | Own _ => ofResult (Definitions.calculateTowerStats towerType tier)
  end.

(** On an inherited member [hp] and [speed] are products with
    [undefined], so [NaN]; nothing is read from an undefined value. *)
Definition calculateMobStats (mobType : string) (waveNumber : Z)
  : outcome MobStats :=
  match member mobType MOB_DEFINITIONS with
  | Absent => Raises (Error (String.append "Unknown mob type: " mobType))
  | Inherited => ReturnsNaN
  | Own _ => ofResult (Definitions.calculateMobStats mobType waveNumber)
  end.

(** On an inherited member the tier test comes first; past it,
    [definition.upgrades.find] is a property access on [undefined]. *)
Definition calculateUpgradeCost (towerType : string) (fromTier toTier : Z)
  : outcome Z :=
  match member towerType TOWER_DEFINITIONS with
  | Absent => Returns 0%Z
  | Inherited => if (fromTier >=? toTier)%Z then Returns 0%Z else Raises TypeError
  | Own _ => Returns (Definitions.calculateUpgradeCost towerType fromTier toTier)
  end.

End Untyped.

End Definitions.

(** ** engine/grid.ts *)

Module Grid.

Local Open Scope R_scope.

Definition gridToWorld (coord : GridCoord) (tileSize : R) : Vec2 :=
  {| vx := IZR (gx coord) * tileSize + tileSize / 2;
     vy := IZR (gy coord) * tileSize + tileSize / 2 |}.

Definition worldToGrid (pos : Vec2) (tileSize : R) : GridCoord :=
  {| gx := Js.floor (vx pos / tileSize);
     gy := Js.floor (vy pos / tileSize) |}.

Definition distance (a b : Vec2) : R :=
  let dx := vx a - vx b in
  let dy := vy a - vy b in
  sqrt (dx * dx + dy * dy).

Definition distanceSquared (a b : Vec2) : R :=
  let dx := vx a - vx b in
  let dy := vy a - vy b in
  dx * dx + dy * dy.

Definition coordsEqual (a b : GridCoord) : bool :=
  ((gx a =? gx b) && (gy a =? gy b))%Z.

Definition isValidCoord (coord : GridCoord) (width height : Z) : bool :=
  ((0 <=? gx coord) && (gx coord <? width)
   && (0 <=? gy coord) && (gy coord <? height))%Z.

(** The pairs [(pathCoords[i-1], pathCoords[i])] for [i = 1 .. length-1]. *)
Fixpoint segments (pathCoords : list GridCoord) : list (GridCoord * GridCoord) :=
  match pathCoords with
  | a :: (b :: _) as rest => (a, b) :: segments rest
  | _ => []
  end.

Definition calculatePathLength (pathCoords : list GridCoord) (tileSize : R) : R :=
  if (List.length pathCoords <? 2)%nat then 0
  else
    fold_left
      (fun totalLength '(p, c) =>
         totalLength + distance (gridToWorld p tileSize) (gridToWorld c tileSize))
      (segments pathCoords) 0.

(** The segment walk of [getPositionOnPath]; [None] when the loop runs
    off the end of the path. *)
Fixpoint walkSegments (segs : list (GridCoord * GridCoord)) (tileSize : R)
         (targetDistance currentDistance : R) : option Vec2 :=
  match segs with
  | [] => None
  | (a, b) :: rest =>
      let segmentStart := gridToWorld a tileSize in
      let segmentEnd := gridToWorld b tileSize in
      let segmentLength := distance segmentStart segmentEnd in
      if Js.geb (currentDistance + segmentLength) targetDistance then
        let segmentProgress := (targetDistance - currentDistance) / segmentLength in
        Some {| vx := vx segmentStart
                      + (vx segmentEnd - vx segmentStart) * segmentProgress;
                vy := vy segmentStart
                      + (vy segmentEnd - vy segmentStart) * segmentProgress |}
      else walkSegments rest tileSize targetDistance (currentDistance + segmentLength)
  end.

Definition getPositionOnPath (pathCoords : list GridCoord) (progress tileSize : R)
  : Vec2 :=
  match pathCoords with
  | [] => {| vx := 0; vy := 0 |}
  | first :: others =>
      if (List.length pathCoords =? 1)%nat || Js.leb progress 0 then
        gridToWorld first tileSize
      else if Js.geb progress 1 then
        gridToWorld (List.last pathCoords first) tileSize
      else
        let totalLength := calculatePathLength pathCoords tileSize in
        let targetDistance := progress * totalLength in
        match walkSegments (segments pathCoords) tileSize targetDistance 0 with
        | Some pos => pos
        | None => gridToWorld (List.last pathCoords first) tileSize
        end
  end.

(** [map[y][x]], [undefined] out of range. *)
Definition tileAt (map : list (list Tile)) (coord : GridCoord) : option Tile :=
  if ((gy coord <? 0) || (gx coord <? 0))%Z then None
  else
    match nth_error map (Z.to_nat (gy coord)) with
    | Some row => nth_error row (Z.to_nat (gx coord))
    | None => None
    end.

Definition manhattanDistance (a b : GridCoord) : Z :=
  (Z.abs (gx a - gx b) + Z.abs (gy a - gy b))%Z.

(** The grid module's [canBuildAt]: bounds are those of the map itself
    ([map[0]?.length || 0] columns, [map.length] rows). *)
Definition canBuildAt (coord : GridCoord) (map : list (list Tile))
           (existingTowers : list PlacedTower) : result bool :=
  let width :=
    match map with
    | row :: _ => Z.of_nat (List.length row)
    | [] => 0%Z
    end in
  let height := Z.of_nat (List.length map) in
  if negb (isValidCoord coord width height) then Ok false
  else
    tile <- Js.defined (tileAt map coord) ;;
    match tile_type tile with
    | Buildable =>
        Ok (negb (existsb (fun tower => coordsEqual (pt_gridCoord tower) coord)
                          existingTowers))
    | _ => Ok false
    end.

End Grid.

(** ** engine/effects.ts *)

Module Effects.

Local Open Scope R_scope.

Definition withStatus (mob : Mob) (status : MobStatus) : Mob :=
  {| mob_id := mob_id mob; mob_pos := mob_pos mob; mob_hp := mob_hp mob;
     mob_maxHp := mob_maxHp mob; mob_speed := mob_speed mob;
     mob_armor := mob_armor mob; mob_type := mob_type mob;
     mob_bounty := mob_bounty mob; mob_pathProgress := mob_pathProgress mob;
     mob_status := status; mob_reachedEnd := mob_reachedEnd mob |}.

Definition withHp (mob : Mob) (hp : R) : Mob :=
  {| mob_id := mob_id mob; mob_pos := mob_pos mob; mob_hp := hp;
     mob_maxHp := mob_maxHp mob; mob_speed := mob_speed mob;
     mob_armor := mob_armor mob; mob_type := mob_type mob;
     mob_bounty := mob_bounty mob; mob_pathProgress := mob_pathProgress mob;
     mob_status := mob_status mob; mob_reachedEnd := mob_reachedEnd mob |}.

Definition applySlow (mob : Mob) (slowMult duration currentTime : R) : Mob :=
  if negb Definitions.canBeSlowed then mob
  else
    let newSlowUntil := currentTime + duration in
    let existingMultiplier := or_else (slowMultiplier (mob_status mob)) 1 in
    let finalMultiplier := Rmin slowMult existingMultiplier in
    withStatus mob
      {| slowUntil := Some (Rmax (or_else (slowUntil (mob_status mob)) 0) newSlowUntil);
         slowMultiplier := Some finalMultiplier |}.

Definition updateMobEffects (mob : Mob) (currentTime : R) : Mob :=
  match slowUntil (mob_status mob) with
  | Some u =>
      if negb (Js.eqb u 0) && Js.geb currentTime u then
        withStatus mob {| slowUntil := None; slowMultiplier := None |}
      else mob
  | None => mob
  end.

Definition getEffectiveSpeed (mob : Mob) (currentTime : R) : R :=
  let speed :=
    match slowUntil (mob_status mob), slowMultiplier (mob_status mob) with
    | Some u, Some k =>
        if negb (Js.eqb u 0) && Js.ltb currentTime u && negb (Js.eqb k 0)
        then mob_speed mob * k
        else mob_speed mob
    | _, _ => mob_speed mob
    end in
  Rmax speed (mob_speed mob * 0.1).

Definition applyDamage (mob : Mob) (baseDamage : R) : Mob * R * bool :=
  let actualDamage := Definitions.calculateDamage baseDamage (mob_armor mob) in
  let newHp := Rmax 0 (mob_hp mob - actualDamage) in
  let killed := Js.eqb newHp 0 in
  (withHp mob newHp, actualDamage, killed).

Definition hasActiveEffects (mob : Mob) (currentTime : R) : bool :=
  match slowUntil (mob_status mob) with
  | Some u => negb (Js.eqb u 0) && Js.ltb currentTime u
  | None => false
  end.

End Effects.

(** ** engine/targeting.ts *)

Module Targeting.

Local Open Scope R_scope.

(** [mobs.reduce(f)] without an initial value, on a non-empty array. *)
Definition reduce (f : Mob -> Mob -> Mob) (mobs : list Mob) : option Mob :=
  match mobs with
  | [] => None
  | m :: rest => Some (fold_left f rest m)
  end.

Definition getFirstMob (mobs : list Mob) : option Mob :=
  reduce (fun closest mob =>
            if Js.gtb (mob_pathProgress mob) (mob_pathProgress closest)
            then mob else closest) mobs.

Definition getLastMob (mobs : list Mob) : option Mob :=
  reduce (fun furthest mob =>
            if Js.ltb (mob_pathProgress mob) (mob_pathProgress furthest)
            then mob else furthest) mobs.

Definition getNearestMob (towerPos : Vec2) (mobs : list Mob) : option Mob :=
  reduce (fun nearest mob =>
            let nearestDist := Grid.distanceSquared towerPos (mob_pos nearest) in
            let mobDist := Grid.distanceSquared towerPos (mob_pos mob) in
            if Js.ltb mobDist nearestDist then mob else nearest) mobs.

Definition getStrongestMob (mobs : list Mob) : option Mob :=
  reduce (fun strongest mob =>
            if Js.gtb (mob_hp mob) (mob_hp strongest) then mob else strongest) mobs.

Definition getWeakestMob (mobs : list Mob) : option Mob :=
  reduce (fun weakest mob =>
            if Js.ltb (mob_hp mob) (mob_hp weakest) then mob else weakest) mobs.

(** The filter predicate of [findTarget]. *)
Definition inRange (tower : Tower) (mob : Mob) : bool :=
  let dist := Grid.distance (tower_pos tower) (mob_pos mob) in
  Js.leb dist (tower_range tower) && negb (mob_reachedEnd mob).

(** The [strategy] argument is optional and defaults to ['first']. *)
Definition findTarget (tower : Tower) (mobs : list Mob)
           (strategy : option TargetingStrategy) : option Mob :=
  let mobsInRange := filter (inRange tower) mobs in
  if (List.length mobsInRange =? 0)%nat then None
  else
    match strategy with
    | None | Some First => getFirstMob mobsInRange
    | Some Last => getLastMob mobsInRange
    | Some Nearest => getNearestMob (tower_pos tower) mobsInRange
    | Some Strongest => getStrongestMob mobsInRange
    | Some Weakest => getWeakestMob mobsInRange
    end.

Definition canTowerAttack (tower : Tower) (currentTime : R) : bool :=
  let timeSinceLastAttack := currentTime - tower_lastAttackTime tower in
  let cooldownTime := 1 / tower_attackRate tower in
  Js.geb timeSinceLastAttack cooldownTime.

Definition getMobsInSplashRange (centerPos : Vec2) (splashRadius : R)
           (mobs : list Mob) : list Mob :=
  filter (fun mob =>
            let dist := Grid.distance centerPos (mob_pos mob) in
            Js.leb dist splashRadius && negb (mob_reachedEnd mob)) mobs.

Definition calculateLeadPosition (towerPos : Vec2) (target : Mob)
           (projectileSpeed : R) : Vec2 :=
  if Js.eqb projectileSpeed 0 || Js.leb projectileSpeed 0 then mob_pos target
  else
    let distanceToTarget := Grid.distance towerPos (mob_pos target) in
    let timeToReach := distanceToTarget / projectileSpeed in
    let leadDistance := mob_speed target * timeToReach in
    {| vx := vx (mob_pos target); vy := vy (mob_pos target) |}.

Inductive FalloffType : Type := NoFalloff | Linear | Exponential.

(** The [falloffType] argument is optional and defaults to ['linear']. *)
Definition calculateSplashDamage (baseDamage distanceFromCenter splashRadius : R)
           (falloffType : option FalloffType) : R :=
  if Js.gtb distanceFromCenter splashRadius then 0
  else
    match falloffType with
    | Some NoFalloff => baseDamage
    | None | Some Linear =>
        let falloffRatio := 1 - distanceFromCenter / splashRadius in
        baseDamage * falloffRatio
    | Some Exponential =>
        let expRatio := Js.pow (1 - distanceFromCenter / splashRadius) 2 in
        baseDamage * expRatio
    end.

End Targeting.

(** ** engine/sim.ts *)

Module Sim.

Import Definitions.
Local Open Scope R_scope.

(** Identifiers are built from [Date.now()] and [Math.random()]; the
    model receives them from the environment: [projectileId n] names the
    projectile pushed at index [n] of the projectile array, [mobId n]
    the [n]-th mob of a spawned wave. *)
Record IdSource : Type := mkIdSource {
  projectileId : nat -> string;
  mobId : nat -> string
}.

Fixpoint foldM {A B : Type} (f : B -> A -> result B) (l : list A) (b : B)
  : result B :=
  match l with
  | [] => Ok b
  | a :: rest => b' <- f b a ;; foldM f rest b'
  end.

(** *** Object spreads [{ ...x, field: v }] *)

Definition withProgress (mob : Mob) (progress : R) (pos : Vec2) : Mob :=
  {| mob_id := mob_id mob; mob_pos := pos; mob_hp := mob_hp mob;
     mob_maxHp := mob_maxHp mob; mob_speed := mob_speed mob;
     mob_armor := mob_armor mob; mob_type := mob_type mob;
     mob_bounty := mob_bounty mob; mob_pathProgress := progress;
     mob_status := mob_status mob; mob_reachedEnd := mob_reachedEnd mob |}.

Definition withReachedEnd (mob : Mob) (flag : bool) : Mob :=
  {| mob_id := mob_id mob; mob_pos := mob_pos mob; mob_hp := mob_hp mob;
     mob_maxHp := mob_maxHp mob; mob_speed := mob_speed mob;
     mob_armor := mob_armor mob; mob_type := mob_type mob;
     mob_bounty := mob_bounty mob; mob_pathProgress := mob_pathProgress mob;
     mob_status := mob_status mob; mob_reachedEnd := flag |}.

Definition withLastAttackTime (t : PlacedTower) (time : R) : PlacedTower :=
  {| pt_id := pt_id t; pt_gridCoord := pt_gridCoord t; pt_type := pt_type t;
     pt_tier := pt_tier t; pt_lastAttackTime := Some time |}.

Definition withProjPos (p : Projectile) (pos : Vec2) : Projectile :=
  {| proj_id := proj_id p; proj_pos := pos; proj_targetPos := proj_targetPos p;
     proj_targetMobId := proj_targetMobId p; proj_speed := proj_speed p;
     proj_damage := proj_damage p; proj_type := proj_type p;
     proj_splashRadius := proj_splashRadius p;
     proj_slowDuration := proj_slowDuration p;
     proj_slowAmount := proj_slowAmount p; proj_hasHit := proj_hasHit p |}.

Definition withSimulationTime (s : GameState) (t : R) : GameState :=
  {| phase := phase s; currentWaveIndex := currentWaveIndex s;
     simulationTime := t; isPaused := isPaused s; gameSpeed := gameSpeed s;
     money := money s; lives := lives s; mobs := mobs s; towers := towers s;
     projectiles := projectiles s; map_tiles := map_tiles s;
     pathCoords := pathCoords s; waves := waves s;
     nextWaveTime := nextWaveTime s |}.

Definition withMobsLives (s : GameState) (ms : list Mob) (l : Z) : GameState :=
  {| phase := phase s; currentWaveIndex := currentWaveIndex s;
     simulationTime := simulationTime s; isPaused := isPaused s;
     gameSpeed := gameSpeed s; money := money s; lives := l; mobs := ms;
     towers := towers s; projectiles := projectiles s;
     map_tiles := map_tiles s; pathCoords := pathCoords s; waves := waves s;
     nextWaveTime := nextWaveTime s |}.

Definition withTowersProjectiles (s : GameState) (ts : list PlacedTower)
           (ps : list Projectile) : GameState :=
  {| phase := phase s; currentWaveIndex := currentWaveIndex s;
     simulationTime := simulationTime s; isPaused := isPaused s;
     gameSpeed := gameSpeed s; money := money s; lives := lives s;
     mobs := mobs s; towers := ts; projectiles := ps;
     map_tiles := map_tiles s; pathCoords := pathCoords s; waves := waves s;
     nextWaveTime := nextWaveTime s |}.

Definition withProjectilesMobsMoney (s : GameState) (ps : list Projectile)
           (ms : list Mob) (m : Z) : GameState :=
  {| phase := phase s; currentWaveIndex := currentWaveIndex s;
     simulationTime := simulationTime s; isPaused := isPaused s;
     gameSpeed := gameSpeed s; money := m; lives := lives s;
     mobs := ms; towers := towers s; projectiles := ps;
     map_tiles := map_tiles s; pathCoords := pathCoords s; waves := waves s;
     nextWaveTime := nextWaveTime s |}.

Definition withWave (s : GameState) (ms : list Mob) (index : Z) (p : GamePhase)
  : GameState :=
  {| phase := p; currentWaveIndex := index;
     simulationTime := simulationTime s; isPaused := isPaused s;
     gameSpeed := gameSpeed s; money := money s; lives := lives s;
     mobs := ms; towers := towers s; projectiles := projectiles s;
     map_tiles := map_tiles s; pathCoords := pathCoords s; waves := waves s;
     nextWaveTime := nextWaveTime s |}.

Definition withPhase (s : GameState) (p : GamePhase) : GameState :=
  {| phase := p; currentWaveIndex := currentWaveIndex s;
     simulationTime := simulationTime s; isPaused := isPaused s;
     gameSpeed := gameSpeed s; money := money s; lives := lives s;
     mobs := mobs s; towers := towers s; projectiles := projectiles s;
     map_tiles := map_tiles s; pathCoords := pathCoords s; waves := waves s;
     nextWaveTime := nextWaveTime s |}.

Definition phase_eqb (p q : GamePhase) : bool :=
  match p, q with
  | Preparing, Preparing | WaveActive, WaveActive
  | BetweenWaves, BetweenWaves | Victory, Victory | Defeat, Defeat => true
  | _, _ => false
  end.

(** *** updateMobs *)

(** The test [updatedMob.pathProgress >= 1 && !updatedMob.reachedEnd]. *)
Definition justReachedEnd (updatedMob : Mob) : bool :=
  Js.geb (mob_pathProgress updatedMob) 1 && negb (mob_reachedEnd updatedMob).

(** A spawned mob after effect decay and movement, before the end test.
    [progressDelta] divides by the path length.  On a path of length 0
    (fewer than two tiles) JavaScript divides by zero and continues with
    [Infinity] or [NaN], which the real numbers do not represent: the
    definition stands for the source on paths of positive length, and
    every statement about the progress or position it computes carries
    that hypothesis. *)
Definition movedMob (state : GameState) (deltaTime : R) (mob : Mob) : Mob :=
  let mobWithUpdatedEffects := Effects.updateMobEffects mob (simulationTime state) in
  let effectiveSpeed :=
    Effects.getEffectiveSpeed mobWithUpdatedEffects (simulationTime state) in
  let pathLength :=
    Grid.calculatePathLength (pathCoords state) (tileSize GAME_CONFIG) in
  let progressDelta :=
    (effectiveSpeed * tileSize GAME_CONFIG * deltaTime) / pathLength in
  let newProgress :=
    Rmin 1 (mob_pathProgress mobWithUpdatedEffects + progressDelta) in
  withProgress mobWithUpdatedEffects newProgress
    (Grid.getPositionOnPath (pathCoords state) newProgress (tileSize GAME_CONFIG)).

(** One iteration of [for (const mob of state.mobs)]; the accumulator is
    [(updatedMobs, livesLost)]. *)
Definition updateMobs_step (state : GameState) (deltaTime : R)
           (acc : list Mob * Z) (mob : Mob) : list Mob * Z :=
  let '(updatedMobs, livesLost) := acc in
  if Js.ltb (mob_pathProgress mob) 0 then
    let newProgress := mob_pathProgress mob + deltaTime in
    let updatedMob :=
      withProgress mob newProgress
        (if Js.geb newProgress 0
         then Grid.getPositionOnPath (pathCoords state) 0 (tileSize GAME_CONFIG)
         else mob_pos mob) in
    (updatedMobs ++ [updatedMob], livesLost)
  else
    let updatedMob := movedMob state deltaTime mob in
    let reached := justReachedEnd updatedMob in
    let updatedMob := if reached then withReachedEnd updatedMob true else updatedMob in
    let livesLost := if reached then (livesLost + 1)%Z else livesLost in
    if negb (mob_reachedEnd updatedMob) && Js.gtb (mob_hp updatedMob) 0
    then (updatedMobs ++ [updatedMob], livesLost)
    else (updatedMobs, livesLost).

Definition updateMobs (state : GameState) (deltaTime : R) : GameState :=
  let '(updatedMobs, livesLost) :=
    fold_left (updateMobs_step state deltaTime) (mobs state) ([], 0%Z) in
  let newLives := Z.max 0 (lives state - livesLost) in
  withMobsLives state updatedMobs newLives.

(** *** updateTowers *)

Definition projectileTypeOf (t : TowerType) : ProjectileType :=
  match t with
  | Arrow => ArrowShot
  | Cannon => Cannonball
  | Frost => FrostShot
  end.

(** One iteration of [state.towers.forEach]; the accumulator is
    [(updatedTowers, newProjectiles)]. *)
Definition updateTowers_step (ids : IdSource) (state : GameState)
           (acc : list PlacedTower * list Projectile) (placedTower : PlacedTower)
  : result (list PlacedTower * list Projectile) :=
  let '(updatedTowers, newProjectiles) := acc in
  let key := towerTypeKey (pt_type placedTower) in
  stats <- calculateTowerStats key (pt_tier placedTower) ;;
  let worldPos := Grid.gridToWorld (pt_gridCoord placedTower) (tileSize GAME_CONFIG) in
  definition <- Js.defined (lookup key TOWER_DEFINITIONS) ;;
  let tower :=
    {| tower_id := pt_id placedTower;
       tower_gridCoord := pt_gridCoord placedTower;
       tower_pos := worldPos;
       tower_type := pt_type placedTower;
       tower_tier := pt_tier placedTower;
       tower_range := ts_range stats * tileSize GAME_CONFIG;
       tower_damage := ts_damage stats;
       tower_attackRate := ts_attackRate stats;
       tower_projectileSpeed := td_projectileSpeed definition;
       tower_lastAttackTime := or_else (pt_lastAttackTime placedTower) 0;
       tower_splashRadius := td_splashRadius definition;
       tower_slowDuration := td_slowDuration definition;
       tower_slowAmount := td_slowAmount definition |} in
  if Targeting.canTowerAttack tower (simulationTime state) then
    match Targeting.findTarget tower (mobs state) (Some First) with
    | Some target =>
        let projectile :=
          {| proj_id := projectileId ids (List.length newProjectiles);
             proj_pos := tower_pos tower;
             proj_targetPos := mob_pos target;
             proj_targetMobId := Some (mob_id target);
             proj_speed := or_else (tower_projectileSpeed tower) 0;
             proj_damage := tower_damage tower;
             proj_type := projectileTypeOf (tower_type tower);
             proj_splashRadius := tower_splashRadius tower;
             proj_slowDuration := tower_slowDuration tower;
             proj_slowAmount := tower_slowAmount tower;
             proj_hasHit := false |} in
        let updatedTower := withLastAttackTime placedTower (simulationTime state) in
        Ok (updatedTowers ++ [updatedTower], newProjectiles ++ [projectile])
    | None => Ok (updatedTowers ++ [placedTower], newProjectiles)
    end
  else Ok (updatedTowers ++ [placedTower], newProjectiles).

Definition updateTowers (ids : IdSource) (state : GameState) : result GameState :=
  r <- foldM (updateTowers_step ids state) (towers state) ([], projectiles state) ;;
  Ok (withTowersProjectiles state (fst r) (snd r)).

(** *** updateProjectiles *)

(** [mobs.findIndex(m => m.id === id)] *)
Fixpoint findIndex (id : string) (l : list Mob) : option nat :=
  match l with
  | [] => None
  | m :: rest =>
      if String.eqb (mob_id m) id then Some O
      else option_map S (findIndex id rest)
  end.

(** [l.splice(i, 1)] and [l[i] = m] on an index within bounds. *)
Definition removeAt (i : nat) (l : list Mob) : list Mob :=
  firstn i l ++ skipn (S i) l.

Definition setAt (i : nat) (m : Mob) (l : list Mob) : list Mob :=
  firstn i l ++ m :: skipn (S i) l.

Definition bountyAt (i : nat) (l : list Mob) : Z :=
  match nth_error l i with
  | Some m => mob_bounty m
  | None => 0%Z
  end.

(** The shared tail of both branches: remove a killed mob and collect its
    bounty, or store the damaged mob. *)
Definition settleHit (acc : list Mob * Z) (id : string)
           (hit : Mob * R * bool) : list Mob * Z :=
  let '(updatedMobs, bountyGained) := acc in
  let '(damaged, _, killed) := hit in
  match findIndex id updatedMobs with
  | Some mobIndex =>
      if killed
      then (removeAt mobIndex updatedMobs,
            (bountyGained + bountyAt mobIndex updatedMobs)%Z)
      else (setAt mobIndex damaged updatedMobs, bountyGained)
  | None => acc
  end.

Definition handleProjectileHit (projectile : Projectile) (mobs : list Mob)
           (currentTime : R) : list Mob * Z :=
  let splash :=
    match proj_splashRadius projectile with
    | Some r => negb (Js.eqb r 0) && Js.gtb r 0
    | None => false
    end in
  if splash then
    let mobsInRange :=
      Targeting.getMobsInSplashRange (proj_targetPos projectile)
        (or_else (proj_splashRadius projectile) 0 * tileSize GAME_CONFIG) mobs in
    fold_left
      (fun acc mob =>
         settleHit acc (mob_id mob)
           (Effects.applyDamage mob (proj_damage projectile)))
      mobsInRange (mobs, 0%Z)
  else
    let targetMob :=
      match proj_targetMobId projectile with
      | Some id => find (fun mob => String.eqb (mob_id mob) id) mobs
      | None => None
      end in
    match targetMob with
    | Some targetMob =>
        let updatedMob :=
          match proj_slowDuration projectile, proj_slowAmount projectile with
          | Some d, Some a =>
              if negb (Js.eqb d 0) && negb (Js.eqb a 0)
              then Effects.applySlow targetMob a d currentTime
              else targetMob
          | _, _ => targetMob
          end in
        settleHit (mobs, 0%Z) (mob_id targetMob)
          (Effects.applyDamage updatedMob (proj_damage projectile))
    | None => (mobs, 0%Z)
    end.

(** One iteration of [state.projectiles.forEach]; the accumulator is
    [(activeProjectiles, updatedMobs, moneyGained)]. *)
Definition updateProjectiles_step (state : GameState) (deltaTime : R)
           (acc : list Projectile * list Mob * Z) (projectile : Projectile)
  : list Projectile * list Mob * Z :=
  let '(activeProjectiles, updatedMobs, moneyGained) := acc in
  if proj_hasHit projectile then acc
  else if Js.eqb (proj_speed projectile) 0 || Js.leb (proj_speed projectile) 0 then
    let '(ms, bountyGained) :=
      handleProjectileHit projectile updatedMobs (simulationTime state) in
    (activeProjectiles, ms, (moneyGained + bountyGained)%Z)
  else
    let distanceToTarget :=
      Grid.distance (proj_pos projectile) (proj_targetPos projectile) in
    let moveDistance := proj_speed projectile * tileSize GAME_CONFIG * deltaTime in
    if Js.leb distanceToTarget moveDistance then
      let '(ms, bountyGained) :=
        handleProjectileHit projectile updatedMobs (simulationTime state) in
      (activeProjectiles, ms, (moneyGained + bountyGained)%Z)
    else
      let direction :=
        {| vx := (vx (proj_targetPos projectile) - vx (proj_pos projectile))
                 / distanceToTarget;
           vy := (vy (proj_targetPos projectile) - vy (proj_pos projectile))
                 / distanceToTarget |} in
      let updatedProjectile :=
        withProjPos projectile
          {| vx := vx (proj_pos projectile) + vx direction * moveDistance;
             vy := vy (proj_pos projectile) + vy direction * moveDistance |} in
      (activeProjectiles ++ [updatedProjectile], updatedMobs, moneyGained).

Definition updateProjectiles (state : GameState) (deltaTime : R) : GameState :=
  let '(activeProjectiles, updatedMobs, moneyGained) :=
    fold_left (updateProjectiles_step state deltaTime) (projectiles state)
              ([], mobs state, 0%Z) in
  withProjectilesMobsMoney state activeProjectiles updatedMobs
    (money state + moneyGained)%Z.

(** *** Wave spawning *)

(** The [switch (waveNumber)] table of [spawnWave]. *)
Definition waveComposition (waveNumber : Z) : list (MobType * nat) :=
  match waveNumber with
  | 1%Z => [(Normal, 5%nat)]
  | 2%Z => [(Normal, 8%nat)]
  | 3%Z => [(Normal, 6%nat); (Fast, 4%nat)]
  | 4%Z => [(Fast, 8%nat); (Normal, 4%nat)]
  | 5%Z => [(Normal, 8%nat); (Tank, 3%nat)]
  | 6%Z => [(Normal, 6%nat); (Fast, 5%nat); (Flying, 4%nat)]
  | 7%Z => [(Fast, 10%nat); (Tank, 4%nat); (Flying, 6%nat)]
  | 8%Z => [(Tank, 8%nat); (Normal, 10%nat); (Flying, 3%nat)]
  | 9%Z => [(Fast, 15%nat); (Flying, 10%nat); (Tank, 5%nat)]
  | 10%Z => [(Tank, 10%nat); (Fast, 15%nat); (Flying, 12%nat); (Normal, 20%nat)]
  | _ => []
  end.

(** One iteration of the inner loop [for (let i = 0; i < count; i++)];
    the accumulator is [(newMobs, spawnDelay)]. *)
Definition spawnMob (ids : IdSource) (state : GameState) (waveNumber : Z)
           (baseSpacing : R) (type : MobType) (acc : list Mob * R)
  : result (list Mob * R) :=
  let '(newMobs, spawnDelay) := acc in
  mobStats <- calculateMobStats (mobTypeKey type) waveNumber ;;
  let mob :=
    {| mob_id := mobId ids (List.length newMobs);
       mob_pos := Grid.getPositionOnPath (pathCoords state) 0 (tileSize GAME_CONFIG);
       mob_hp := ms_hp mobStats;
       mob_maxHp := ms_maxHp mobStats;
       mob_speed := ms_speed mobStats;
       mob_armor := ms_armor mobStats;
       mob_type := ms_type mobStats;
       mob_bounty := ms_bounty mobStats;
       mob_pathProgress := - spawnDelay / 10;
       mob_status := {| slowUntil := None; slowMultiplier := None |};
       mob_reachedEnd := false |} in
  Ok (newMobs ++ [mob], spawnDelay + baseSpacing).

Fixpoint spawnMobs (ids : IdSource) (state : GameState) (waveNumber : Z)
         (baseSpacing : R) (type : MobType) (count : nat) (acc : list Mob * R)
  : result (list Mob * R) :=
  match count with
  | O => Ok acc
  | S n =>
      acc' <- spawnMob ids state waveNumber baseSpacing type acc ;;
      spawnMobs ids state waveNumber baseSpacing type n acc'
  end.

(** One iteration of [mobTypes.forEach]. *)
Definition spawnGroup (ids : IdSource) (state : GameState) (waveNumber : Z)
           (baseSpacing : R) (acc : list Mob * R) (group : MobType * nat)
  : result (list Mob * R) :=
  r <- spawnMobs ids state waveNumber baseSpacing (fst group) (snd group) acc ;;
  Ok (fst r, snd r + 1.5).

(** The mobs built by [spawnWave] for wave [waveNumber]. *)
Definition waveMobs (ids : IdSource) (state : GameState) (waveNumber : Z)
  : result (list Mob) :=
  let mobTypes := waveComposition waveNumber in
  let baseSpacing := Rmax 0.3 (1.2 - IZR waveNumber * 0.1) in
  r <- foldM (spawnGroup ids state waveNumber baseSpacing) mobTypes ([], 0) ;;
  Ok (fst r).

Definition spawnWave (ids : IdSource) (state : GameState) : result GameState :=
  let waveNumber := (currentWaveIndex state + 1)%Z in
  newMobs <- waveMobs ids state waveNumber ;;
  Ok (withWave state (mobs state ++ newMobs) waveNumber WaveActive).

(** [Math.floor(state.simulationTime / waveInterval) > state.currentWaveIndex]
    with [waveInterval = 15]. *)
Definition shouldSpawnWave (state : GameState) : bool :=
  let waveInterval := 15 in
  (Js.floor (simulationTime state / waveInterval) >? currentWaveIndex state)%Z.

Definition updateWaveSpawning (ids : IdSource) (state : GameState)
  : result GameState :=
  if shouldSpawnWave state && (currentWaveIndex state <? 10)%Z
  then spawnWave ids state
  else Ok state.

(** *** Phase transitions *)

Definition updateGamePhase (state : GameState) : GameState :=
  if (lives state <=? 0)%Z && negb (phase_eqb (phase state) Defeat) then
    withPhase state Defeat
  else if (currentWaveIndex state >=? 10)%Z
          && (List.length (mobs state) =? 0)%nat
          && negb (phase_eqb (phase state) Victory) then
    withPhase state Victory
  else state.

(** *** The tick *)

Definition advanceTick (ids : IdSource) (state : GameState) (deltaTime : R)
  : result GameState :=
  if isPaused state then Ok state
  else if phase_eqb (phase state) Defeat || phase_eqb (phase state) Victory then
    Ok state
  else
    let newState :=
      withSimulationTime state
        (simulationTime state + deltaTime * gameSpeed state) in
    let newState := updateMobs newState (deltaTime * gameSpeed state) in
    newState <- updateTowers ids newState ;;
    let newState := updateProjectiles newState (deltaTime * gameSpeed state) in
    newState <- updateWaveSpawning ids newState ;;
    let newState := updateGamePhase newState in
    Ok newState.

Definition createInitialGameState (map : list (list Tile))
           (pathCoords : list GridCoord) : GameState :=
  {| phase := Preparing; currentWaveIndex := 0; simulationTime := 0;
     isPaused := false; gameSpeed := 1;
     money := startingMoney GAME_CONFIG; lives := startingLives GAME_CONFIG;
     mobs := []; towers := []; projectiles := [];
     map_tiles := map; pathCoords := pathCoords; waves := [];
     nextWaveTime := None |}.

Inductive GameAction : Type :=
| Tick (deltaTime : R)
| Pause
| Resume
| SetSpeed (speed : R)
| SelectTowerType (towerType : option TowerType)
| BuildTower (gridCoord : GridCoord) (towerType : TowerType)
| UpgradeTower (towerId : string)
| SellTower (towerId : string)
| SelectTower (towerId : option string)
| StartNextWave
| SetHoverCoord (coord : option GridCoord)
| RestartGame.

Definition withPaused (s : GameState) (flag : bool) : GameState :=
  {| phase := phase s; currentWaveIndex := currentWaveIndex s;
     simulationTime := simulationTime s; isPaused := flag;
     gameSpeed := gameSpeed s; money := money s; lives := lives s;
     mobs := mobs s; towers := towers s; projectiles := projectiles s;
     map_tiles := map_tiles s; pathCoords := pathCoords s; waves := waves s;
     nextWaveTime := nextWaveTime s |}.

Definition withGameSpeed (s : GameState) (speed : R) : GameState :=
  {| phase := phase s; currentWaveIndex := currentWaveIndex s;
     simulationTime := simulationTime s; isPaused := isPaused s;
     gameSpeed := speed; money := money s; lives := lives s;
     mobs := mobs s; towers := towers s; projectiles := projectiles s;
     map_tiles := map_tiles s; pathCoords := pathCoords s; waves := waves s;
     nextWaveTime := nextWaveTime s |}.

Definition gameReducer (ids : IdSource) (state : GameState) (action : GameAction)
  : result GameState :=
  match action with
  | Tick deltaTime => advanceTick ids state deltaTime
  | Pause => Ok (withPaused state true)
  | Resume => Ok (withPaused state false)
  | SetSpeed speed => Ok (withGameSpeed state (Rmax 0.5 (Rmin 4 speed)))
  | RestartGame => Ok (createInitialGameState (map_tiles state) (pathCoords state))
  | StartNextWave => Ok state
  | _ => Ok state
  end.

(** A sequence of reducer actions, each with its own environment. *)
Fixpoint runActions (state : GameState) (actions : list (IdSource * GameAction))
  : result GameState :=
  match actions with
  | [] => Ok state
  | (ids, action) :: rest =>
      state' <- gameReducer ids state action ;;
      runActions state' rest
  end.

(** A sequence of ticks, each with its own environment and time step. *)
Fixpoint runTicks (state : GameState) (ticks : list (IdSource * R))
  : result GameState :=
  match ticks with
  | [] => Ok state
  | (ids, deltaTime) :: rest =>
      state' <- advanceTick ids state deltaTime ;;
      runTicks state' rest
  end.

End Sim.

(** ** state/store.ts *)

Module Store.

Import Definitions.

(** The store holds the game state together with the UI state.  Its
    function-valued members ([buildTower], [canBuildAt], ...) are the
    definitions below; the [gameLoop] handle is not modelled. *)
Record GameStore : Type := mkGameStore {
  game : GameState;
  hoveredCoord : option GridCoord;
  selectedTowerId : option string;
  selectedTowerType : option TowerType;
  showRange : bool
}.

Definition withTowersMoney (g : GameState) (ts : list PlacedTower) (m : Z)
  : GameState :=
  {| phase := phase g; currentWaveIndex := currentWaveIndex g;
     simulationTime := simulationTime g; isPaused := isPaused g;
     gameSpeed := gameSpeed g; money := m; lives := lives g;
     mobs := mobs g; towers := ts; projectiles := projectiles g;
     map_tiles := map_tiles g; pathCoords := pathCoords g; waves := waves g;
     nextWaveTime := nextWaveTime g |}.

Definition withTier (t : PlacedTower) (tier : Z) : PlacedTower :=
  {| pt_id := pt_id t; pt_gridCoord := pt_gridCoord t; pt_type := pt_type t;
     pt_tier := tier; pt_lastAttackTime := pt_lastAttackTime t |}.

Definition getTowerById (state : GameStore) (id : string) : option PlacedTower :=
  find (fun t => String.eqb (pt_id t) id) (towers (game state)).

Definition canBuildAt (state : GameStore) (coord : GridCoord) : result bool :=
  if ((gx coord <? 0) || (gx coord >=? mapWidth GAME_CONFIG)
      || (gy coord <? 0) || (gy coord >=? mapHeight GAME_CONFIG))%Z
  then Ok false
  else
    tile <- Js.defined (Grid.tileAt (map_tiles (game state)) coord) ;;
    match tile_type tile with
    | Buildable =>
        Ok (negb (existsb
                    (fun tower =>
                       ((gx (pt_gridCoord tower) =? gx coord)
                        && (gy (pt_gridCoord tower) =? gy coord))%Z)
                    (towers (game state))))
    | _ => Ok false
    end.

Definition calculateSellValue (tower : PlacedTower) : result Z :=
  let key := towerTypeKey (pt_type tower) in
  definition <- Js.defined (lookup key TOWER_DEFINITIONS) ;;
  let totalCost :=
    fold_left
      (fun totalCost tier =>
         (totalCost + calculateUpgradeCost key (tier - 1) tier)%Z)
      (Js.range 2 (pt_tier tower)) (td_baseCost definition) in
  Ok (Binary64.floor_times_0_7 totalCost).

(** [newId] stands for the identifier the source builds from
    [Date.now()] and [Math.random()]. *)
Definition buildTower (newId : string) (state : GameStore) (coord : GridCoord)
           (towerType : TowerType) : result GameStore :=
  stats <- calculateTowerStats (towerTypeKey towerType) 1 ;;
  if (money (game state) <? ts_cost stats)%Z then Ok state
  else
    allowed <- canBuildAt state coord ;;
    if negb allowed then Ok state
    else
      let newTower :=
        {| pt_id := newId; pt_gridCoord := coord; pt_type := towerType;
           pt_tier := 1; pt_lastAttackTime := None |} in
      Ok {| game := withTowersMoney (game state)
                      (towers (game state) ++ [newTower])
                      (money (game state) - ts_cost stats)%Z;
            hoveredCoord := hoveredCoord state;
            selectedTowerId := Some (pt_id newTower);
            selectedTowerType := selectedTowerType state;
            showRange := showRange state |}.

Definition upgradeTower (state : GameStore) (towerId : string) : GameStore :=
  match getTowerById state towerId with
  | None => state
  | Some tower =>
      if (pt_tier tower >=? 3)%Z then state
      else
        let nextTier := (pt_tier tower + 1)%Z in
        if (nextTier >? 3)%Z then state
        else
          let upgradeCost :=
            calculateUpgradeCost (towerTypeKey (pt_type tower))
              (pt_tier tower) nextTier in
          if (money (game state) <? upgradeCost)%Z then state
          else
            {| game := withTowersMoney (game state)
                         (map (fun t =>
                                 if String.eqb (pt_id t) towerId
                                 then withTier t nextTier else t)
                              (towers (game state)))
                         (money (game state) - upgradeCost)%Z;
               hoveredCoord := hoveredCoord state;
               selectedTowerId := selectedTowerId state;
               selectedTowerType := selectedTowerType state;
               showRange := showRange state |}
  end.

Definition sellTower (state : GameStore) (towerId : string) : result GameStore :=
  match getTowerById state towerId with
  | None => Ok state
  | Some tower =>
      sellValue <- calculateSellValue tower ;;
      Ok {| game := withTowersMoney (game state)
                      (filter (fun t => negb (String.eqb (pt_id t) towerId))
                              (towers (game state)))
                      (money (game state) + sellValue)%Z;
            hoveredCoord := hoveredCoord state;
            selectedTowerId := None;
            selectedTowerType := selectedTowerType state;
            showRange := showRange state |}
  end.

Definition setGameSpeed (state : GameStore) (speed : R) : GameStore :=
  {| game := Sim.withGameSpeed (game state) (Rmax 0.5 (Rmin 4 speed));
     hoveredCoord := hoveredCoord state;
     selectedTowerId := selectedTowerId state;
     selectedTowerType := selectedTowerType state;
     showRange := showRange state |}.

End Store.

(** ** Specification-side vocabulary

    Notions the properties below are phrased with; each is defined
    independently of the function it is compared against. *)

Module Spec.

Import Definitions.

(** The cost of the upgrade record of [definition] for tier [t], if any. *)
Definition upgradeCostAt (definition : TowerDefinition) (t : Z) : Z :=
  match findUpgrade definition t with
  | Some upgrade => up_cost upgrade
  | None => 0%Z
  end.

(** Base cost plus the cost of every upgrade record up to the tower's
    current tier. *)
Definition totalInvestment (tower : PlacedTower) : Z :=
  match lookup (towerTypeKey (pt_type tower)) TOWER_DEFINITIONS with
  | Some definition =>
      (td_baseCost definition
       + fold_right Z.add 0
           (map up_cost
              (filter (fun u => up_tier u <=? pt_tier tower)
                      (td_upgrades definition))))%Z
  | None => 0%Z
  end.

(** The refund as the specification words it, over the real numbers:
    the floor of seventy percent of the investment. *)
Definition seventyPercentFloor (totalInvestment : Z) : Z :=
  Zfloor (IZR totalInvestment * 0.7).

(** What the binary64 product loses against [seventyPercentFloor]: one
    unit for a frost tower of tier 2 or more (investments 90 and 170,
    whose products round to just below 63 and 119), nothing otherwise. *)
Definition roundingLoss (tower : PlacedTower) : Z :=
  match pt_type tower with
  | Frost => if (2 <=? pt_tier tower)%Z then 1%Z else 0%Z
  | _ => 0%Z
  end.

(** An optional multiplier read with default [1]. *)
Definition defaultOne (o : option R) : R :=
  match o with
  | Some v => v
  | None => 1%R
  end.

(** A mob is eligible for a tower when it lies within the tower's range
    (Euclidean distance) and has not reached the end. *)
Definition eligible (tower : Tower) (mob : Mob) : Prop :=
  (Grid.distance (tower_pos tower) (mob_pos mob) <= tower_range tower)%R
  /\ mob_reachedEnd mob = false.

(** The tick is short-circuited: the game is paused or over. *)
Definition shortCircuited (state : GameState) : Prop :=
  isPaused state = true \/ phase state = Defeat \/ phase state = Victory.

(** A mob reaches the end in this movement stage: it is on the path
    (its progress is not negative), it has not been flagged as having
    reached the end, and its progress after the move is at least 1.
    [state] is the state the movement stage receives, [deltaTime] the
    scaled time step. *)
Definition crossesEnd (state : GameState) (deltaTime : R) (mob : Mob) : bool :=
  negb (Js.ltb (mob_pathProgress mob) 0)
  && negb (mob_reachedEnd mob)
  && Js.leb 1 (mob_pathProgress (Sim.movedMob state deltaTime mob)).

(** Stages 1 to 4 of the tick: time, mobs, towers, projectiles. *)
Definition beforeSpawning (ids : Sim.IdSource) (state : GameState) (deltaTime : R)
  : result GameState :=
  let scaled := (deltaTime * gameSpeed state)%R in
  let s0 := Sim.withSimulationTime state (simulationTime state + scaled)%R in
  s2 <- Sim.updateTowers ids (Sim.updateMobs s0 scaled) ;;
  Ok (Sim.updateProjectiles s2 scaled).

(** A wave is due at simulation time [time] when the wave index is
    [index]. *)
Definition waveDue (time : R) (index : Z) : Prop :=
  (Zfloor (time / 15) > index)%Z /\ (index < 10)%Z.

(** Consecutive path coordinates are edge neighbours. *)
Fixpoint stepwise (pathCoords : list GridCoord) : Prop :=
  match pathCoords with
  | a :: (b :: _) as rest => Grid.manhattanDistance a b = 1%Z /\ stepwise rest
  | _ => True
  end.

(** The world-space square of tile [c]: [c*ts <= p < (c+1)*ts] on both
    axes. *)
Definition tileContains (c : GridCoord) (tileSize : R) (p : Vec2) : Prop :=
  (IZR (gx c) * tileSize <= vx p < (IZR (gx c) + 1) * tileSize)%R
  /\ (IZR (gy c) * tileSize <= vy p < (IZR (gy c) + 1) * tileSize)%R.

(** The point at fraction [t] of the segment from [a] to [b]. *)
Definition lerp (a b : Vec2) (t : R) : Vec2 :=
  {| vx := (vx a + (vx b - vx a) * t)%R; vy := (vy a + (vy b - vy a) * t)%R |}.

(** What each targeting strategy prefers: larger is better. *)
Definition preference (tower : Tower) (strategy : TargetingStrategy) (mob : Mob) : R :=
  match strategy with
  | First => mob_pathProgress mob
  | Last => (- mob_pathProgress mob)%R
  | Nearest => (- Grid.distance (tower_pos tower) (mob_pos mob))%R
  | Strongest => mob_hp mob
  | Weakest => (- mob_hp mob)%R
  end.

(** Some tower stands on [coord]. *)
Definition occupied (coord : GridCoord) (towers : list PlacedTower) : Prop :=
  exists tower, In tower towers /\ pt_gridCoord tower = coord.

(** No two towers share a grid coordinate. *)
Definition distinctCoords (towers : list PlacedTower) : Prop :=
  NoDup (map pt_gridCoord towers).

(** Every tower has tier 1, 2 or 3. *)
Definition tiersValid (towers : list PlacedTower) : Prop :=
  forall tower, In tower towers -> (1 <= pt_tier tower <= 3)%Z.

(** What identifies a placed tower on the board: everything but the time
    of its last attack. *)
Definition placement (tower : PlacedTower) : string * GridCoord * TowerType * Z :=
  (pt_id tower, pt_gridCoord tower, pt_type tower, pt_tier tower).

(** The parts of the game state a tick has no business changing: the map,
    the path, the pause flag, the speed and the wave table. *)
Definition sameBoard (before after : GameState) : Prop :=
  map_tiles after = map_tiles before
  /\ pathCoords after = pathCoords before
  /\ isPaused after = isPaused before
  /\ gameSpeed after = gameSpeed before
  /\ waves after = waves before
  /\ nextWaveTime after = nextWaveTime before.

(** What a projectile created in the towers stage looks like: some tower
    of the state, whose cooldown has elapsed, fired it from the centre of
    its tile at a mob of the state within its range. *)
Definition freshShot (state : GameState) (projectile : Projectile) : Prop :=
  proj_hasHit projectile = false
  /\ exists placedTower target stats,
       In placedTower (towers state)
       /\ In target (mobs state)
       /\ calculateTowerStats (towerTypeKey (pt_type placedTower))
            (pt_tier placedTower) = Ok stats
       /\ (1 / ts_attackRate stats
           <= simulationTime state - Js.or_else (pt_lastAttackTime placedTower) 0)%R
       /\ (Grid.distance
             (Grid.gridToWorld (pt_gridCoord placedTower) (tileSize GAME_CONFIG))
             (mob_pos target)
           <= ts_range stats * tileSize GAME_CONFIG)%R
       /\ mob_reachedEnd target = false
       /\ proj_targetMobId projectile = Some (mob_id target)
       /\ proj_targetPos projectile = mob_pos target
       /\ proj_pos projectile
          = Grid.gridToWorld (pt_gridCoord placedTower)
              (tileSize GAME_CONFIG)
       /\ proj_damage projectile = ts_damage stats
       /\ proj_type projectile = Sim.projectileTypeOf (pt_type placedTower).

(** How the mobs stage relates a mob it keeps ([after]) to the mob it
    came from ([before]). *)
Definition mobStepped (state : GameState) (deltaTime : R) (before after : Mob)
  : Prop :=
  mob_id after = mob_id before
  /\ mob_hp after = mob_hp before
  /\ mob_bounty after = mob_bounty before
  /\ ((mob_pathProgress before < 0)%R ->
      mob_pathProgress after = (mob_pathProgress before + deltaTime)%R
      /\ mob_status after = mob_status before
      /\ mob_reachedEnd after = mob_reachedEnd before)
  /\ ((0 <= mob_pathProgress before)%R ->
      mob_reachedEnd after = false
      /\ (0 < mob_hp after)%R
      /\ (mob_pathProgress after < 1)%R
      /\ mob_pos after
         = Grid.getPositionOnPath (pathCoords state) (mob_pathProgress after)
             (tileSize GAME_CONFIG)).

(** What a mob created by [spawnWave] for wave [waveNumber] looks like. *)
Definition freshMob (state : GameState) (waveNumber : Z) (mob : Mob) : Prop :=
  mob_reachedEnd mob = false
  /\ (mob_pathProgress mob <= 0)%R
  /\ mob_status mob = {| slowUntil := None; slowMultiplier := None |}
  /\ mob_pos mob
     = Grid.getPositionOnPath (pathCoords state) 0 (tileSize GAME_CONFIG)
  /\ exists stats,
       calculateMobStats (mobTypeKey (mob_type mob)) waveNumber = Ok stats
       /\ mob_hp mob = ms_hp stats
       /\ mob_maxHp mob = ms_hp stats
       /\ mob_speed mob = ms_speed stats
       /\ mob_armor mob = ms_armor stats
       /\ mob_bounty mob = ms_bounty stats.

(** [earlier] enters the path before [later]. *)
Definition entersBefore (earlier later : Mob) : Prop :=
  (mob_pathProgress later < mob_pathProgress earlier)%R.

(** The invariant of the spawn loops on [(newMobs, spawnDelay)]. *)
Definition spawnInvariant (state : GameState) (waveNumber : Z)
           (acc : list Mob * R) : Prop :=
  (0 <= snd acc)%R
  /\ Forall (freshMob state waveNumber) (fst acc)
  /\ StronglySorted entersBefore (fst acc)
  /\ (forall mob, In mob (fst acc) -> (- snd acc / 10 < mob_pathProgress mob)%R).

(** The bounties still to be earned from a list of mobs. *)
Definition bountySum (mobs : list Mob) : Z :=
  fold_right Z.add 0%Z (map mob_bounty mobs).

(** Every mob of [after] stands for a mob of [before] with the same id
    and bounty. *)
Definition tracks (before after : list Mob) : Prop :=
  forall mob', In mob' after ->
    exists mob, In mob before
                /\ mob_id mob' = mob_id mob /\ mob_bounty mob' = mob_bounty mob.

(** The invariant of the hit loops on [(updatedMobs, bountyGained)],
    relative to the mobs the loop started from. *)
Definition hitInvariant (mobs : list Mob) (acc : list Mob * Z) : Prop :=
  NoDup (map mob_id (fst acc))
  /\ tracks mobs (fst acc)
  /\ (snd acc + bountySum (fst acc) = bountySum mobs)%Z
  /\ (List.length (fst acc) <= List.length mobs)%nat
  /\ ((forall mob, In mob mobs -> (0 <= mob_bounty mob)%Z) -> (0 <= snd acc)%Z).

(** The projectile has a splash radius [r]. *)
Definition splashes (projectile : Projectile) (r : R) : Prop :=
  proj_splashRadius projectile = Some r /\ (0 < r)%R.

(** The mobs a hit of [projectile] is meant for: with splash, the mobs
    within the radius around the target position that have not reached
    the end; without, the mob whose id the projectile carries. *)
Definition aimedAt (projectile : Projectile) (mob : Mob) : Prop :=
  (exists r,
      splashes projectile r
      /\ (Grid.distance (proj_targetPos projectile) (mob_pos mob)
          <= r * tileSize GAME_CONFIG)%R
      /\ mob_reachedEnd mob = false)
  \/ ((forall r, ~ splashes projectile r)
      /\ proj_targetMobId projectile = Some (mob_id mob)).

End Spec.

(** ** Concrete inputs used by the examples below *)

Module Examples.

Local Open Scope R_scope.

Definition origin : Vec2 := {| vx := 0; vy := 0 |}.

Definition noStatus : MobStatus := {| slowUntil := None; slowMultiplier := None |}.

(** A goblin at the origin with the given id, progress and status. *)
Definition goblin (id : string) (progress : R) (status : MobStatus) : Mob :=
  {| mob_id := id; mob_pos := origin; mob_hp := 40; mob_maxHp := 40;
     mob_speed := 1.5; mob_armor := 0; mob_type := Normal; mob_bounty := 5;
     mob_pathProgress := progress; mob_status := status;
     mob_reachedEnd := false |}.

(** A mob whose recorded slow multiplier is zero. *)
Definition frozenMob : Mob :=
  goblin "m0" 0.5 {| slowUntil := Some 10; slowMultiplier := Some 0 |}.

Definition ids : Sim.IdSource :=
  {| Sim.projectileId := fun _ => "projectile"; Sim.mobId := fun _ => "mob" |}.

Definition buildableTile : Tile :=
  {| tile_coord := {| gx := 0; gy := 0 |}; tile_type := Buildable;
     tile_pathIndex := None |}.

Definition straightPath : list GridCoord :=
  [ {| gx := 0; gy := 5 |}; {| gx := 1; gy := 5 |}; {| gx := 2; gy := 5 |} ].

Definition frostTower : PlacedTower :=
  {| pt_id := "t1"; pt_gridCoord := {| gx := 5; gy := 5 |}; pt_type := Frost;
     pt_tier := 2; pt_lastAttackTime := None |}.

(** A running game at time 15 with one tier-2 frost tower. *)
Definition running : GameState :=
  {| phase := WaveActive; currentWaveIndex := 0; simulationTime := 15;
     isPaused := false; gameSpeed := 1; money := 100; lives := 20;
     mobs := []; towers := [frostTower]; projectiles := [];
     map_tiles := [[buildableTile]]; pathCoords := straightPath; waves := [];
     nextWaveTime := None |}.

(** The same game, paused. *)
Definition paused : GameState :=
  {| phase := WaveActive; currentWaveIndex := 0; simulationTime := 15;
     isPaused := true; gameSpeed := 1; money := 100; lives := 20;
     mobs := []; towers := [frostTower]; projectiles := [];
     map_tiles := [[buildableTile]]; pathCoords := straightPath; waves := [];
     nextWaveTime := None |}.

(** The same game after the last wave has been cleared. *)
Definition won : GameState :=
  {| phase := Victory; currentWaveIndex := 10; simulationTime := 200;
     isPaused := false; gameSpeed := 1; money := 100; lives := 20;
     mobs := []; towers := [frostTower]; projectiles := [];
     map_tiles := [[buildableTile]]; pathCoords := straightPath; waves := [];
     nextWaveTime := None |}.

(** One life left and a goblin standing on the last path tile. *)
Definition lastStand : GameState :=
  {| phase := WaveActive; currentWaveIndex := 1; simulationTime := 20;
     isPaused := false; gameSpeed := 1; money := 100; lives := 1;
     mobs := [goblin "g" 1 noStatus]; towers := []; projectiles := [];
     map_tiles := [[buildableTile]]; pathCoords := straightPath; waves := [];
     nextWaveTime := None |}.

(** One life left, two goblins about to walk off the path and a third
    still waiting to spawn. *)
Definition breach : GameState :=
  {| phase := WaveActive; currentWaveIndex := 1; simulationTime := 20;
     isPaused := false; gameSpeed := 1; money := 100; lives := 1;
     mobs := [goblin "a" 0.9 noStatus; goblin "b" 0.9 noStatus;
              goblin "w" (-2) noStatus];
     towers := []; projectiles := [];
     map_tiles := [[buildableTile]]; pathCoords := straightPath; waves := [];
     nextWaveTime := None |}.

(** The two-tile map the store's unit tests run on. *)
Definition testMap : list (list Tile) :=
  [[ {| tile_coord := {| gx := 0; gy := 0 |}; tile_type := Buildable;
        tile_pathIndex := None |};
     {| tile_coord := {| gx := 1; gy := 0 |}; tile_type := Path;
        tile_pathIndex := Some 0%Z |} ]].

Definition testStore : Store.GameStore :=
  {| Store.game := Sim.createInitialGameState testMap [ {| gx := 1; gy := 0 |} ];
     Store.hoveredCoord := None; Store.selectedTowerId := None;
     Store.selectedTowerType := None; Store.showRange := true |}.

Definition store : Store.GameStore :=
  {| Store.game := running; Store.hoveredCoord := None;
     Store.selectedTowerId := None; Store.selectedTowerType := None;
     Store.showRange := true |}.

(** A map of the configured size with every tile buildable. *)
Definition openField : list (list Tile) :=
  map (fun y =>
         map (fun x => {| tile_coord := {| gx := x; gy := y |};
                          tile_type := Buildable; tile_pathIndex := None |})
             (Js.range 0 15))
      (Js.range 0 11).

(** The running game on the open field, with its frost tower at (5, 5). *)
Definition fieldStore : Store.GameStore :=
  {| Store.game :=
       {| phase := WaveActive; currentWaveIndex := 0; simulationTime := 15;
          isPaused := false; gameSpeed := 1; money := 100; lives := 20;
          mobs := []; towers := [frostTower]; projectiles := [];
          map_tiles := openField; pathCoords := straightPath; waves := [];
          nextWaveTime := None |};
     Store.hoveredCoord := None; Store.selectedTowerId := None;
     Store.selectedTowerType := None; Store.showRange := true |}.

Definition arrowTower : PlacedTower :=
  {| pt_id := "t0"; pt_gridCoord := {| gx := 3; gy := 4 |}; pt_type := Arrow;
     pt_tier := 1; pt_lastAttackTime := None |}.

(** The open field with two towers standing on it. *)
Definition pairStore : Store.GameStore :=
  {| Store.game :=
       {| phase := WaveActive; currentWaveIndex := 0; simulationTime := 15;
          isPaused := false; gameSpeed := 1; money := 100; lives := 20;
          mobs := []; towers := [frostTower; arrowTower]; projectiles := [];
          map_tiles := openField; pathCoords := straightPath; waves := [];
          nextWaveTime := None |};
     Store.hoveredCoord := None; Store.selectedTowerId := None;
     Store.selectedTowerType := None; Store.showRange := true |}.

(** Two goblins and an arrow in flight at the first of them. *)
Definition skirmish : GameState :=
  {| phase := WaveActive; currentWaveIndex := 1; simulationTime := 20;
     isPaused := false; gameSpeed := 1; money := 100; lives := 20;
     mobs := [goblin "a" 0.5 noStatus; goblin "b" 0.2 noStatus];
     towers := [];
     projectiles :=
       [ {| proj_id := "p"; proj_pos := {| vx := 30; vy := 40 |};
            proj_targetPos := origin; proj_targetMobId := Some "a";
            proj_speed := 8; proj_damage := 100; proj_type := ArrowShot;
            proj_splashRadius := None; proj_slowDuration := None;
            proj_slowAmount := None; proj_hasHit := false |} ];
     map_tiles := [[buildableTile]]; pathCoords := straightPath; waves := [];
     nextWaveTime := None |}.

End Examples.

(** * Properties *)

(** ** Basic facts about the helpers *)

Lemma ltb_true_iff (x y : R) : Js.ltb x y = true <-> (x < y)%R.
Proof. unfold Js.ltb; destruct (Rlt_dec x y); split; auto; discriminate. Qed.

Lemma ltb_false_iff (x y : R) : Js.ltb x y = false <-> (y <= x)%R.
Proof.
  unfold Js.ltb; destruct (Rlt_dec x y); split; auto; try discriminate; lra.
Qed.

Lemma leb_true_iff (x y : R) : Js.leb x y = true <-> (x <= y)%R.
Proof. unfold Js.leb; destruct (Rle_dec x y); split; auto; discriminate. Qed.

Lemma leb_false_iff (x y : R) : Js.leb x y = false <-> (y < x)%R.
Proof.
  unfold Js.leb; destruct (Rle_dec x y); split; auto; try discriminate; lra.
Qed.

Lemma eqb_true_iff (x y : R) : Js.eqb x y = true <-> x = y.
Proof. unfold Js.eqb; destruct (Req_dec_T x y); split; auto; discriminate. Qed.

Lemma eqb_false_iff (x y : R) : Js.eqb x y = false <-> x <> y.
Proof.
  unfold Js.eqb; destruct (Req_dec_T x y); split; auto; try discriminate.
  intros; contradiction.
Qed.

Lemma or_else_nonzero (v d : R) : v <> 0%R -> Js.or_else (Some v) d = v.
Proof. intros H; unfold Js.or_else; now rewrite (proj2 (eqb_false_iff v 0) H). Qed.

Lemma lookup_not_in {T : Type} (k : string) (d : Dict T) :
  ~ In k (keys d) -> lookup k d = None.
Proof.
  induction d as [|[k' v] d IH]; simpl; intros H; [reflexivity|].
  destruct (String.eqb_spec k k') as [->|Hne].
  - exfalso; apply H; now left.
  - apply IH; intros Hin; apply H; now right.
Qed.

Lemma range_empty (lo hi : Z) : (hi < lo)%Z -> Js.range lo hi = [].
Proof.
  intros H; unfold Js.range.
  replace (Z.to_nat (hi - lo + 1)) with O by lia; reflexivity.
Qed.

Lemma range_cons (lo hi : Z) :
  (lo <= hi)%Z -> Js.range lo hi = lo :: Js.range (lo + 1) hi.
Proof.
  intros H; unfold Js.range.
  replace (Z.to_nat (hi - lo + 1)) with (S (Z.to_nat (hi - (lo + 1) + 1))) by lia.
  simpl; f_equal; [lia|].
  rewrite <- seq_shift, map_map.
  apply map_ext; intros i; lia.
Qed.

Lemma range_In (lo hi t : Z) : In t (Js.range lo hi) -> (lo <= t <= hi)%Z.
Proof.
  unfold Js.range; rewrite in_map_iff; intros (i & <- & Hi).
  apply in_seq in Hi; lia.
Qed.

(** ** The repository's unit tests, replayed on the embedding *)

Example gridToWorld_test :
  Grid.gridToWorld {| gx := 2; gy := 3 |} 32 = {| vx := 80; vy := 112 |}.
Proof. unfold Grid.gridToWorld; simpl; f_equal; lra. Qed.

Example distance_test :
  Grid.distance {| vx := 0; vy := 0 |} {| vx := 3; vy := 4 |} = 5%R.
Proof.
  unfold Grid.distance; simpl.
  replace ((0 - 3) * (0 - 3) + (0 - 4) * (0 - 4))%R with (5 * 5)%R by lra.
  apply sqrt_square; lra.
Qed.

Example arrow_tier1_test :
  Definitions.calculateTowerStats "arrow" 1
  = Ok {| Definitions.ts_damage := 15; Definitions.ts_range := 3.5;
          Definitions.ts_attackRate := 2.5; Definitions.ts_cost := 25;
          Definitions.ts_dps := 37.5 |}.
Proof. unfold Definitions.calculateTowerStats; simpl; do 2 f_equal; lra. Qed.

Example cannon_tier2_cost_test :
  exists stats,
    Definitions.calculateTowerStats "cannon" 2 = Ok stats
    /\ Definitions.ts_cost stats = (50 + 75)%Z.
Proof. eexists; split; reflexivity. Qed.

Example upgrade_cost_test :
  Definitions.calculateUpgradeCost "arrow" 1 2 = 30%Z
  /\ Definitions.calculateUpgradeCost "arrow" 2 3 = 60%Z.
Proof. split; reflexivity. Qed.

Example normal_wave5_hp_test :
  exists stats,
    Definitions.calculateMobStats "normal" 5 = Ok stats
    /\ Definitions.ms_hp stats = 82%R.
Proof.
  eexists; split; [reflexivity|]; simpl; unfold Js.floor.
  rewrite (Zfloor_eq 82); [reflexivity|simpl; lra].
Qed.

Example store_sell_value_test :
  Store.calculateSellValue
    {| pt_id := "test-tower"; pt_gridCoord := {| gx := 0; gy := 0 |};
       pt_type := Arrow; pt_tier := 2; pt_lastAttackTime := None |}
  = Ok 38%Z.
Proof. vm_compute; reflexivity. Qed.

Example canBuildAt_test :
  Store.canBuildAt Examples.testStore {| gx := 0; gy := 0 |} = Ok true
  /\ Store.canBuildAt Examples.testStore {| gx := -1; gy := 0 |} = Ok false
  /\ Store.canBuildAt Examples.testStore {| gx := 100; gy := 100 |} = Ok false
  /\ Store.canBuildAt Examples.testStore {| gx := 1; gy := 0 |} = Ok false.
Proof. repeat split; reflexivity. Qed.

(** Inside the configured 16 x 12 bounds but outside the two-tile map the
    tile is [undefined] and reading its type raises. *)
Example canBuildAt_outside_map :
  Store.canBuildAt Examples.testStore {| gx := 5; gy := 5 |} = Throw TypeError.
Proof. reflexivity. Qed.

(** ** The catalog *)

Lemma towerType_defined (T : TowerType) :
  exists definition,
    lookup (towerTypeKey T) Definitions.TOWER_DEFINITIONS = Some definition
    /\ td_type definition = T.
Proof. destruct T; eexists; split; reflexivity. Qed.

Lemma mobType_defined (T : MobType) :
  exists definition,
    lookup (mobTypeKey T) Definitions.MOB_DEFINITIONS = Some definition
    /\ md_type definition = T.
Proof. destruct T; eexists; split; reflexivity. Qed.

(** The cost component of the running stats does not depend on the other
    three. *)
Lemma applyUpgrade_cost (definition : TowerDefinition) (l : list Z)
      (stats : Definitions.statsAcc) :
  snd (fold_left (Definitions.applyUpgrade definition) l stats)
  = fold_left (fun c t => (c + Spec.upgradeCostAt definition t)%Z) l (snd stats).
Proof.
  revert stats; induction l as [|t l IH]; intros stats; simpl; [reflexivity|].
  rewrite IH; f_equal.
  destruct stats as [[[d r] a] c]; unfold Definitions.applyUpgrade, Spec.upgradeCostAt.
  destruct (Definitions.findUpgrade definition t); simpl; lia.
Qed.

Lemma calculateTowerStats_cost (k : string) (definition : TowerDefinition) (tier : Z) :
  lookup k Definitions.TOWER_DEFINITIONS = Some definition ->
  exists stats,
    Definitions.calculateTowerStats k tier = Ok stats
    /\ Definitions.ts_cost stats
       = fold_left (fun c t => (c + Spec.upgradeCostAt definition t)%Z)
                   (Js.range 2 tier) (td_baseCost definition).
Proof.
  intros H; unfold Definitions.calculateTowerStats; rewrite H.
  pose proof (applyUpgrade_cost definition (Js.range 2 tier)
                (td_damage definition, td_range definition,
                 td_attackRate definition, td_baseCost definition)) as Hc.
  destruct (fold_left _ _ _) as [[[d r] a] c]; simpl in Hc.
  eexists; split; [reflexivity|exact Hc].
Qed.

Lemma calculateTowerStats_total (T : TowerType) (tier : Z) :
  exists stats, Definitions.calculateTowerStats (towerTypeKey T) tier = Ok stats.
Proof.
  destruct (towerType_defined T) as (definition & H & _).
  destruct (calculateTowerStats_cost _ _ tier H) as (stats & Hs & _); eauto.
Qed.

Lemma calculateUpgradeCost_next (k : string) (definition : TowerDefinition) (t : Z) :
  lookup k Definitions.TOWER_DEFINITIONS = Some definition ->
  Definitions.calculateUpgradeCost k (t - 1) t = Spec.upgradeCostAt definition t.
Proof.
  intros H; unfold Definitions.calculateUpgradeCost, Spec.upgradeCostAt; rewrite H.
  replace (t - 1 >=? t)%Z with false by lia; reflexivity.
Qed.

Lemma stepCosts_agree (k : string) (definition : TowerDefinition) (l : list Z) (c : Z) :
  lookup k Definitions.TOWER_DEFINITIONS = Some definition ->
  fold_left (fun totalCost tier =>
               (totalCost + Definitions.calculateUpgradeCost k (tier - 1) tier)%Z) l c
  = fold_left (fun c t => (c + Spec.upgradeCostAt definition t)%Z) l c.
Proof.
  intros H; revert c; induction l as [|t l IH]; intros c; simpl; [reflexivity|].
  now rewrite IH, (calculateUpgradeCost_next k definition t H).
Qed.

Lemma fold_zero_costs (definition : TowerDefinition) (l : list Z) (c : Z) :
  (forall t, In t l -> Spec.upgradeCostAt definition t = 0%Z) ->
  fold_left (fun c t => (c + Spec.upgradeCostAt definition t)%Z) l c = c.
Proof.
  revert c; induction l as [|t l IH]; intros c H; simpl; [reflexivity|].
  rewrite (H t (or_introl eq_refl)), Z.add_0_r.
  apply IH; intros u Hu; apply H; now right.
Qed.

(** The loop of the store's [calculateSellValue] adds up exactly the
    upgrade records whose tier does not exceed the tower's. *)
Lemma loop_is_totalInvestment (tower : PlacedTower) (definition : TowerDefinition) :
  lookup (towerTypeKey (pt_type tower)) Definitions.TOWER_DEFINITIONS = Some definition ->
  fold_left (fun c t => (c + Spec.upgradeCostAt definition t)%Z)
            (Js.range 2 (pt_tier tower)) (td_baseCost definition)
  = Spec.totalInvestment tower.
Proof.
  intros H; unfold Spec.totalInvestment; rewrite H.
  assert (Hhigh : forall t, (4 <= t)%Z -> Spec.upgradeCostAt definition t = 0%Z).
  { intros t Ht; destruct (pt_type tower); simpl in H; injection H as <-;
      unfold Spec.upgradeCostAt, Definitions.findUpgrade; cbn -[Z.eqb];
      destruct (Z.eqb_spec 2 t); try lia;
      destruct (Z.eqb_spec 3 t); try lia; reflexivity. }
  destruct (Z_lt_le_dec (pt_tier tower) 2) as [Hlt|Hge2].
  { rewrite range_empty by lia.
    destruct (pt_type tower); simpl in H; injection H as <-; cbn -[Z.leb Z.add];
      destruct (Z.leb_spec 2 (pt_tier tower)); try lia;
      destruct (Z.leb_spec 3 (pt_tier tower)); try lia; cbn; lia. }
  rewrite range_cons by lia.
  destruct (Z_lt_le_dec (pt_tier tower) 3) as [Hlt3|Hge3].
  { rewrite range_empty by lia.
    destruct (pt_type tower); simpl in H; injection H as <-; cbn -[Z.leb Z.add];
      destruct (Z.leb_spec 2 (pt_tier tower)); try lia;
      destruct (Z.leb_spec 3 (pt_tier tower)); try lia; cbn; lia. }
  rewrite range_cons by lia.
  cbn [fold_left].
  rewrite fold_zero_costs
    by (intros t Ht; apply range_In in Ht; apply Hhigh; lia).
  destruct (pt_type tower); simpl in H; injection H as <-; cbn -[Z.leb Z.add];
    destruct (Z.leb_spec 2 (pt_tier tower)); try lia;
    destruct (Z.leb_spec 3 (pt_tier tower)); try lia; cbn; lia.
Qed.

Lemma store_calculateSellValue_spec (tower : PlacedTower) :
  Store.calculateSellValue tower
  = Ok (Binary64.floor_times_0_7 (Spec.totalInvestment tower)).
Proof.
  destruct (towerType_defined (pt_type tower)) as (definition & H & _).
  unfold Store.calculateSellValue; rewrite H; simpl.
  now rewrite (stepCosts_agree _ definition _ _ H), loop_is_totalInvestment.
Qed.

(** Refunds computed in binary64 for the nine tower/tier combinations;
    [90 * 0.7] and [170 * 0.7] round below the integer. *)
Example refund_table :
  map Binary64.floor_times_0_7 [25; 55; 115; 50; 125; 245; 40; 90; 170]%Z
  = [17; 38; 80; 35; 87; 171; 28; 62; 118]%Z.
Proof. vm_compute. reflexivity. Qed.

(** The same totals in exact arithmetic, for comparison. *)
Example refund_table_exact :
  map (fun n => (7 * n / 10)%Z) [25; 55; 115; 50; 125; 245; 40; 90; 170]%Z
  = [17; 38; 80; 35; 87; 171; 28; 63; 119]%Z.
Proof. reflexivity. Qed.

Example lit_0_7_is_7_over_10 :
  Binary64.div (Binary64.of_Z 7) (Binary64.of_Z 10) = Binary64.lit_0_7.
Proof. vm_compute. reflexivity. Qed.

(** C10. The store's [calculateSellValue] and the catalog's
    [calculateSellValue] return the same integer for every tower: both
    floor 0.7 times the same total, base cost plus the upgrade costs up
    to the tower's tier.  In particular this holds for the types arrow,
    cannon, frost and the tiers 1, 2, 3. *)
Theorem C10_sell_values_agree (tower : PlacedTower) :
  exists v : Z,
    Store.calculateSellValue tower = Ok v
    /\ Definitions.calculateSellValue (towerTypeKey (pt_type tower)) (pt_tier tower)
       = Ok v.
Proof.
  destruct (towerType_defined (pt_type tower)) as (definition & H & _).
  exists (Binary64.floor_times_0_7 (Spec.totalInvestment tower)); split.
  - apply store_calculateSellValue_spec.
  - unfold Definitions.calculateSellValue.
    destruct (calculateTowerStats_cost _ _ (pt_tier tower) H) as (stats & -> & Hc).
    simpl; now rewrite Hc, loop_is_totalInvestment.
Qed.

Lemma inherited_member {T : Type} (k : string) (d : Dict T) :
  In k objectPrototypeKeys -> lookup k d = None -> member k d = Inherited.
Proof.
  intros Hin Hnone; unfold member; rewrite Hnone.
  replace (existsb (String.eqb k) objectPrototypeKeys) with true; [reflexivity|].
  symmetry; apply existsb_exists; exists k; split; [exact Hin|apply String.eqb_refl].
Qed.

Lemma absent_member {T : Type} (k : string) (d : Dict T) :
  ~ In k objectPrototypeKeys -> ~ In k (keys d) -> member k d = Absent.
Proof.
  intros Hproto Hkeys; unfold member; rewrite (lookup_not_in _ _ Hkeys).
  destruct (existsb (String.eqb k) objectPrototypeKeys) eqn:Hex; [|reflexivity].
  apply existsb_exists in Hex as (k' & Hin & Heq).
  apply String.eqb_eq in Heq; subst k'; contradiction.
Qed.

(** No key of the two tables is a member of [Object.prototype]. *)
Lemma inherited_not_own (k : string) :
  In k objectPrototypeKeys ->
  lookup k Definitions.TOWER_DEFINITIONS = None
  /\ lookup k Definitions.MOB_DEFINITIONS = None.
Proof.
  unfold objectPrototypeKeys; cbn [In].
  intros H; repeat (destruct H as [<-|H]; [split; reflexivity|]); destruct H.
Qed.

(** On every key [Object.prototype] does not answer to, the functions on
    strings are the functions modelled on the tables' own keys. *)
Lemma untyped_agrees (k : string) :
  ~ In k objectPrototypeKeys ->
  (forall tier,
      Definitions.Untyped.calculateTowerStats k tier
      = Definitions.Untyped.ofResult (Definitions.calculateTowerStats k tier))
  /\ (forall n,
        Definitions.Untyped.calculateMobStats k n
        = Definitions.Untyped.ofResult (Definitions.calculateMobStats k n))
  /\ (forall a b,
        Definitions.Untyped.calculateUpgradeCost k a b
        = Definitions.Untyped.Returns (Definitions.calculateUpgradeCost k a b)).
Proof.
  intros Hproto.
  assert (Hex : existsb (String.eqb k) objectPrototypeKeys = false).
  { destruct (existsb (String.eqb k) objectPrototypeKeys) eqn:Hex; [|reflexivity].
    apply existsb_exists in Hex as (k' & Hin & Heq).
    apply String.eqb_eq in Heq; subst k'; contradiction. }
  split; [|split].
  - intros tier; unfold Definitions.Untyped.calculateTowerStats, member.
    destruct (lookup k Definitions.TOWER_DEFINITIONS) eqn:Hl; [reflexivity|].
    rewrite Hex; unfold Definitions.calculateTowerStats; now rewrite Hl.
  - intros n; unfold Definitions.Untyped.calculateMobStats, member.
    destruct (lookup k Definitions.MOB_DEFINITIONS) eqn:Hl; [reflexivity|].
    rewrite Hex; unfold Definitions.calculateMobStats; now rewrite Hl.
  - intros a b; unfold Definitions.Untyped.calculateUpgradeCost, member.
    destruct (lookup k Definitions.TOWER_DEFINITIONS) eqn:Hl; [reflexivity|].
    rewrite Hex; unfold Definitions.calculateUpgradeCost; now rewrite Hl.
Qed.

Lemma typed_keys_not_inherited :
  (forall T, ~ In (towerTypeKey T) objectPrototypeKeys)
  /\ (forall T, ~ In (mobTypeKey T) objectPrototypeKeys).
Proof.
  split; intros T; destruct T; cbn;
    intros H; repeat (destruct H as [H|H]; [discriminate H|]); exact H.
Qed.

(** C9. Type strings outside the tables.  For a string that is a member
    of [Object.prototype] ([constructor], [toString], ...) the guard
    [if (!definition)] does not fire: [calculateTowerStats] returns an
    object of undefined members for a tier below 2 and throws a
    [TypeError] from tier 2 on, [calculateMobStats] returns an object of
    [NaN] members, and [calculateUpgradeCost] throws a [TypeError] when
    [fromTier < toTier].  For every other string that is not a key of the
    table, [calculateTowerStats] and [calculateMobStats] throw their
    unknown-type error and [calculateUpgradeCost] returns 0.  For every
    string [calculateUpgradeCost] returns 0 when [fromTier >= toTier];
    for a known type, [fromTier < toTier] and a target tier 2 or 3 it
    returns the cost of the upgrade record whose tier is [toTier]. *)
Theorem C9_unknown_types (k : string) :
  (In k objectPrototypeKeys ->
   (forall tier, (tier < 2)%Z ->
      Definitions.Untyped.calculateTowerStats k tier
      = Definitions.Untyped.ReturnsNaN)
   /\ (forall tier, (2 <= tier)%Z ->
         Definitions.Untyped.calculateTowerStats k tier
         = Definitions.Untyped.Raises TypeError)
   /\ (forall waveNumber,
         Definitions.Untyped.calculateMobStats k waveNumber
         = Definitions.Untyped.ReturnsNaN)
   /\ (forall fromTier toTier, (fromTier < toTier)%Z ->
         Definitions.Untyped.calculateUpgradeCost k fromTier toTier
         = Definitions.Untyped.Raises TypeError))
  /\ (~ In k objectPrototypeKeys ->
      ~ In k (keys Definitions.TOWER_DEFINITIONS) ->
      forall tier,
        Definitions.Untyped.calculateTowerStats k tier
        = Definitions.Untyped.Raises
            (Error (String.append "Unknown tower type: " k)))
  /\ (~ In k objectPrototypeKeys ->
      ~ In k (keys Definitions.MOB_DEFINITIONS) ->
      forall waveNumber,
        Definitions.Untyped.calculateMobStats k waveNumber
        = Definitions.Untyped.Raises
            (Error (String.append "Unknown mob type: " k)))
  /\ (~ In k objectPrototypeKeys ->
      ~ In k (keys Definitions.TOWER_DEFINITIONS) ->
      forall fromTier toTier,
        Definitions.Untyped.calculateUpgradeCost k fromTier toTier
        = Definitions.Untyped.Returns 0%Z)
  /\ (forall fromTier toTier,
        (fromTier >= toTier)%Z ->
        Definitions.Untyped.calculateUpgradeCost k fromTier toTier
        = Definitions.Untyped.Returns 0%Z)
  /\ (forall definition fromTier toTier,
        lookup k Definitions.TOWER_DEFINITIONS = Some definition ->
        (fromTier < toTier)%Z -> toTier = 2%Z \/ toTier = 3%Z ->
        exists upgrade,
          In upgrade (td_upgrades definition)
          /\ up_tier upgrade = toTier
          /\ Definitions.Untyped.calculateUpgradeCost k fromTier toTier
             = Definitions.Untyped.Returns (up_cost upgrade)).
Proof.
  split; [|split; [|split; [|split; [|split]]]].
  - intros Hin; destruct (inherited_not_own k Hin) as [Ht Hm].
    unfold Definitions.Untyped.calculateTowerStats,
      Definitions.Untyped.calculateMobStats,
      Definitions.Untyped.calculateUpgradeCost.
    rewrite (inherited_member k _ Hin Ht), (inherited_member k _ Hin Hm).
    split; [|split; [|split]].
    + intros tier H; destruct (Z.leb_spec 2 tier); [lia|reflexivity].
    + intros tier H; destruct (Z.leb_spec 2 tier); [reflexivity|lia].
    + reflexivity.
    + intros a b H; destruct (Z.geb_spec a b); [lia|reflexivity].
  - intros Hp Hk tier; unfold Definitions.Untyped.calculateTowerStats.
    now rewrite (absent_member k _ Hp Hk).
  - intros Hp Hk n; unfold Definitions.Untyped.calculateMobStats.
    now rewrite (absent_member k _ Hp Hk).
  - intros Hp Hk a b; unfold Definitions.Untyped.calculateUpgradeCost.
    now rewrite (absent_member k _ Hp Hk).
  - intros a b H; unfold Definitions.Untyped.calculateUpgradeCost, member.
    destruct (lookup k Definitions.TOWER_DEFINITIONS) eqn:Hl.
    + unfold Definitions.calculateUpgradeCost; rewrite Hl.
      replace (a >=? b)%Z with true by lia; reflexivity.
    + destruct (existsb _ _); [|reflexivity].
      replace (a >=? b)%Z with true by lia; reflexivity.
  - intros definition f t H Hlt Ht.
    unfold Definitions.Untyped.calculateUpgradeCost, member; rewrite H.
    unfold Definitions.calculateUpgradeCost; rewrite H.
    replace (f >=? t)%Z with false by lia.
    destruct (Definitions.findUpgrade definition t) as [u|] eqn:Hu.
    + apply find_some in Hu; destruct Hu as [Hin Heq].
      exists u; repeat split; [exact Hin|lia].
    + exfalso; revert Hu; unfold Definitions.findUpgrade.
      simpl in H.
      repeat match type of H with
             | (if ?b then _ else _) = _ => destruct b
             end; try discriminate; injection H as <-;
        destruct Ht as [-> | ->]; discriminate.
Qed.

Lemma C9_unknown_types_witness :
  Definitions.Untyped.calculateTowerStats "constructor" 1
  = Definitions.Untyped.ReturnsNaN
  /\ Definitions.Untyped.calculateTowerStats "constructor" 2
     = Definitions.Untyped.Raises TypeError
  /\ Definitions.Untyped.calculateMobStats "toString" 3
     = Definitions.Untyped.ReturnsNaN
  /\ Definitions.Untyped.calculateUpgradeCost "constructor" 1 2
     = Definitions.Untyped.Raises TypeError
  /\ Definitions.Untyped.calculateTowerStats "laser" 1
     = Definitions.Untyped.Raises (Error "Unknown tower type: laser")
  /\ Definitions.Untyped.calculateMobStats "dragon" 3
     = Definitions.Untyped.Raises (Error "Unknown mob type: dragon")
  /\ Definitions.Untyped.calculateUpgradeCost "laser" 1 2
     = Definitions.Untyped.Returns 0%Z
  /\ Definitions.Untyped.calculateUpgradeCost "arrow" 2 2
     = Definitions.Untyped.Returns 0%Z
  /\ Definitions.Untyped.calculateUpgradeCost "frost" 2 3
     = Definitions.Untyped.Returns 80%Z.
Proof.
  assert (Hc : In "constructor" objectPrototypeKeys) by (left; reflexivity).
  assert (Hs : In "toString" objectPrototypeKeys)
    by (do 5 right; left; reflexivity).
  assert (Hlp : ~ In "laser" objectPrototypeKeys)
    by (cbn; intros H; repeat (destruct H as [H|H]; [discriminate H|]); exact H).
  assert (Hdp : ~ In "dragon" objectPrototypeKeys)
    by (cbn; intros H; repeat (destruct H as [H|H]; [discriminate H|]); exact H).
  assert (Hl : ~ In "laser" (keys Definitions.TOWER_DEFINITIONS))
    by (simpl; intros [H|[H|[H|[]]]]; discriminate).
  assert (Hd : ~ In "dragon" (keys Definitions.MOB_DEFINITIONS))
    by (simpl; intros [H|[H|[H|[H|[]]]]]; discriminate).
  destruct (C9_unknown_types "constructor") as (Hinh & _).
  destruct (Hinh Hc) as (Hlow & Hhigh & _ & Hcost).
  destruct (C9_unknown_types "toString") as (Hinh' & _).
  destruct (Hinh' Hs) as (_ & _ & Hmob & _).
  destruct (C9_unknown_types "laser") as (_ & Hlt & _ & Hlc & _).
  destruct (C9_unknown_types "dragon") as (_ & _ & Hdm & _).
  destruct (C9_unknown_types "arrow") as (_ & _ & _ & _ & Hge & _).
  destruct (C9_unknown_types "frost") as (_ & _ & _ & _ & _ & Hrec).
  split; [apply Hlow; lia|].
  split; [apply Hhigh; lia|].
  split; [apply Hmob|].
  split; [apply Hcost; lia|].
  split; [exact (Hlt Hlp Hl 1%Z)|].
  split; [exact (Hdm Hdp Hd 3%Z)|].
  split; [exact (Hlc Hlp Hl 1%Z 2%Z)|].
  split; [apply Hge; lia|].
  destruct (Hrec _ 2%Z 3%Z eq_refl ltac:(lia) (or_intror eq_refl))
    as (u & Hin & Hu & Hcu).
  rewrite Hcu; f_equal.
  cbn in Hin; destruct Hin as [<-|[<-|[]]]; [discriminate Hu|reflexivity].
Defined.

Lemma pow_integral (x : R) (n : Z) :
  (0 <= n)%Z -> Js.pow x n = (x ^ Z.to_nat n)%R.
Proof.
  intros H; unfold Js.pow.
  now rewrite pow_powerRZ, Z2Nat.id.
Qed.

(** Every entry of the mob table has an integral base hit-point value and
    a speed multiplier that is absent or non-zero. *)
Lemma mob_table_facts (k : string) (definition : MobDefinition) :
  lookup k Definitions.MOB_DEFINITIONS = Some definition ->
  (exists z : Z, md_baseHp definition = IZR z)
  /\ Js.or_else (md_speedMultiplier definition) 1
     = Spec.defaultOne (md_speedMultiplier definition).
Proof.
  intros H; simpl in H.
  repeat match type of H with
         | (if ?b then _ else _) = _ => destruct b
         end; try discriminate; injection H as <-; simpl;
    (split; [eexists; reflexivity|]);
    try reflexivity; apply or_else_nonzero; lra.
Qed.

(** C6. For a known mob type and a wave number [n >= 1],
    [calculateMobStats] returns [hp = floor(baseHp * hpMultiplier^(n-1))]
    and [speed = baseSpeed * m^(n-1)], where [m] is the speed multiplier
    or 1 when the definition has none; armor and bounty are those of the
    definition; for [n = 1] hp and speed are the base values. *)
Theorem C6_mob_stats (k : string) (definition : MobDefinition) (n : Z) :
  lookup k Definitions.MOB_DEFINITIONS = Some definition ->
  (1 <= n)%Z ->
  exists stats,
    Definitions.calculateMobStats k n = Ok stats
    /\ Definitions.ms_hp stats
       = IZR (Zfloor (md_baseHp definition
                      * md_hpMultiplier definition ^ Z.to_nat (n - 1)))%R
    /\ Definitions.ms_speed stats
       = (md_baseSpeed definition
          * Spec.defaultOne (md_speedMultiplier definition) ^ Z.to_nat (n - 1))%R
    /\ Definitions.ms_armor stats = md_armor definition
    /\ Definitions.ms_bounty stats = md_bounty definition
    /\ (n = 1%Z ->
        Definitions.ms_hp stats = md_baseHp definition
        /\ Definitions.ms_speed stats = md_baseSpeed definition).
Proof.
  intros H Hn.
  destruct (mob_table_facts k definition H) as [[z Hz] Hm].
  unfold Definitions.calculateMobStats; rewrite H.
  eexists; split; [reflexivity|]; simpl.
  rewrite !pow_integral by lia; rewrite Hm.
  do 4 (split; [reflexivity|]).
  intros ->; simpl; rewrite !Rmult_1_r; split; [|reflexivity].
  unfold Js.floor; now rewrite Hz, ZfloorZ.
Qed.

Lemma C6_mob_stats_witness :
  exists stats,
    Definitions.calculateMobStats "fast" 1 = Ok stats
    /\ Definitions.ms_hp stats = 25%R
    /\ Definitions.ms_speed stats = 2.8%R
    /\ Definitions.ms_bounty stats = 8%Z.
Proof.
  destruct (C6_mob_stats "fast" _ 1%Z eq_refl ltac:(lia))
    as (stats & Hs & _ & _ & _ & Hb & H1).
  destruct (H1 eq_refl) as [Hhp Hsp].
  exists stats; repeat split; assumption.
Defined.

(** ** The store's mutation entry points *)

(** The refund the code pays against seventy percent of the investment
    in exact arithmetic, for every tower type and every tier field. *)
Lemma refund_against_exact (tower : PlacedTower) :
  Binary64.floor_times_0_7 (Spec.totalInvestment tower)
  = (Spec.seventyPercentFloor (Spec.totalInvestment tower)
     - Spec.roundingLoss tower)%Z.
Proof.
  unfold Spec.totalInvestment, Spec.roundingLoss, Spec.seventyPercentFloor.
  destruct (pt_type tower);
    cbn -[Z.leb Z.add Z.sub Binary64.floor_times_0_7 Zfloor IZR Rmult];
    destruct (Z.leb_spec 2 (pt_tier tower));
    destruct (Z.leb_spec 3 (pt_tier tower)); try lia;
    cbn -[Binary64.floor_times_0_7 Zfloor IZR Rmult Z.sub];
    first [ rewrite (Zfloor_eq 17) by (cbn; lra)
          | rewrite (Zfloor_eq 38) by (cbn; lra)
          | rewrite (Zfloor_eq 80) by (cbn; lra)
          | rewrite (Zfloor_eq 35) by (cbn; lra)
          | rewrite (Zfloor_eq 87) by (cbn; lra)
          | rewrite (Zfloor_eq 171) by (cbn; lra)
          | rewrite (Zfloor_eq 28) by (cbn; lra)
          | rewrite (Zfloor_eq 63) by (cbn; lra)
          | rewrite (Zfloor_eq 119) by (cbn; lra) ];
    vm_compute; reflexivity.
Qed.

(** C1. Money at the store's mutation entry points.  A rejected
    [buildTower] (insufficient funds or [canBuildAt] false), a rejected
    [upgradeTower] (unknown id, tier already 3 or more, insufficient
    funds) and a rejected [sellTower] (unknown id) return the store
    unchanged, so money is unchanged.  An accepted [buildTower] of type
    [T] lowers money by exactly [calculateTowerStats(T, 1).cost].  An
    accepted [sellTower] raises money by the floor of the binary64
    product [totalInvestment * 0.7]; against [floor(totalInvestment * 0.7)]
    in exact arithmetic this is one unit short for a frost tower of tier
    2 or more, and equal for every other tower. *)
Theorem C1_money_conservation (state : Store.GameStore) :
  (forall newId coord T,
      exists stats,
        Definitions.calculateTowerStats (towerTypeKey T) 1 = Ok stats
        /\ ((money (Store.game state) < Definitions.ts_cost stats)%Z ->
            Store.buildTower newId state coord T = Ok state)
        /\ ((Definitions.ts_cost stats <= money (Store.game state))%Z ->
            Store.canBuildAt state coord = Ok false ->
            Store.buildTower newId state coord T = Ok state)
        /\ ((Definitions.ts_cost stats <= money (Store.game state))%Z ->
            Store.canBuildAt state coord = Ok true ->
            exists state',
              Store.buildTower newId state coord T = Ok state'
              /\ money (Store.game state')
                 = (money (Store.game state) - Definitions.ts_cost stats)%Z))
  /\ (forall towerId,
        (Store.getTowerById state towerId = None ->
         Store.upgradeTower state towerId = state)
        /\ (forall tower,
              Store.getTowerById state towerId = Some tower ->
              (3 <= pt_tier tower)%Z
              \/ (money (Store.game state)
                  < Definitions.calculateUpgradeCost
                      (towerTypeKey (pt_type tower))
                      (pt_tier tower) (pt_tier tower + 1))%Z ->
              Store.upgradeTower state towerId = state))
  /\ (forall towerId,
        (Store.getTowerById state towerId = None ->
         Store.sellTower state towerId = Ok state)
        /\ (forall tower,
              Store.getTowerById state towerId = Some tower ->
              exists state',
                Store.sellTower state towerId = Ok state'
                /\ money (Store.game state')
                   = (money (Store.game state)
                      + Binary64.floor_times_0_7 (Spec.totalInvestment tower))%Z
                /\ money (Store.game state')
                   = (money (Store.game state)
                      + Spec.seventyPercentFloor (Spec.totalInvestment tower)
                      - Spec.roundingLoss tower)%Z)).
Proof.
  repeat split.
  - intros newId coord T.
    destruct (calculateTowerStats_total T 1) as (stats & Hs).
    exists stats; split; [exact Hs|]; unfold Store.buildTower; rewrite Hs; simpl.
    repeat split.
    + intros Hlt; now replace (money (Store.game state) <? _)%Z with true by lia.
    + intros Hge Hc.
      replace (money (Store.game state) <? _)%Z with false by lia.
      now rewrite Hc.
    + intros Hge Hc.
      replace (money (Store.game state) <? _)%Z with false by lia.
      rewrite Hc; simpl; eexists; split; reflexivity.
  - intros H; unfold Store.upgradeTower; now rewrite H.
  - intros tower H [Htier|Hmoney]; unfold Store.upgradeTower; rewrite H.
    + now replace (pt_tier tower >=? 3)%Z with true by lia.
    + destruct (pt_tier tower >=? 3)%Z; [reflexivity|].
      destruct (pt_tier tower + 1 >? 3)%Z; [reflexivity|].
      now replace (money (Store.game state) <? _)%Z with true by lia.
  - intros H; unfold Store.sellTower; now rewrite H.
  - intros tower H; unfold Store.sellTower; rewrite H.
    rewrite store_calculateSellValue_spec.
    cbn -[Binary64.floor_times_0_7 Z.add Z.sub].
    eexists; split; [reflexivity|]; split; [reflexivity|].
    cbn [Store.game Store.withTowersMoney money].
    rewrite refund_against_exact; lia.
Qed.

Lemma C1_money_conservation_witness :
  (exists state',
      Store.buildTower "t2" Examples.store {| gx := 0; gy := 0 |} Arrow = Ok state'
      /\ money (Store.game state') = 75%Z)
  /\ Store.upgradeTower Examples.store "nobody" = Examples.store
  /\ (exists state',
        Store.sellTower Examples.store "t1" = Ok state'
        /\ money (Store.game state') = 162%Z
        /\ (money (Store.game Examples.store)
            + Spec.seventyPercentFloor 90 = 163)%Z).
Proof.
  pose proof (C1_money_conservation Examples.store) as (Hbuild & Hup & Hsell).
  split; [|split].
  - destruct (Hbuild "t2" {| gx := 0; gy := 0 |} Arrow) as (stats & Hs & _ & _ & Hacc).
    assert (Hcost : Definitions.ts_cost stats = 25%Z).
    { unfold Definitions.calculateTowerStats in Hs; simpl in Hs.
      injection Hs as <-; reflexivity. }
    rewrite Hcost in Hacc.
    destruct (Hacc ltac:(simpl; lia) eq_refl) as (state' & Hb & Hm).
    exists state'; split; [exact Hb|exact Hm].
  - exact (proj1 (Hup "nobody") eq_refl).
  - destruct (proj2 (Hsell "t1") Examples.frostTower eq_refl)
      as (state' & Hs & Hm & Hexact).
    assert (H162 : money (Store.game state') = 162%Z) by exact Hm.
    exists state'; split; [exact Hs|]; split; [exact H162|].
    rewrite H162 in Hexact.
    change (Spec.totalInvestment Examples.frostTower) with 90%Z in Hexact.
    change (Spec.roundingLoss Examples.frostTower) with 1%Z in Hexact.
    lia.
Defined.

(** ** Status effects *)

(** The slow multiplier a mob already carries, as [applySlow] reads it:
    an absent or zero multiplier counts as 1 (no slow). *)
Lemma existing_multiplier_nonzero (o : option R) : Js.or_else o 1 <> 0%R.
Proof.
  destruct o as [v|]; simpl; [|lra].
  destruct (Req_dec_T v 0) as [->|Hv].
  - rewrite (proj2 (eqb_true_iff 0 0) eq_refl); lra.
  - now rewrite (proj2 (eqb_false_iff v 0) Hv).
Qed.

Lemma or_else_zero_default (o : option R) :
  Js.or_else o 0 = match o with Some v => v | None => 0%R end.
Proof.
  destruct o as [v|]; simpl; [|reflexivity].
  destruct (Req_dec_T v 0) as [->|Hv].
  - now rewrite (proj2 (eqb_true_iff 0 0) eq_refl).
  - now rewrite (proj2 (eqb_false_iff v 0) Hv).
Qed.

Lemma Rmin_nonzero (a b : R) : a <> 0%R -> b <> 0%R -> Rmin a b <> 0%R.
Proof. intros Ha Hb; unfold Rmin; destruct (Rle_dec a b); assumption. Qed.

(** C8, counterexample.  A mob whose existing multiplier is 0 and a slow
    of multiplier 0.5: the result carries 0.5, not [min(0, 0.5) = 0]. *)
Lemma C8_counterexample :
  slowMultiplier (mob_status Examples.frozenMob) = Some 0%R
  /\ slowMultiplier (mob_status (Effects.applySlow Examples.frozenMob 0.5 3 0))
     = Some 0.5%R
  /\ slowMultiplier (mob_status (Effects.applySlow Examples.frozenMob 0.5 3 0))
     <> Some (Rmin 0 0.5).
Proof.
  assert (H : slowMultiplier
                (mob_status (Effects.applySlow Examples.frozenMob 0.5 3 0))
              = Some 0.5%R).
  { unfold Effects.applySlow; simpl.
    rewrite (proj2 (eqb_true_iff 0 0) eq_refl).
    f_equal; apply Rmin_left; lra. }
  split; [reflexivity|split; [exact H|]].
  rewrite H, Rmin_left by lra.
  intros Heq; injection Heq; lra.
Qed.

(** C8, amended.  [applySlow(mob, m, d, now)] returns a mob whose
    [slowUntil] is [max(u, now + d)], where [u] is the existing
    [slowUntil] or 0 when there is none, so an existing expiry is never
    shortened; whose [slowMultiplier] is [min(m, k)], where [k] is the
    existing multiplier, or 1 when it is absent or zero; every other field
    is unchanged; and two slows with non-zero multipliers give the same
    mob in either order. *)
Theorem C8_applySlow (mob : Mob) (m d now : R) :
  let slowed := Effects.applySlow mob m d now in
  let u := match slowUntil (mob_status mob) with Some v => v | None => 0%R end in
  let k := match slowMultiplier (mob_status mob) with
           | Some v => if Req_dec_T v 0 then 1%R else v
           | None => 1%R
           end in
  slowUntil (mob_status slowed) = Some (Rmax u (now + d))
  /\ (forall v, slowUntil (mob_status mob) = Some v ->
        exists v', slowUntil (mob_status slowed) = Some v' /\ (v <= v')%R)
  /\ slowMultiplier (mob_status slowed) = Some (Rmin m k)
  /\ (forall v, slowMultiplier (mob_status slowed) = Some v -> (v <= m)%R /\ (v <= k)%R)
  /\ (mob_id slowed = mob_id mob /\ mob_pos slowed = mob_pos mob
      /\ mob_hp slowed = mob_hp mob /\ mob_maxHp slowed = mob_maxHp mob
      /\ mob_speed slowed = mob_speed mob /\ mob_armor slowed = mob_armor mob
      /\ mob_type slowed = mob_type mob /\ mob_bounty slowed = mob_bounty mob
      /\ mob_pathProgress slowed = mob_pathProgress mob
      /\ mob_reachedEnd slowed = mob_reachedEnd mob)
  /\ (forall m' d' now',
        m <> 0%R -> m' <> 0%R ->
        Effects.applySlow (Effects.applySlow mob m d now) m' d' now'
        = Effects.applySlow (Effects.applySlow mob m' d' now') m d now).
Proof.
  intros slowed u k.
  assert (Hk : Js.or_else (slowMultiplier (mob_status mob)) 1 = k).
  { subst k; destruct (slowMultiplier (mob_status mob)) as [v|]; simpl; [|reflexivity].
    unfold Js.eqb; destruct (Req_dec_T v 0); reflexivity. }
  assert (Hu : Js.or_else (slowUntil (mob_status mob)) 0 = u)
    by apply or_else_zero_default.
  assert (Hsu : slowUntil (mob_status slowed) = Some (Rmax u (now + d)))
    by (subst slowed; unfold Effects.applySlow; simpl; now rewrite Hu).
  assert (Hsm : slowMultiplier (mob_status slowed) = Some (Rmin m k))
    by (subst slowed; unfold Effects.applySlow; simpl; now rewrite Hk).
  split; [exact Hsu|].
  split.
  { intros v Hv; exists (Rmax u (now + d)); split; [exact Hsu|].
    subst u; rewrite Hv; apply Rmax_l. }
  split; [exact Hsm|].
  split.
  { intros v Hv; rewrite Hsm in Hv; injection Hv as <-.
    split; [apply Rmin_l|apply Rmin_r]. }
  split; [subst slowed; unfold Effects.applySlow; simpl; repeat split|].
  intros m' d' now' Hm Hm'.
  pose proof (existing_multiplier_nonzero (slowMultiplier (mob_status mob))) as Hnz.
  rewrite Hk in Hnz.
  unfold Effects.applySlow; cbn -[Js.or_else]; rewrite Hk, Hu.
  rewrite !or_else_zero_default.
  rewrite !or_else_nonzero by (apply Rmin_nonzero; assumption).
  unfold Effects.withStatus; cbn; f_equal; f_equal; f_equal.
  - rewrite <- !Rmax_assoc; f_equal; apply Rmax_comm.
  - rewrite !Rmin_assoc; f_equal; apply Rmin_comm.
Qed.

Lemma C8_applySlow_witness :
  Effects.applySlow
    (Effects.applySlow (Examples.goblin "m1" 0.5 Examples.noStatus) 0.5 3 1) 0.8 3 2
  = Effects.applySlow
      (Effects.applySlow (Examples.goblin "m1" 0.5 Examples.noStatus) 0.8 3 2) 0.5 3 1.
Proof.
  apply (C8_applySlow (Examples.goblin "m1" 0.5 Examples.noStatus) 0.5 3 1); lra.
Defined.

(** ** Path interpolation *)

(** C7. On a non-empty path, [getPositionOnPath] returns the world
    position of the first path tile for every progress [p <= 0] and that
    of the last path tile for every progress [p >= 1]. *)
Theorem C7_path_endpoints (first : GridCoord) (others : list GridCoord)
        (p tileSize : R) :
  let pathCoords := first :: others in
  ((p <= 0)%R ->
   Grid.getPositionOnPath pathCoords p tileSize = Grid.gridToWorld first tileSize)
  /\ ((1 <= p)%R ->
      Grid.getPositionOnPath pathCoords p tileSize
      = Grid.gridToWorld (List.last pathCoords first) tileSize).
Proof.
  intros pathCoords; subst pathCoords; split; intros Hp; unfold Grid.getPositionOnPath.
  - rewrite (proj2 (leb_true_iff p 0) Hp), orb_true_r; reflexivity.
  - destruct others as [|second rest]; [reflexivity|].
    replace (List.length (first :: second :: rest) =? 1)%nat with false by reflexivity.
    rewrite (proj2 (leb_false_iff p 0)) by lra.
    unfold Js.geb; rewrite (proj2 (leb_true_iff 1 p) Hp); reflexivity.
Qed.

Lemma C7_path_endpoints_witness :
  Grid.getPositionOnPath Examples.straightPath (-0.5) 32
  = Grid.gridToWorld {| gx := 0; gy := 5 |} 32
  /\ Grid.getPositionOnPath Examples.straightPath 1.5 32
     = Grid.gridToWorld {| gx := 2; gy := 5 |} 32.
Proof.
  split.
  - apply (C7_path_endpoints {| gx := 0; gy := 5 |}
             [ {| gx := 1; gy := 5 |}; {| gx := 2; gy := 5 |} ] (-0.5) 32); lra.
  - apply (C7_path_endpoints {| gx := 0; gy := 5 |}
             [ {| gx := 1; gy := 5 |}; {| gx := 2; gy := 5 |} ] 1.5 32); lra.
Defined.

(** ** Targeting *)

Lemma inRange_eligible (tower : Tower) (mob : Mob) :
  Targeting.inRange tower mob = true <-> Spec.eligible tower mob.
Proof.
  unfold Targeting.inRange, Spec.eligible.
  rewrite andb_true_iff, leb_true_iff, negb_true_iff; tauto.
Qed.

(** The scan of [getFirstMob] keeps the earliest mob of maximal progress:
    either the initial one survives and nothing later is strictly further,
    or the result sits in the scanned list, strictly further than
    everything before it (the initial mob included) and at least as far as
    everything after it. *)
Lemma scan_first_max (l : list Mob) (c r : Mob) :
  fold_left
    (fun closest mob =>
       if Js.gtb (mob_pathProgress mob) (mob_pathProgress closest)
       then mob else closest) l c = r ->
  (r = c /\ forall x, In x l -> (mob_pathProgress x <= mob_pathProgress c)%R)
  \/ (exists l1 l2,
         l = l1 ++ r :: l2
         /\ (mob_pathProgress c < mob_pathProgress r)%R
         /\ (forall x, In x l1 -> (mob_pathProgress x < mob_pathProgress r)%R)
         /\ (forall x, In x l2 -> (mob_pathProgress x <= mob_pathProgress r)%R)).
Proof.
  revert c; induction l as [|m l IH]; intros c H; simpl in H.
  - subst r; left; split; [reflexivity|intros x []].
  - unfold Js.gtb in H at 2.
    destruct (Js.ltb (mob_pathProgress c) (mob_pathProgress m)) eqn:Hcmp.
    + apply ltb_true_iff in Hcmp.
      destruct (IH m H) as [[Hr Hall]|(l1 & l2 & Hl & Hlt & H1 & H2)].
      * right; exists [], l; rewrite Hr; simpl.
        repeat split; [exact Hcmp|intros x []|exact Hall].
      * right; exists (m :: l1), l2; simpl.
        repeat split; [now rewrite Hl at 1| lra | |exact H2].
        intros x [<-|Hx]; [exact Hlt|now apply H1].
    + apply ltb_false_iff in Hcmp.
      destruct (IH c H) as [[Hr Hall]|(l1 & l2 & Hl & Hlt & H1 & H2)].
      * left; split; [exact Hr|].
        intros x [<-|Hx]; [exact Hcmp|now apply Hall].
      * right; exists (m :: l1), l2; simpl.
        repeat split; [now rewrite Hl at 1|exact Hlt| |exact H2].
        intros x [<-|Hx]; [lra|now apply H1].
Qed.

(** A split of a filtered list comes from a split of the list. *)
Lemma filter_split {A : Type} (f : A -> bool) (l a b : list A) (m : A) :
  filter f l = a ++ m :: b ->
  exists l1 l2, l = l1 ++ m :: l2 /\ filter f l1 = a /\ filter f l2 = b.
Proof.
  revert a; induction l as [|x l IH]; intros a H; simpl in H.
  - destruct a; discriminate.
  - destruct (f x) eqn:Hfx.
    + destruct a as [|y a]; simpl in H; injection H as Hx Hrest.
      * subst x; exists [], l; simpl; auto.
      * subst y; destruct (IH a Hrest) as (l1 & l2 & -> & H1 & H2).
        exists (x :: l1), l2; simpl; rewrite Hfx, H1; auto.
    + destruct (IH a H) as (l1 & l2 & -> & H1 & H2).
      exists (x :: l1), l2; simpl; rewrite Hfx; auto.
Qed.

(** C5. [findTarget] considers exactly the mobs within the tower's range
    that have not reached the end.  It returns none iff there is no such
    mob.  Under the strategy ['first'], which is also the default, the
    returned mob is eligible, no eligible mob has a larger [pathProgress],
    and every eligible mob before it in the list has a strictly smaller
    one: among ties the first in list order wins. *)
Theorem C5_findTarget_first (tower : Tower) (mobs : list Mob) :
  Targeting.findTarget tower mobs None = Targeting.findTarget tower mobs (Some First)
  /\ (forall strategy,
        Targeting.findTarget tower mobs strategy = None
        <-> forall mob, In mob mobs -> ~ Spec.eligible tower mob)
  /\ (forall target,
        Targeting.findTarget tower mobs (Some First) = Some target ->
        exists before after,
          mobs = before ++ target :: after
          /\ Spec.eligible tower target
          /\ (forall mob, In mob before -> Spec.eligible tower mob ->
                (mob_pathProgress mob < mob_pathProgress target)%R)
          /\ (forall mob, In mob after -> Spec.eligible tower mob ->
                (mob_pathProgress mob <= mob_pathProgress target)%R)).
Proof.
  split; [reflexivity|split].
  - intros strategy; unfold Targeting.findTarget.
    destruct (filter (Targeting.inRange tower) mobs) as [|c l] eqn:Hf; simpl.
    + split; [|reflexivity]; intros _ mob Hin Hel.
      apply inRange_eligible in Hel.
      assert (Hmem : In mob (filter (Targeting.inRange tower) mobs))
        by (apply filter_In; auto).
      now rewrite Hf in Hmem.
    + split.
      * destruct strategy as [[| | | |]|]; discriminate.
      * intros Hnone; exfalso.
        assert (Hmem : In c (filter (Targeting.inRange tower) mobs))
          by (rewrite Hf; now left).
        apply filter_In in Hmem; destruct Hmem as [Hin Hr].
        apply (Hnone c Hin); now apply inRange_eligible.
  - intros target; unfold Targeting.findTarget.
    destruct (filter (Targeting.inRange tower) mobs) as [|c l] eqn:Hf; simpl;
      [discriminate|].
    unfold Targeting.getFirstMob, Targeting.reduce.
    intros Ht; injection Ht as Ht.
    assert (Hel : forall x, In x (c :: l) -> Spec.eligible tower x).
    { intros x Hx; rewrite <- Hf in Hx; apply filter_In in Hx.
      now apply inRange_eligible. }
    assert (Hsplit : exists a b,
               c :: l = a ++ target :: b
               /\ (forall x, In x a -> (mob_pathProgress x < mob_pathProgress target)%R)
               /\ (forall x, In x b -> (mob_pathProgress x <= mob_pathProgress target)%R)).
    { destruct (scan_first_max l c target Ht) as [[-> Hall]|(l1 & l2 & -> & Hlt & H1 & H2)].
      - exists [], l; repeat split; [intros x []|exact Hall].
      - exists (c :: l1), l2; repeat split; [|exact H2].
        intros x [<-|Hx]; [exact Hlt|now apply H1]. }
    destruct Hsplit as (a & b & Hab & Ha & Hb).
    rewrite <- Hf in Hab.
    destruct (filter_split _ _ _ _ _ Hab) as (l1 & l2 & -> & H1 & H2).
    exists l1, l2; split; [reflexivity|].
    split; [apply Hel; rewrite <- Hf, Hab; apply in_elt|].
    split; intros mob Hin Helig; apply inRange_eligible in Helig.
    + apply Ha; rewrite <- H1; apply filter_In; auto.
    + apply Hb; rewrite <- H2; apply filter_In; auto.
Qed.

Lemma C5_findTarget_first_witness :
  let tower :=
    {| tower_id := "t"; tower_gridCoord := {| gx := 0; gy := 0 |};
       tower_pos := Examples.origin; tower_type := Arrow; tower_tier := 1;
       tower_range := 100; tower_damage := 15; tower_attackRate := 2.5;
       tower_projectileSpeed := Some 8%R; tower_lastAttackTime := 0;
       tower_splashRadius := None; tower_slowDuration := None;
       tower_slowAmount := None |} in
  let a := Examples.goblin "a" 0.2 Examples.noStatus in
  let b := Examples.goblin "b" 0.7 Examples.noStatus in
  let c := Examples.goblin "c" 0.7 Examples.noStatus in
  Targeting.findTarget tower [a; b; c] None = Some b
  /\ exists before after,
       [a; b; c] = before ++ b :: after
       /\ (forall mob, In mob before -> Spec.eligible tower mob ->
             (mob_pathProgress mob < mob_pathProgress b)%R).
Proof.
  intros tower a b c.
  assert (Hin : forall id p,
             Targeting.inRange tower (Examples.goblin id p Examples.noStatus) = true).
  { intros id p; apply inRange_eligible; split; [|reflexivity].
    unfold Grid.distance; simpl.
    replace ((0 - 0) * (0 - 0) + (0 - 0) * (0 - 0))%R with 0%R by lra.
    rewrite sqrt_0; lra. }
  assert (Hfind : Targeting.findTarget tower [a; b; c] (Some First) = Some b).
  { unfold Targeting.findTarget; cbn [filter].
    subst a b c; rewrite !Hin; simpl.
    unfold Js.gtb.
    rewrite (proj2 (ltb_true_iff 0.2 0.7)) by lra; simpl.
    rewrite (proj2 (ltb_false_iff 0.7 0.7)) by lra.
    reflexivity. }
  pose proof (C5_findTarget_first tower [a; b; c]) as (Hdefault & _ & Hfirst).
  split; [now rewrite Hdefault|].
  destruct (Hfirst b Hfind) as (before & after & Hsplit & _ & Hbefore & _).
  exists before, after; split; assumption.
Defined.

(** ** The tick *)

Lemma phase_eqb_eq (p q : GamePhase) : Sim.phase_eqb p q = true <-> p = q.
Proof. destruct p, q; simpl; split; intros H; congruence. Qed.

Lemma phase_eqb_neq (p q : GamePhase) : Sim.phase_eqb p q = false <-> p <> q.
Proof. destruct p, q; simpl; split; intros H; congruence. Qed.

(** *** Movement *)

Lemma updateMobEffects_reachedEnd (mob : Mob) (now : R) :
  mob_reachedEnd (Effects.updateMobEffects mob now) = mob_reachedEnd mob.
Proof.
  unfold Effects.updateMobEffects.
  destruct (slowUntil (mob_status mob)); [|reflexivity].
  destruct (_ && _); reflexivity.
Qed.

Lemma movedMob_reachedEnd (state : GameState) (dt : R) (mob : Mob) :
  mob_reachedEnd (Sim.movedMob state dt mob) = mob_reachedEnd mob.
Proof. unfold Sim.movedMob; simpl; apply updateMobEffects_reachedEnd. Qed.


Lemma updateMobs_step_snd (state : GameState) (dt : R) (acc : list Mob) (n : Z)
      (mob : Mob) :
  snd (Sim.updateMobs_step state dt (acc, n) mob)
  = (n + if Spec.crossesEnd state dt mob then 1 else 0)%Z.
Proof.
  unfold Sim.updateMobs_step, Spec.crossesEnd, Sim.justReachedEnd, Js.geb.
  destruct (Js.ltb (mob_pathProgress mob) 0); cbn [negb andb snd]; [lia|].
  rewrite movedMob_reachedEnd.
  destruct (mob_reachedEnd mob) eqn:Hflag; cbn [negb andb].
  - rewrite andb_false_r, movedMob_reachedEnd, Hflag; cbn; lia.
  - rewrite andb_true_r.
    destruct (Js.leb 1 (mob_pathProgress (Sim.movedMob state dt mob))); cbn; [lia|].
    destruct (_ && _); cbn; lia.
Qed.

(** The [livesLost] counter of the mob loop counts the mobs that cross
    the end. *)
Lemma updateMobs_step_lost (state : GameState) (dt : R) (l : list Mob)
      (acc : list Mob * Z) :
  snd (fold_left (Sim.updateMobs_step state dt) l acc)
  = (snd acc + Z.of_nat (List.length (filter (Spec.crossesEnd state dt) l)))%Z.
Proof.
  revert acc; induction l as [|mob l IH]; intros [acc n]; cbn [fold_left filter].
  - cbn; lia.
  - rewrite IH, updateMobs_step_snd.
    destruct (Spec.crossesEnd state dt mob); cbn [List.length snd]; lia.
Qed.

Lemma updateMobs_fields (state : GameState) (dt : R) :
  lives (Sim.updateMobs state dt)
  = Z.max 0 (lives state
             - Z.of_nat (List.length (filter (Spec.crossesEnd state dt) (mobs state))))
  /\ currentWaveIndex (Sim.updateMobs state dt) = currentWaveIndex state
  /\ simulationTime (Sim.updateMobs state dt) = simulationTime state
  /\ phase (Sim.updateMobs state dt) = phase state.
Proof.
  unfold Sim.updateMobs.
  pose proof (updateMobs_step_lost state dt (mobs state) ([], 0%Z)) as H.
  destruct (fold_left _ _ _) as [ms lost]; simpl in *; subst lost.
  repeat split.
Qed.

(** *** Towers and projectiles *)

Lemma foldM_total {A B : Type} (f : B -> A -> result B) (P : B -> Prop) :
  (forall b a, P b -> exists b', f b a = Ok b' /\ P b') ->
  forall l b, P b -> exists b', Sim.foldM f l b = Ok b' /\ P b'.
Proof.
  intros Hf; induction l as [|a l IH]; intros b Hb; simpl.
  - eauto.
  - destruct (Hf b a Hb) as (b1 & -> & Hb1); simpl; auto.
Qed.

Lemma updateTowers_step_total (ids : Sim.IdSource) (state : GameState)
      (acc : list PlacedTower * list Projectile) (placedTower : PlacedTower) :
  exists acc', Sim.updateTowers_step ids state acc placedTower = Ok acc'.
Proof.
  unfold Sim.updateTowers_step; destruct acc as [ts ps].
  destruct (calculateTowerStats_total (pt_type placedTower) (pt_tier placedTower))
    as (stats & ->).
  destruct (towerType_defined (pt_type placedTower)) as (definition & -> & _).
  cbn [Js.bind Js.defined].
  destruct (Targeting.canTowerAttack _ _); [|eauto].
  destruct (Targeting.findTarget _ _ _); eauto.
Qed.

Lemma updateTowers_total (ids : Sim.IdSource) (state : GameState) :
  exists ts ps,
    Sim.updateTowers ids state = Ok (Sim.withTowersProjectiles state ts ps).
Proof.
  unfold Sim.updateTowers.
  destruct (foldM_total (Sim.updateTowers_step ids state) (fun _ => True))
    with (l := towers state) (b := ([] : list PlacedTower, projectiles state))
    as (r & -> & _); [|exact I|].
  - intros b a _; destruct (updateTowers_step_total ids state b a) as (b' & ->); eauto.
  - simpl; eauto.
Qed.

Lemma updateProjectiles_shape (state : GameState) (dt : R) :
  exists ps ms gained,
    Sim.updateProjectiles state dt
    = Sim.withProjectilesMobsMoney state ps ms (money state + gained)%Z.
Proof.
  unfold Sim.updateProjectiles.
  destruct (fold_left _ _ _) as [[ps ms] gained]; eauto.
Qed.

(** *** Wave spawning *)

Lemma calculateMobStats_total (T : MobType) (n : Z) :
  exists stats, Definitions.calculateMobStats (mobTypeKey T) n = Ok stats.
Proof.
  destruct (mobType_defined T) as (definition & H & _).
  unfold Definitions.calculateMobStats; rewrite H; eauto.
Qed.

Lemma spawnMobs_total (ids : Sim.IdSource) (state : GameState) (n : Z)
      (spacing : R) (T : MobType) (count : nat) (acc : list Mob * R) :
  exists r,
    Sim.spawnMobs ids state n spacing T count acc = Ok r
    /\ List.length (fst r) = (List.length (fst acc) + count)%nat.
Proof.
  revert acc; induction count as [|count IH]; intros acc; simpl.
  - exists acc; split; [reflexivity|lia].
  - unfold Sim.spawnMob; destruct acc as [ms delay].
    destruct (calculateMobStats_total T n) as (stats & ->); cbn [Js.bind].
    match goal with
    | |- context [Sim.spawnMobs _ _ _ _ _ _ ?a] =>
        destruct (IH a) as (r & -> & Hlen)
    end.
    exists r; split; [reflexivity|].
    rewrite Hlen; cbn [fst]; rewrite length_app; simpl; lia.
Qed.

Lemma waveMobs_total (ids : Sim.IdSource) (state : GameState) (n : Z) :
  exists newMobs,
    Sim.waveMobs ids state n = Ok newMobs
    /\ List.length newMobs
       = fold_right Nat.add 0%nat (map snd (Sim.waveComposition n)).
Proof.
  unfold Sim.waveMobs.
  set (spacing := Rmax 0.3 (1.2 - IZR n * 0.1)).
  assert (H : forall groups acc,
             exists r,
               Sim.foldM (Sim.spawnGroup ids state n spacing) groups acc = Ok r
               /\ List.length (fst r)
                  = (List.length (fst acc)
                     + fold_right Nat.add 0%nat (map snd groups))%nat).
  { induction groups as [|[T count] groups IH]; intros acc; simpl.
    - exists acc; split; [reflexivity|lia].
    - unfold Sim.spawnGroup; cbn [fst snd].
      destruct (spawnMobs_total ids state n spacing T count acc) as (r & -> & Hr).
      cbn [Js.bind].
      destruct (IH (fst r, (snd r + 1.5)%R)) as (r' & Hfold & Hr').
      unfold Sim.spawnGroup in Hfold; rewrite Hfold.
      exists r'; split; [reflexivity|].
      rewrite Hr'; cbn [fst]; lia. }
  destruct (H (Sim.waveComposition n) ([], 0%R)) as (r & -> & Hr).
  exists (fst r); split; [reflexivity|exact Hr].
Qed.

Lemma shouldSpawnWave_due (state : GameState) :
  Sim.shouldSpawnWave state && (currentWaveIndex state <? 10)%Z = true
  <-> Spec.waveDue (simulationTime state) (currentWaveIndex state).
Proof.
  unfold Sim.shouldSpawnWave, Spec.waveDue, Js.floor.
  rewrite andb_true_iff, Z.gtb_ltb, !Z.ltb_lt; lia.
Qed.

Lemma updateWaveSpawning_spec (ids : Sim.IdSource) (state : GameState) :
  exists newMobs,
    Sim.waveMobs ids state (currentWaveIndex state + 1) = Ok newMobs
    /\ ((Spec.waveDue (simulationTime state) (currentWaveIndex state)
         /\ Sim.updateWaveSpawning ids state
            = Ok (Sim.withWave state (mobs state ++ newMobs)
                    (currentWaveIndex state + 1) WaveActive))
        \/ (~ Spec.waveDue (simulationTime state) (currentWaveIndex state)
            /\ Sim.updateWaveSpawning ids state = Ok state)).
Proof.
  destruct (waveMobs_total ids state (currentWaveIndex state + 1))
    as (newMobs & Hw & _).
  exists newMobs; split; [exact Hw|].
  unfold Sim.updateWaveSpawning, Sim.spawnWave.
  destruct (Sim.shouldSpawnWave state && (currentWaveIndex state <? 10)%Z) eqn:Hdue.
  - left; split; [now apply shouldSpawnWave_due|].
    now rewrite Hw.
  - right; split; [|reflexivity].
    intros H; apply shouldSpawnWave_due in H; congruence.
Qed.

(** *** Phase transitions *)

Lemma updateGamePhase_fields (state : GameState) :
  lives (Sim.updateGamePhase state) = lives state
  /\ currentWaveIndex (Sim.updateGamePhase state) = currentWaveIndex state
  /\ mobs (Sim.updateGamePhase state) = mobs state
  /\ simulationTime (Sim.updateGamePhase state) = simulationTime state.
Proof.
  unfold Sim.updateGamePhase.
  destruct (_ && _); [repeat split|].
  destruct (_ && _); repeat split.
Qed.

Lemma updateGamePhase_phase (state : GameState) :
  ((lives state <= 0)%Z -> phase state <> Defeat ->
   phase (Sim.updateGamePhase state) = Defeat)
  /\ ((0 < lives state)%Z -> mobs state <> [] ->
      phase (Sim.updateGamePhase state) = phase state).
Proof.
  unfold Sim.updateGamePhase; split.
  - intros H Hp; replace (lives state <=? 0)%Z with true by lia.
    rewrite (proj2 (phase_eqb_neq _ _) Hp); reflexivity.
  - intros H Hm; replace (lives state <=? 0)%Z with false by lia; simpl.
    destruct (mobs state) as [|m ms]; [congruence|]; simpl.
    rewrite andb_false_r; reflexivity.
Qed.

Lemma updateGamePhase_keeps (state : GameState) :
  (0 < lives state)%Z ->
  mobs state <> [] \/ (currentWaveIndex state < 10)%Z ->
  phase (Sim.updateGamePhase state) = phase state.
Proof.
  intros H Hm; unfold Sim.updateGamePhase.
  replace (lives state <=? 0)%Z with false by lia; cbn [andb].
  destruct Hm as [Hm|Hm].
  - destruct (mobs state) as [|m ms]; [congruence|]; simpl.
    rewrite andb_false_r; reflexivity.
  - replace (currentWaveIndex state >=? 10)%Z with false by lia; reflexivity.
Qed.

Lemma classic_shortCircuited (state : GameState) :
  Spec.shortCircuited state \/ ~ Spec.shortCircuited state.
Proof.
  unfold Spec.shortCircuited.
  destruct (isPaused state); [left; now left|].
  destruct (phase state); try (left; right; tauto);
    right; intros [H|[H|H]]; discriminate.
Qed.

Lemma waveDue_dec (time : R) (index : Z) :
  Spec.waveDue time index \/ ~ Spec.waveDue time index.
Proof. unfold Spec.waveDue; lia. Qed.

(** *** The shape of a tick that is not short-circuited *)

Lemma running_flags (state : GameState) :
  ~ Spec.shortCircuited state ->
  isPaused state = false
  /\ Sim.phase_eqb (phase state) Defeat || Sim.phase_eqb (phase state) Victory = false.
Proof.
  unfold Spec.shortCircuited; intros H; split.
  - destruct (isPaused state); [exfalso; auto|reflexivity].
  - apply orb_false_iff; split; apply phase_eqb_neq; intros Hp; apply H; auto.
Qed.

Lemma advanceTick_running (ids : Sim.IdSource) (state : GameState) (dt : R) :
  ~ Spec.shortCircuited state ->
  let scaled := (dt * gameSpeed state)%R in
  let s0 := Sim.withSimulationTime state (simulationTime state + scaled)%R in
  exists s3 s4,
    Spec.beforeSpawning ids state dt = Ok s3
    /\ Sim.updateWaveSpawning ids s3 = Ok s4
    /\ Sim.advanceTick ids state dt = Ok (Sim.updateGamePhase s4)
    /\ lives s3
       = Z.max 0 (lives state
                  - Z.of_nat (List.length
                                (filter (Spec.crossesEnd s0 scaled) (mobs state))))
    /\ currentWaveIndex s3 = currentWaveIndex state
    /\ simulationTime s3 = (simulationTime state + scaled)%R
    /\ phase s3 = phase state.
Proof.
  intros Hrun scaled s0.
  destruct (running_flags state Hrun) as [Hp Hph].
  unfold Sim.advanceTick, Spec.beforeSpawning; rewrite Hp, Hph.
  fold scaled; fold s0.
  destruct (updateMobs_fields s0 scaled) as (Hl & Hi & Ht & Hf).
  destruct (updateTowers_total ids (Sim.updateMobs s0 scaled)) as (ts & ps & ->).
  cbn [Js.bind].
  set (s2 := Sim.withTowersProjectiles (Sim.updateMobs s0 scaled) ts ps).
  destruct (updateProjectiles_shape s2 scaled) as (ps' & ms & gained & Hs3).
  set (s3 := Sim.updateProjectiles s2 scaled) in *.
  destruct (updateWaveSpawning_spec ids s3) as (newMobs & _ & [[_ Hw]|[_ Hw]]);
    rewrite Hw; cbn [Js.bind];
    eexists; eexists; (split; [reflexivity|]); (split; [exact Hw|]);
    (split; [reflexivity|]); rewrite Hs3; cbn; rewrite Hl, Hi, Ht, Hf;
    repeat split.
Qed.

Lemma advanceTick_shortCircuited (ids : Sim.IdSource) (state : GameState) (dt : R) :
  Spec.shortCircuited state -> Sim.advanceTick ids state dt = Ok state.
Proof.
  intros [Hp|[Hp|Hp]]; unfold Sim.advanceTick.
  - now rewrite Hp.
  - rewrite Hp; simpl; now destruct (isPaused state).
  - rewrite Hp; simpl; now destruct (isPaused state).
Qed.

(** C2. A paused state and a state whose phase is defeat or victory pass
    through [advanceTick] unchanged, whatever the time step; hence once
    the phase is victory or defeat, no sequence of ticks changes the
    state. *)
Theorem C2_short_circuit (state : GameState) :
  (forall ids dt,
      Spec.shortCircuited state -> Sim.advanceTick ids state dt = Ok state)
  /\ (phase state = Victory \/ phase state = Defeat ->
      forall ticks, Sim.runTicks state ticks = Ok state).
Proof.
  split; [intros ids dt; apply advanceTick_shortCircuited|].
  intros Hend ticks; induction ticks as [|[ids dt] ticks IH]; simpl; [reflexivity|].
  rewrite advanceTick_shortCircuited by (unfold Spec.shortCircuited; tauto).
  exact IH.
Qed.

Lemma C2_short_circuit_witness :
  Sim.advanceTick Examples.ids Examples.paused 0.5 = Ok Examples.paused
  /\ Sim.runTicks Examples.won
       [(Examples.ids, 0.5%R); (Examples.ids, 1%R); (Examples.ids, 20%R)]
     = Ok Examples.won.
Proof.
  split.
  - apply (proj1 (C2_short_circuit Examples.paused)); left; reflexivity.
  - apply (proj2 (C2_short_circuit Examples.won)); left; reflexivity.
Defined.

(** The last wave is not empty. *)
Lemma wave_ten_nonempty (ids : Sim.IdSource) (state : GameState)
      (newMobs : list Mob) :
  Sim.waveMobs ids state 10 = Ok newMobs -> newMobs <> [].
Proof.
  intros H; destruct (waveMobs_total ids state 10) as (l & Hl & Hlen).
  rewrite H in Hl; injection Hl as <-.
  intros ->; cbn in Hlen; discriminate Hlen.
Qed.

(** C3, counterexample.  A paused state at time 15 with wave index 0:
    a wave is due, also after the time step is added, yet [advanceTick]
    returns the state unchanged and the wave index stays 0. *)
Lemma C3_counterexample :
  Spec.waveDue
    (simulationTime Examples.paused + 0.02 * gameSpeed Examples.paused)
    (currentWaveIndex Examples.paused)
  /\ Sim.advanceTick Examples.ids Examples.paused 0.02 = Ok Examples.paused
  /\ currentWaveIndex Examples.paused
     <> (currentWaveIndex Examples.paused + 1)%Z.
Proof.
  split; [|split; [reflexivity|simpl; lia]].
  unfold Spec.waveDue; simpl; split; [|lia].
  rewrite (Zfloor_eq 1); [lia|]; simpl; lra.
Qed.

(** C3, amended.  [advanceTick] never decreases [currentWaveIndex] and
    raises it by at most one; a short-circuited tick leaves it unchanged.
    On a tick that is not short-circuited the index is incremented iff
    [floor(simulationTime / 15) > currentWaveIndex] and
    [currentWaveIndex < 10], with [simulationTime] already advanced for
    this tick.  In that case the mobs of the new wave are appended to the
    mobs left by the projectile stage ([s3] below) and the tick ends in
    phase wave-active, unless no lives are left, when it ends in defeat;
    otherwise index and mobs are those of [s3]. *)
Theorem C3_wave_progression (ids : Sim.IdSource) (state : GameState) (dt : R) :
  let time := (simulationTime state + dt * gameSpeed state)%R in
  let index := currentWaveIndex state in
  (forall state',
      Sim.advanceTick ids state dt = Ok state' ->
      (index <= currentWaveIndex state' <= index + 1)%Z)
  /\ (Spec.shortCircuited state -> Sim.advanceTick ids state dt = Ok state)
  /\ (~ Spec.shortCircuited state ->
      exists s3 newMobs state',
        Spec.beforeSpawning ids state dt = Ok s3
        /\ Sim.waveMobs ids s3 (index + 1) = Ok newMobs
        /\ Sim.advanceTick ids state dt = Ok state'
        /\ (currentWaveIndex state' = (index + 1)%Z <-> Spec.waveDue time index)
        /\ (Spec.waveDue time index ->
            mobs state' = mobs s3 ++ newMobs
            /\ ((0 < lives state')%Z -> phase state' = WaveActive)
            /\ ((lives state' <= 0)%Z -> phase state' = Defeat))
        /\ (~ Spec.waveDue time index ->
            currentWaveIndex state' = index /\ mobs state' = mobs s3)).
Proof.
  intros time index.
  assert (Hrun : ~ Spec.shortCircuited state ->
      exists s3 newMobs state',
        Spec.beforeSpawning ids state dt = Ok s3
        /\ Sim.waveMobs ids s3 (index + 1) = Ok newMobs
        /\ Sim.advanceTick ids state dt = Ok state'
        /\ (currentWaveIndex state' = (index + 1)%Z <-> Spec.waveDue time index)
        /\ (Spec.waveDue time index ->
            mobs state' = mobs s3 ++ newMobs
            /\ ((0 < lives state')%Z -> phase state' = WaveActive)
            /\ ((lives state' <= 0)%Z -> phase state' = Defeat))
        /\ (~ Spec.waveDue time index ->
            currentWaveIndex state' = index /\ mobs state' = mobs s3)).
  { intros Hns.
    destruct (advanceTick_running ids state dt Hns)
      as (s3 & s4 & Hb & Hw & Ha & _ & Hi & Ht & _).
    destruct (updateWaveSpawning_spec ids s3) as (newMobs & Hn & Hcase).
    rewrite Hi, Ht in Hcase; rewrite Hi in Hn.
    fold time index in Hcase, Hn.
    exists s3, newMobs, (Sim.updateGamePhase s4).
    destruct (updateGamePhase_fields s4) as (Hgl & Hgi & Hgm & _).
    do 3 (split; [assumption|]).
    rewrite Hgi, Hgm, Hgl.
    destruct Hcase as [[Hdue Hspawn]|[Hnot Hstay]].
    - rewrite Hw in Hspawn; injection Hspawn as ->; cbn.
      split; [tauto|]; split; [|tauto].
      intros _; split; [reflexivity|split].
      + intros Hl; rewrite updateGamePhase_keeps; [reflexivity|exact Hl|].
        cbn; destruct Hdue as [_ Hlt].
        destruct (Z.eq_dec index 9) as [H9|H9]; [|right; lia].
        left; rewrite H9 in Hn; apply wave_ten_nonempty in Hn.
        destruct newMobs; [congruence|]; destruct (mobs s3); discriminate.
      + intros Hl; apply updateGamePhase_phase; [exact Hl|discriminate].
    - rewrite Hw in Hstay; injection Hstay as ->; rewrite Hi; fold index.
      split; [split; [lia|tauto]|]; split; [tauto|].
      intros _; split; reflexivity. }
  split; [|split; [apply advanceTick_shortCircuited|exact Hrun]].
  intros state' Hs'.
  destruct (classic_shortCircuited state) as [Hsc|Hns].
  - rewrite (advanceTick_shortCircuited ids state dt Hsc) in Hs'.
    injection Hs' as <-; subst index; lia.
  - destruct (Hrun Hns) as (s3 & newMobs & s' & _ & _ & Ha & Hiff & _ & Hnot).
    rewrite Ha in Hs'; injection Hs' as <-.
    destruct (waveDue_dec time index) as [Hd|Hd].
    + apply Hiff in Hd; lia.
    + destruct (Hnot Hd) as [-> _]; lia.
Qed.

Lemma C3_wave_progression_witness :
  exists state',
    Sim.advanceTick Examples.ids Examples.running 0.02 = Ok state'
    /\ currentWaveIndex state' = 1%Z.
Proof.
  assert (Hns : ~ Spec.shortCircuited Examples.running)
    by (intros [H|[H|H]]; discriminate H).
  destruct (proj2 (proj2 (C3_wave_progression Examples.ids Examples.running 0.02)) Hns)
    as (s3 & newMobs & state' & _ & _ & Ha & Hiff & _).
  exists state'; split; [exact Ha|].
  apply Hiff; unfold Spec.waveDue; simpl; split; [|lia].
  rewrite (Zfloor_eq 1); [lia|]; simpl; lra.
Defined.

(** *** Lives *)


(** * Further properties of the engine *)

(** ** Damage and slow effects *)

(** X1. [applyDamage] deals [max(1, baseDamage - armor)], at least 1; the
    new hp is never negative and is strictly below the old hp of a living
    mob; the mob is reported killed exactly when its hp does not exceed
    the damage dealt; a surviving mob loses exactly the damage; no other
    field changes. *)
Theorem X1_applyDamage (mob : Mob) (baseDamage : R) :
  let hit := Effects.applyDamage mob baseDamage in
  let damaged := fst (fst hit) in
  let actualDamage := snd (fst hit) in
  let killed := snd hit in
  actualDamage = Rmax 1 (baseDamage - mob_armor mob)
  /\ (1 <= actualDamage)%R
  /\ (0 <= mob_hp damaged)%R
  /\ ((0 < mob_hp mob)%R -> (mob_hp damaged < mob_hp mob)%R)
  /\ (killed = true <-> (mob_hp mob <= actualDamage)%R)
  /\ (killed = false -> mob_hp damaged = (mob_hp mob - actualDamage)%R)
  /\ Effects.withHp damaged (mob_hp mob) = mob.
Proof.
  intros hit damaged actualDamage killed.
  subst hit damaged actualDamage killed; unfold Effects.applyDamage; cbn [fst snd].
  unfold Definitions.calculateDamage.
  set (dmg := Rmax 1 (baseDamage - mob_armor mob)).
  assert (Hd : (1 <= dmg)%R) by apply Rmax_l.
  split; [reflexivity|]; split; [exact Hd|].
  split; [cbn; apply Rmax_l|].
  split.
  { intros Hhp; cbn; unfold Rmax; destruct (Rle_dec 0 (mob_hp mob - dmg)); lra. }
  split.
  { rewrite eqb_true_iff; unfold Rmax.
    destruct (Rle_dec 0 (mob_hp mob - dmg)); split; intros; lra. }
  split.
  { intros Hk; apply eqb_false_iff in Hk; cbn; revert Hk; unfold Rmax.
    destruct (Rle_dec 0 (mob_hp mob - dmg)); intros; lra. }
  destruct mob; reflexivity.
Qed.

Lemma X1_applyDamage_witness :
  let hit := Effects.applyDamage (Examples.goblin "g" 0.5 Examples.noStatus) 15 in
  (mob_hp (fst (fst hit)) < 40)%R /\ snd hit = false.
Proof.
  pose proof (X1_applyDamage (Examples.goblin "g" 0.5 Examples.noStatus) 15)
    as (Hd & _ & _ & Hlt & Hk & _).
  cbn zeta in *; split; [apply Hlt; simpl; lra|].
  destruct (snd (Effects.applyDamage _ _)) eqn:Hs; [|reflexivity].
  exfalso; destruct Hk as [Hk _]; specialize (Hk eq_refl).
  rewrite Hd in Hk; simpl in Hk.
  unfold Rmax in Hk; destruct (Rle_dec 1 (15 - 0)); lra.
Defined.

Lemma effective_speed_active (mob : Mob) (now k : R) :
  (0 <= mob_speed mob)%R ->
  Effects.hasActiveEffects mob now = true ->
  slowMultiplier (mob_status mob) = Some k -> k <> 0%R ->
  Effects.getEffectiveSpeed mob now = (mob_speed mob * Rmax k 0.1)%R.
Proof.
  unfold Effects.getEffectiveSpeed, Effects.hasActiveEffects.
  intros Hs Hon Hk Hnz; rewrite Hk.
  destruct (slowUntil (mob_status mob)) as [u|]; [|discriminate].
  rewrite Hon, (proj2 (eqb_false_iff k 0) Hnz); cbn [negb andb].
  now rewrite RmaxRmult.
Qed.

(** X2. [getEffectiveSpeed] never drops below 10% of the mob's speed.  For
    a mob with non-negative speed: without an active slow it is the speed
    itself; it never exceeds the speed when the stored multiplier is at
    most 1; and under an active slow of multiplier [k] it is
    [speed * max(k, 0.1)]. *)
Theorem X2_effective_speed (mob : Mob) (now : R) :
  (mob_speed mob * 0.1 <= Effects.getEffectiveSpeed mob now)%R
  /\ ((0 <= mob_speed mob)%R ->
      (Effects.hasActiveEffects mob now = false ->
       Effects.getEffectiveSpeed mob now = mob_speed mob)
      /\ ((forall k, slowMultiplier (mob_status mob) = Some k -> (k <= 1)%R) ->
          (Effects.getEffectiveSpeed mob now <= mob_speed mob)%R)
      /\ (forall k,
            Effects.hasActiveEffects mob now = true ->
            slowMultiplier (mob_status mob) = Some k -> k <> 0%R ->
            Effects.getEffectiveSpeed mob now = (mob_speed mob * Rmax k 0.1)%R)).
Proof.
  split; [apply Rmax_r|].
  intros Hs.
  assert (Hbase : Rmax (mob_speed mob) (mob_speed mob * 0.1) = mob_speed mob)
    by (apply Rmax_left; nra).
  split; [|split].
  - unfold Effects.getEffectiveSpeed, Effects.hasActiveEffects.
    destruct (slowUntil (mob_status mob)) as [u|]; [|intros _; exact Hbase].
    intros Hoff; destruct (slowMultiplier (mob_status mob)); [|exact Hbase].
    rewrite Hoff; exact Hbase.
  - unfold Effects.getEffectiveSpeed; intros Hk.
    destruct (slowUntil (mob_status mob)) as [u|]; [|rewrite Hbase; lra].
    destruct (slowMultiplier (mob_status mob)) as [k|]; [|rewrite Hbase; lra].
    specialize (Hk k eq_refl).
    destruct (_ && _); [|rewrite Hbase; lra].
    apply Rmax_lub; nra.
  - intros k Hon Hk Hnz.
    now apply (effective_speed_active mob now k).
Qed.

Lemma X2_effective_speed_witness :
  Effects.getEffectiveSpeed (Examples.goblin "g" 0.5 Examples.noStatus) 3 = 1.5%R
  /\ Effects.getEffectiveSpeed
       (Examples.goblin "s" 0.5
          {| slowUntil := Some 10%R; slowMultiplier := Some 0.5%R |}) 5
     = (1.5 * Rmax 0.5 0.1)%R.
Proof.
  split.
  - apply (X2_effective_speed (Examples.goblin "g" 0.5 Examples.noStatus) 3);
      [simpl; lra|reflexivity].
  - destruct (X2_effective_speed
                (Examples.goblin "s" 0.5
                   {| slowUntil := Some 10%R; slowMultiplier := Some 0.5%R |}) 5)
      as (_ & Hspeed).
    destruct (Hspeed ltac:(simpl; lra)) as (_ & _ & Hactive).
    apply (Hactive 0.5%R); [|reflexivity|lra].
    unfold Effects.hasActiveEffects; cbn [Examples.goblin mob_status slowUntil].
    rewrite (proj2 (eqb_false_iff 10 0)) by lra.
    rewrite (proj2 (ltb_true_iff 5 10)) by lra; reflexivity.
Defined.

(** X3. Life cycle of a slow.  After [applySlow(mob, m, d, now)] with
    [m <> 0], [d > 0], [now >= 0] on a mob of non-negative speed, the slow
    lasts until [e = max(u, now + d)] ([u] the previous expiry, 0 if
    none): at every time [t < e] the decay step keeps the mob as it is
    and its effective speed is [speed * max(min(m, k), 0.1)]; at every
    time [t >= e] the decay step clears both status fields and the
    effective speed is the full speed again. *)
Theorem X3_slow_lifecycle (mob : Mob) (m d now : R) :
  (0 <= mob_speed mob)%R -> m <> 0%R -> (0 < d)%R -> (0 <= now)%R ->
  let slowed := Effects.applySlow mob m d now in
  let e := Rmax (Js.or_else (slowUntil (mob_status mob)) 0) (now + d) in
  let k := Js.or_else (slowMultiplier (mob_status mob)) 1 in
  (now + d <= e)%R
  /\ (forall t, (t < e)%R ->
        Effects.updateMobEffects slowed t = slowed
        /\ Effects.hasActiveEffects slowed t = true
        /\ Effects.getEffectiveSpeed slowed t
           = (mob_speed mob * Rmax (Rmin m k) 0.1)%R)
  /\ (forall t, (e <= t)%R ->
        mob_status (Effects.updateMobEffects slowed t)
        = {| slowUntil := None; slowMultiplier := None |}
        /\ Effects.getEffectiveSpeed (Effects.updateMobEffects slowed t) t
           = mob_speed mob).
Proof.
  intros Hs Hm Hd Hnow slowed e k.
  assert (He : (now + d <= e)%R) by apply Rmax_r.
  assert (Hk : k <> 0%R) by apply existing_multiplier_nonzero.
  assert (Hmk : Rmin m k <> 0%R) by (apply Rmin_nonzero; assumption).
  assert (Hst : mob_status slowed
                = {| slowUntil := Some e; slowMultiplier := Some (Rmin m k) |})
    by reflexivity.
  assert (Hsp : mob_speed slowed = mob_speed mob) by reflexivity.
  assert (He0 : Js.eqb e 0 = false) by (apply eqb_false_iff; lra).
  split; [exact He|split].
  - intros t Ht.
    assert (Hact : Effects.hasActiveEffects slowed t = true).
    { unfold Effects.hasActiveEffects; rewrite Hst; cbn [slowUntil].
      now rewrite He0, (proj2 (ltb_true_iff t e) Ht). }
    split; [|split; [exact Hact|]].
    + unfold Effects.updateMobEffects; rewrite Hst; cbn [slowUntil].
      unfold Js.geb; rewrite He0, (proj2 (leb_false_iff e t)) by lra.
      reflexivity.
    + rewrite <- Hsp; apply effective_speed_active;
        [now rewrite Hsp|exact Hact|now rewrite Hst|exact Hmk].
  - intros t Ht.
    assert (Hclear : Effects.updateMobEffects slowed t
                     = Effects.withStatus slowed
                         {| slowUntil := None; slowMultiplier := None |}).
    { unfold Effects.updateMobEffects; rewrite Hst; cbn [slowUntil].
      unfold Js.geb; now rewrite He0, (proj2 (leb_true_iff e t) Ht). }
    rewrite Hclear; split; [reflexivity|].
    unfold Effects.getEffectiveSpeed; cbn.
    apply Rmax_left; nra.
Qed.

Lemma X3_slow_lifecycle_witness :
  let slowed := Effects.applySlow (Examples.goblin "g" 0.5 Examples.noStatus) 0.5 3 10 in
  Effects.getEffectiveSpeed slowed 12 = (1.5 * Rmax (Rmin 0.5 1) 0.1)%R
  /\ Effects.getEffectiveSpeed (Effects.updateMobEffects slowed 13) 13 = 1.5%R.
Proof.
  pose proof (X3_slow_lifecycle (Examples.goblin "g" 0.5 Examples.noStatus) 0.5 3 10)
    as H.
  destruct H as (_ & Hin & Hout); try (simpl; lra).
  split.
  - apply Hin; simpl; unfold Rmax; destruct (Rle_dec 0 (10 + 3)); lra.
  - apply Hout; simpl; unfold Rmax; destruct (Rle_dec 0 (10 + 3)); lra.
Defined.

(** ** Coordinates, distances and path length *)

Lemma floor_div_iff (x tileSize : R) (z : Z) :
  (0 < tileSize)%R ->
  Js.floor (x / tileSize) = z
  <-> (IZR z * tileSize <= x < (IZR z + 1) * tileSize)%R.
Proof.
  intros Hts; unfold Js.floor.
  set (q := (x / tileSize)%R).
  assert (Hx : x = (q * tileSize)%R) by (subst q; field; lra).
  clearbody q; subst x; split.
  - intros <-; pose proof (Zfloor_bound q) as [Hlo Hhi]; nra.
  - intros [Hlo Hhi]; apply Zfloor_eq; nra.
Qed.

(** X4. For a positive tile size, [worldToGrid] sends a world position to
    [c] exactly when the position lies in the square of tile [c]; the
    centre computed by [gridToWorld] lies in its own tile, so
    [worldToGrid (gridToWorld c)] is [c]. *)
Theorem X4_grid_round_trip (c : GridCoord) (tileSize : R) :
  (0 < tileSize)%R ->
  Grid.worldToGrid (Grid.gridToWorld c tileSize) tileSize = c
  /\ (forall p, Grid.worldToGrid p tileSize = c <-> Spec.tileContains c tileSize p).
Proof.
  intros Hts.
  assert (Hiff : forall p,
             Grid.worldToGrid p tileSize = c <-> Spec.tileContains c tileSize p).
  { intros p; unfold Grid.worldToGrid, Spec.tileContains.
    rewrite <- !floor_div_iff by exact Hts.
    destruct c as [x y]; cbn [gx gy]; split.
    - intros H; injection H; auto.
    - intros [-> ->]; reflexivity. }
  split; [|exact Hiff].
  apply Hiff; unfold Spec.tileContains, Grid.gridToWorld; cbn [vx vy].
  rewrite !Rmult_plus_distr_r, !Rmult_1_l.
  generalize (IZR (gx c) * tileSize)%R (IZR (gy c) * tileSize)%R; intros; lra.
Qed.

Lemma X4_grid_round_trip_witness :
  Grid.worldToGrid (Grid.gridToWorld {| gx := 2; gy := 3 |} 32) 32
  = {| gx := 2; gy := 3 |}.
Proof. exact (proj1 (X4_grid_round_trip {| gx := 2; gy := 3 |} 32 ltac:(lra))). Defined.

Lemma distanceSquared_nonneg (a b : Vec2) : (0 <= Grid.distanceSquared a b)%R.
Proof.
  unfold Grid.distanceSquared; cbv zeta.
  apply Rplus_le_le_0_compat; apply Rle_0_sqr.
Qed.

Lemma distance_sqrt (a b : Vec2) :
  Grid.distance a b = sqrt (Grid.distanceSquared a b).
Proof. reflexivity. Qed.

(** X5. [distance] is symmetric, non-negative and zero only between equal
    points; its square is [distanceSquared]; and comparing squared
    distances is the same as comparing distances. *)
Theorem X5_distance (a b : Vec2) :
  Grid.distance a b = Grid.distance b a
  /\ (0 <= Grid.distance a b)%R
  /\ (Grid.distance a b = 0%R <-> a = b)
  /\ (Grid.distance a b * Grid.distance a b)%R = Grid.distanceSquared a b
  /\ (forall c,
        (Grid.distanceSquared a b < Grid.distanceSquared a c)%R
        <-> (Grid.distance a b < Grid.distance a c)%R).
Proof.
  rewrite !distance_sqrt.
  split.
  { f_equal; unfold Grid.distanceSquared; cbv zeta; ring. }
  split; [apply sqrt_pos|].
  split.
  { split.
    - intros H; apply sqrt_eq_0 in H; [|apply distanceSquared_nonneg].
      unfold Grid.distanceSquared in H; cbv zeta in H.
      destruct a as [ax ay], b as [bx b_y]; cbn [vx vy] in H.
      destruct (Rplus_sqr_eq_0 (ax - bx) (ay - b_y) H) as [H1 H2].
      f_equal; lra.
    - intros <-; unfold Grid.distanceSquared; cbv zeta.
      replace ((vx a - vx a) * (vx a - vx a) + (vy a - vy a) * (vy a - vy a))%R
        with 0%R by ring.
      apply sqrt_0. }
  split; [apply sqrt_sqrt, distanceSquared_nonneg|].
  intros c; rewrite distance_sqrt; split.
  - intros H; apply sqrt_lt_1_alt; split; [apply distanceSquared_nonneg|exact H].
  - intros H; apply sqrt_lt_0_alt; exact H.
Qed.

(** Centres of edge-neighbouring tiles are one tile size apart. *)
Lemma neighbour_distance (a b : GridCoord) (tileSize : R) :
  (0 <= tileSize)%R -> Grid.manhattanDistance a b = 1%Z ->
  Grid.distance (Grid.gridToWorld a tileSize) (Grid.gridToWorld b tileSize) = tileSize.
Proof.
  intros Hts Hm; unfold Grid.manhattanDistance in Hm.
  unfold Grid.distance, Grid.gridToWorld; cbv zeta; cbn [vx vy].
  assert (Hcases : (gx a - gx b = 1 /\ gy a = gy b)%Z
                   \/ (gx a - gx b = -1 /\ gy a = gy b)%Z
                   \/ (gx a = gx b /\ gy a - gy b = 1)%Z
                   \/ (gx a = gx b /\ gy a - gy b = -1)%Z) by lia.
  assert (Hsq : sqrt (tileSize * tileSize) = tileSize) by (apply sqrt_square; exact Hts).
  transitivity (sqrt (tileSize * tileSize)); [f_equal|exact Hsq].
  destruct Hcases as [[Hx Hy]|[[Hx Hy]|[[Hx Hy]|[Hx Hy]]]].
  - replace (gx a) with (gx b + 1)%Z by lia; rewrite Hy, plus_IZR; ring.
  - replace (gx a) with (gx b - 1)%Z by lia; rewrite Hy, minus_IZR; ring.
  - replace (gy a) with (gy b + 1)%Z by lia; rewrite Hx, plus_IZR; ring.
  - replace (gy a) with (gy b - 1)%Z by lia; rewrite Hx, minus_IZR; ring.
Qed.

Lemma fold_segment_lengths (segs : list (GridCoord * GridCoord)) (tileSize acc : R) :
  (forall a b, In (a, b) segs ->
     Grid.distance (Grid.gridToWorld a tileSize) (Grid.gridToWorld b tileSize)
     = tileSize) ->
  fold_left
    (fun totalLength '(p, c) =>
       (totalLength
        + Grid.distance (Grid.gridToWorld p tileSize) (Grid.gridToWorld c tileSize))%R)
    segs acc
  = (acc + INR (List.length segs) * tileSize)%R.
Proof.
  revert acc; induction segs as [|[a b] segs IH]; intros acc H.
  - simpl; ring.
  - cbn [fold_left]; rewrite IH by (intros; apply H; now right).
    rewrite (H a b) by now left.
    cbn [List.length]; rewrite S_INR; ring.
Qed.

Lemma segments_stepwise (pathCoords : list GridCoord) (a b : GridCoord) :
  Spec.stepwise pathCoords -> In (a, b) (Grid.segments pathCoords) ->
  Grid.manhattanDistance a b = 1%Z.
Proof.
  induction pathCoords as [|x [|y rest] IH]; simpl; try tauto.
  intros [Hxy Hrest] [Heq|Hin].
  - injection Heq as <- <-; exact Hxy.
  - apply IH; assumption.
Qed.

Lemma segments_length (pathCoords : list GridCoord) :
  List.length (Grid.segments pathCoords) = (List.length pathCoords - 1)%nat.
Proof.
  induction pathCoords as [|x [|y rest] IH]; try reflexivity.
  change (S (List.length (Grid.segments (y :: rest)))
          = (List.length (x :: y :: rest) - 1)%nat).
  rewrite IH; simpl; lia.
Qed.

Lemma pathLength_stepwise (pathCoords : list GridCoord) (tileSize : R) :
  (0 <= tileSize)%R -> Spec.stepwise pathCoords ->
  Grid.calculatePathLength pathCoords tileSize
  = (INR (List.length pathCoords - 1) * tileSize)%R.
Proof.
  unfold Grid.calculatePathLength; intros Hts Hstep.
  destruct (List.length pathCoords <? 2)%nat eqn:Hlen.
  - apply Nat.ltb_lt in Hlen.
    replace (List.length pathCoords - 1)%nat with O by lia; simpl; ring.
  - rewrite fold_segment_lengths.
    + rewrite segments_length; ring.
    + intros a b Hin; apply neighbour_distance; [exact Hts|].
      now apply (segments_stepwise pathCoords).
Qed.

(** The witness of the lives theorem: two goblins walk off a path of
    length 80 in one tick, with one life left. *)
Lemma straightPath_length :
  (0 < Grid.calculatePathLength Examples.straightPath
         (tileSize Definitions.GAME_CONFIG))%R.
Proof.
  rewrite pathLength_stepwise; [cbn; lra|cbn; lra|].
  simpl; repeat split; reflexivity.
Qed.



(** X6. [calculatePathLength] is 0 for a path of fewer than two points,
    and for a path whose consecutive tiles are edge neighbours it is the
    number of steps times the tile size. *)
Theorem X6_path_length (pathCoords : list GridCoord) (tileSize : R) :
  ((List.length pathCoords < 2)%nat ->
   Grid.calculatePathLength pathCoords tileSize = 0%R)
  /\ ((0 <= tileSize)%R -> Spec.stepwise pathCoords ->
      Grid.calculatePathLength pathCoords tileSize
      = (INR (List.length pathCoords - 1) * tileSize)%R).
Proof.
  split.
  - unfold Grid.calculatePathLength; intros H.
    now rewrite (proj2 (Nat.ltb_lt _ _) H).
  - apply pathLength_stepwise.
Qed.

Lemma X6_path_length_witness :
  Grid.calculatePathLength Examples.straightPath 32 = (INR 2 * 32)%R.
Proof.
  apply (X6_path_length Examples.straightPath 32); [lra|].
  simpl; repeat split; reflexivity.
Defined.

(** The walk over unit-length segments stops in the segment that contains
    the target distance. *)
Lemma walk_stepwise (segs : list (GridCoord * GridCoord)) (tileSize target c : R) :
  (0 < tileSize)%R ->
  (forall a b, In (a, b) segs ->
     Grid.distance (Grid.gridToWorld a tileSize) (Grid.gridToWorld b tileSize)
     = tileSize) ->
  (c < target <= c + INR (List.length segs) * tileSize)%R ->
  exists j a b,
    nth_error segs j = Some (a, b)
    /\ (c + INR j * tileSize < target <= c + (INR j + 1) * tileSize)%R
    /\ Grid.walkSegments segs tileSize target c
       = Some (Spec.lerp (Grid.gridToWorld a tileSize) (Grid.gridToWorld b tileSize)
                 ((target - c - INR j * tileSize) / tileSize)).
Proof.
  intros Hts; revert c; induction segs as [|[a b] segs IH]; intros c Hd [Hlo Hhi].
  - simpl in Hhi; lra.
  - cbn [Grid.walkSegments]; cbv zeta.
    rewrite (Hd a b) by now left.
    unfold Js.geb; destruct (Js.leb target (c + tileSize)) eqn:Hcmp.
    + apply leb_true_iff in Hcmp.
      exists O, a, b; split; [reflexivity|]; split; [simpl; lra|].
      unfold Spec.lerp; do 2 f_equal; f_equal; simpl; field; lra.
    + apply leb_false_iff in Hcmp.
      destruct (IH (c + tileSize)%R) as (j & a' & b' & Hn & [Hl Hh] & Hw).
      * intros; apply Hd; now right.
      * cbn [List.length] in Hhi; rewrite S_INR in Hhi; lra.
      * exists (S j), a', b'; split; [exact Hn|]; rewrite S_INR.
        split; [lra|]; rewrite Hw; do 2 f_equal; field; lra.
Qed.

(** X7. Interior of a path.  On a path of at least two tiles whose
    consecutive tiles are edge neighbours, with a positive tile size and
    [0 < p < 1], [getPositionOnPath] never falls through to its fallback:
    with [d = p * (n - 1)] the distance in tiles, it returns the point at
    fraction [d - j] of segment [j], where [j < d <= j + 1]. *)
Theorem X7_path_interpolation (pathCoords : list GridCoord) (p tileSize : R) :
  (0 < tileSize)%R -> Spec.stepwise pathCoords ->
  (2 <= List.length pathCoords)%nat -> (0 < p < 1)%R ->
  let d := (p * INR (List.length pathCoords - 1))%R in
  exists j a b,
    nth_error (Grid.segments pathCoords) j = Some (a, b)
    /\ (INR j < d <= INR j + 1)%R
    /\ Grid.getPositionOnPath pathCoords p tileSize
       = Spec.lerp (Grid.gridToWorld a tileSize) (Grid.gridToWorld b tileSize)
           (d - INR j).
Proof.
  intros Hts Hstep Hlen [Hp0 Hp1] d.
  assert (Hn : (1 <= INR (List.length pathCoords - 1))%R).
  { change 1%R with (INR 1); apply le_INR; lia. }
  destruct (walk_stepwise (Grid.segments pathCoords) tileSize
              (p * Grid.calculatePathLength pathCoords tileSize) 0 Hts)
    as (j & a & b & Hj & [Hl Hh] & Hw).
  - intros a b Hin; apply neighbour_distance; [lra|].
    now apply (segments_stepwise pathCoords).
  - rewrite segments_length, pathLength_stepwise by (lra || assumption).
    assert (HL : (0 < INR (List.length pathCoords - 1) * tileSize)%R)
      by (apply Rmult_lt_0_compat; lra).
    revert HL; generalize (INR (List.length pathCoords - 1) * tileSize)%R.
    intros L HL; split; [apply Rmult_lt_0_compat; assumption|].
    rewrite Rplus_0_l.
    apply (Rle_trans _ (1 * L)%R); [apply Rmult_le_compat_r; lra|lra].
  - rewrite pathLength_stepwise in Hl, Hh, Hw by (lra || assumption).
    exists j, a, b; split; [exact Hj|].
    replace (p * (INR (List.length pathCoords - 1) * tileSize))%R
      with (d * tileSize)%R in Hl, Hh, Hw by (subst d; ring).
    split.
    + rewrite Rplus_0_l in Hl, Hh; split.
      * apply (Rmult_lt_reg_r tileSize); [exact Hts|exact Hl].
      * apply (Rmult_le_reg_r tileSize); [exact Hts|exact Hh].
    + unfold Grid.getPositionOnPath.
      destruct pathCoords as [|first others]; [simpl in Hlen; lia|].
      replace (List.length (first :: others) =? 1)%nat with false
        by (symmetry; apply Nat.eqb_neq; simpl in *; lia).
      rewrite (proj2 (leb_false_iff p 0)) by lra.
      unfold Js.geb; rewrite (proj2 (leb_false_iff 1 p)) by lra.
      cbn [orb]; rewrite pathLength_stepwise by (lra || assumption).
      replace (p * (INR (List.length (first :: others) - 1) * tileSize))%R
        with (d * tileSize)%R by (subst d; ring).
      rewrite Hw; f_equal; field; lra.
Qed.

Lemma X7_path_interpolation_witness :
  Grid.getPositionOnPath Examples.straightPath 0.25 32
  = {| vx := 32; vy := 176 |}.
Proof.
  destruct (X7_path_interpolation Examples.straightPath 0.25 32)
    as (j & a & b & Hj & [Hl Hh] & Hpos);
    [lra|simpl; repeat split; reflexivity|simpl; lia|lra|].
  simpl in Hl, Hh.
  destruct j as [|j].
  - simpl in Hj; injection Hj as <- <-; rewrite Hpos.
    unfold Spec.lerp, Grid.gridToWorld; simpl; f_equal; lra.
  - exfalso; rewrite S_INR in Hl; pose proof (pos_INR j); lra.
Defined.

(** ** The other targeting strategies *)

(** A scan that replaces the current best only by a strictly larger key
    returns the first element of maximal key. *)
Lemma scan_max_key (key : Mob -> R) (l : list Mob) (c r : Mob) :
  fold_left (fun best mob => if Js.gtb (key mob) (key best) then mob else best) l c
  = r ->
  exists a b,
    c :: l = a ++ r :: b
    /\ (forall x, In x a -> (key x < key r)%R)
    /\ (forall x, In x b -> (key x <= key r)%R).
Proof.
  revert c; induction l as [|m l IH]; intros c H; simpl in H.
  - subst r; exists [], []; split; [reflexivity|split; intros x Hx; destruct Hx].
  - unfold Js.gtb in H at 2.
    destruct (Js.ltb (key c) (key m)) eqn:Hcmp.
    + apply ltb_true_iff in Hcmp.
      destruct (IH m H) as (a & b & Hs & Ha & Hb); clear IH H.
      exists (c :: a), b; split; [now rewrite Hs|split; [|exact Hb]].
      intros x [<-|Hx]; [|now apply Ha].
      destruct a as [|y a]; injection Hs as <- _; [exact Hcmp|].
      specialize (Ha m (or_introl eq_refl)); lra.
    + apply ltb_false_iff in Hcmp.
      destruct (IH c H) as (a & b & Hs & Ha & Hb); clear IH H.
      destruct a as [|y a]; injection Hs as Hy Hl.
      * subst r l; exists [], (m :: b); split; [reflexivity|].
        split; [intros x Hx; destruct Hx|].
        intros x [<-|Hx]; [exact Hcmp|now apply Hb].
      * subst y l; exists (c :: m :: a), b; split; [reflexivity|].
        split; [|exact Hb].
        intros x [<-|[<-|Hx]];
          [apply Ha; now left| |apply Ha; now right].
        specialize (Ha c (or_introl eq_refl)); lra.
Qed.

(** The same for a scan that prefers strictly smaller keys. *)
Lemma scan_min_key (key : Mob -> R) (l : list Mob) (c r : Mob) :
  fold_left (fun best mob => if Js.ltb (key mob) (key best) then mob else best) l c
  = r ->
  exists a b,
    c :: l = a ++ r :: b
    /\ (forall x, In x a -> (key r < key x)%R)
    /\ (forall x, In x b -> (key r <= key x)%R).
Proof.
  intros H.
  destruct (scan_max_key (fun m => (- key m)%R) l c r) as (a & b & Hs & Ha & Hb).
  - rewrite <- H; clear H; revert c; induction l as [|m l IH]; intros c; simpl;
      [reflexivity|].
    rewrite IH; f_equal; unfold Js.gtb, Js.ltb.
    destruct (Rlt_dec (- key c) (- key m)), (Rlt_dec (key m) (key c));
      try reflexivity; lra.
  - exists a, b; split; [exact Hs|split];
      intros x Hx; [specialize (Ha x Hx)|specialize (Hb x Hx)]; lra.
Qed.

Lemma distance_order (p a b : Vec2) :
  ((Grid.distanceSquared p a < Grid.distanceSquared p b)%R
   <-> (Grid.distance p a < Grid.distance p b)%R)
  /\ ((Grid.distanceSquared p a <= Grid.distanceSquared p b)%R
      <-> (Grid.distance p a <= Grid.distance p b)%R).
Proof.
  rewrite !distance_sqrt; split; split; intros H.
  - apply sqrt_lt_1_alt; split; [apply distanceSquared_nonneg|exact H].
  - now apply sqrt_lt_0_alt.
  - apply sqrt_le_1_alt; exact H.
  - apply sqrt_le_0; [apply distanceSquared_nonneg| apply distanceSquared_nonneg|exact H].
Qed.

(** X8. Every targeting strategy returns the first eligible mob of maximal
    preference: the target is eligible, every eligible mob before it in
    the list is strictly less preferred and every eligible mob after it is
    at most as preferred, where the preference is progress for 'first',
    minus progress for 'last', minus the Euclidean distance to the tower
    for 'nearest', hp for 'strongest' and minus hp for 'weakest'. *)
Theorem X8_targeting_strategies (tower : Tower) (mobs : list Mob)
        (strategy : TargetingStrategy) (target : Mob) :
  Targeting.findTarget tower mobs (Some strategy) = Some target ->
  exists before after,
    mobs = before ++ target :: after
    /\ Spec.eligible tower target
    /\ (forall mob, In mob before -> Spec.eligible tower mob ->
          (Spec.preference tower strategy mob
           < Spec.preference tower strategy target)%R)
    /\ (forall mob, In mob after -> Spec.eligible tower mob ->
          (Spec.preference tower strategy mob
           <= Spec.preference tower strategy target)%R).
Proof.
  unfold Targeting.findTarget.
  destruct (filter (Targeting.inRange tower) mobs) as [|c l] eqn:Hf;
    [destruct strategy; discriminate|].
  cbn [List.length Nat.eqb].
  intros Ht.
  assert (Hsplit : exists a b,
             c :: l = a ++ target :: b
             /\ (forall x, In x a ->
                   (Spec.preference tower strategy x
                    < Spec.preference tower strategy target)%R)
             /\ (forall x, In x b ->
                   (Spec.preference tower strategy x
                    <= Spec.preference tower strategy target)%R)).
  { destruct strategy; cbn [Targeting.getFirstMob Targeting.getLastMob
                             Targeting.getNearestMob Targeting.getStrongestMob
                             Targeting.getWeakestMob Targeting.reduce] in Ht;
      unfold Targeting.getFirstMob, Targeting.getLastMob, Targeting.getNearestMob,
        Targeting.getStrongestMob, Targeting.getWeakestMob, Targeting.reduce in Ht;
      injection Ht as Ht; unfold Spec.preference.
    - exact (scan_max_key mob_pathProgress l c target Ht).
    - destruct (scan_min_key mob_pathProgress l c target Ht) as (a & b & Hs & Ha & Hb).
      exists a, b; split; [exact Hs|split];
        intros x Hx; [specialize (Ha x Hx)|specialize (Hb x Hx)]; lra.
    - destruct (scan_min_key
                  (fun m => Grid.distanceSquared (tower_pos tower) (mob_pos m))
                  l c target Ht) as (a & b & Hs & Ha & Hb).
      exists a, b; split; [exact Hs|split]; intros x Hx.
      + specialize (Ha x Hx); apply distance_order in Ha; lra.
      + specialize (Hb x Hx); apply distance_order in Hb; lra.
    - exact (scan_max_key mob_hp l c target Ht).
    - destruct (scan_min_key mob_hp l c target Ht) as (a & b & Hs & Ha & Hb).
      exists a, b; split; [exact Hs|split];
        intros x Hx; [specialize (Ha x Hx)|specialize (Hb x Hx)]; lra. }
  destruct Hsplit as (a & b & Hab & Ha & Hb).
  assert (Hel : forall x, In x (c :: l) -> Spec.eligible tower x).
  { intros x Hx; rewrite <- Hf in Hx; apply filter_In in Hx.
    now apply inRange_eligible. }
  rewrite <- Hf in Hab.
  destruct (filter_split _ _ _ _ _ Hab) as (l1 & l2 & -> & H1 & H2).
  exists l1, l2; split; [reflexivity|].
  split; [apply Hel; rewrite <- Hf, Hab; apply in_elt|].
  split; intros mob Hin Helig; apply inRange_eligible in Helig.
  - apply Ha; rewrite <- H1; apply filter_In; auto.
  - apply Hb; rewrite <- H2; apply filter_In; auto.
Qed.

Lemma X8_targeting_strategies_witness :
  let tower :=
    {| tower_id := "t"; tower_gridCoord := {| gx := 0; gy := 0 |};
       tower_pos := Examples.origin; tower_type := Arrow; tower_tier := 1;
       tower_range := 100; tower_damage := 15; tower_attackRate := 2.5;
       tower_projectileSpeed := Some 8%R; tower_lastAttackTime := 0;
       tower_splashRadius := None; tower_slowDuration := None;
       tower_slowAmount := None |} in
  let a := Examples.goblin "a" 0.2 Examples.noStatus in
  let b := Examples.goblin "b" 0.7 Examples.noStatus in
  Targeting.findTarget tower [a; b] (Some Last) = Some a
  /\ exists before after, [a; b] = before ++ a :: after.
Proof.
  intros tower a b.
  assert (Hin : forall id p,
             Targeting.inRange tower (Examples.goblin id p Examples.noStatus) = true).
  { intros id p; apply inRange_eligible; split; [|reflexivity].
    unfold Grid.distance; simpl.
    replace ((0 - 0) * (0 - 0) + (0 - 0) * (0 - 0))%R with 0%R by lra.
    rewrite sqrt_0; lra. }
  assert (Hfind : Targeting.findTarget tower [a; b] (Some Last) = Some a).
  { unfold Targeting.findTarget; cbn [filter].
    subst a b; rewrite !Hin; simpl.
    rewrite (proj2 (ltb_false_iff 0.7 0.2)) by lra; reflexivity. }
  split; [exact Hfind|].
  destruct (X8_targeting_strategies tower [a; b] Last a Hfind)
    as (before & after & Hs & _).
  exists before, after; exact Hs.
Defined.

(** X9. [calculateLeadPosition] does no lead prediction: whatever the tower
    position and projectile speed, it returns the target's current
    position. *)
Theorem X9_lead_position (towerPos : Vec2) (target : Mob) (projectileSpeed : R) :
  Targeting.calculateLeadPosition towerPos target projectileSpeed = mob_pos target.
Proof.
  unfold Targeting.calculateLeadPosition.
  destruct (_ || _); [reflexivity|]; cbv zeta.
  destruct (mob_pos target); reflexivity.
Qed.

Lemma scale_bounds (b q : R) :
  (0 <= b)%R -> (0 <= q <= 1)%R -> (0 <= b * q <= b)%R.
Proof.
  intros Hb [Hq0 Hq1]; split; [now apply Rmult_le_pos|].
  apply (Rle_trans _ (b * 1)%R); [now apply Rmult_le_compat_l|lra].
Qed.

(** X10. [calculateSplashDamage] with a positive radius, a non-negative
    base damage and a non-negative distance: it is 0 beyond the radius,
    lies between 0 and the base damage for every falloff type, is the full
    base damage at the centre, and with the default (linear) or the
    exponential falloff it vanishes at the edge, the exponential one never
    exceeding the linear one. *)
Theorem X10_splash_falloff (baseDamage dist radius : R) :
  (0 < radius)%R -> (0 <= baseDamage)%R -> (0 <= dist)%R ->
  (forall f, (radius < dist)%R ->
     Targeting.calculateSplashDamage baseDamage dist radius f = 0%R)
  /\ (forall f,
        (0 <= Targeting.calculateSplashDamage baseDamage dist radius f
         <= baseDamage)%R)
  /\ (forall f, Targeting.calculateSplashDamage baseDamage 0 radius f = baseDamage)
  /\ Targeting.calculateSplashDamage baseDamage radius radius None = 0%R
  /\ Targeting.calculateSplashDamage baseDamage radius radius (Some Targeting.Exponential) = 0%R
  /\ (Targeting.calculateSplashDamage baseDamage dist radius (Some Targeting.Exponential)
      <= Targeting.calculateSplashDamage baseDamage dist radius None)%R.
Proof.
  intros Hr Hb Hd.
  assert (Hpow : forall x, Js.pow x 2 = (x * x)%R)
    by (intros x; unfold Js.pow; simpl; ring).
  assert (Hq : (dist <= radius)%R -> (0 <= 1 - dist / radius <= 1)%R).
  { intros Hle.
    assert (0 <= dist / radius)%R
      by (apply Rmult_le_pos; [lra|left; apply Rinv_0_lt_compat; lra]).
    assert (dist / radius <= 1)%R.
    { apply (Rmult_le_reg_r radius); [exact Hr|].
      unfold Rdiv; rewrite Rmult_assoc, Rinv_l by lra; lra. }
    lra. }
  assert (Hone : (1 - radius / radius = 0)%R) by (field; lra).
  assert (Hzero : (1 - 0 / radius = 1)%R) by (field; lra).
  unfold Targeting.calculateSplashDamage, Js.gtb.
  split.
  { intros f Hlt; now rewrite (proj2 (ltb_true_iff radius dist) Hlt). }
  split.
  { intros f; destruct (Js.ltb radius dist) eqn:Hcmp; [lra|].
    apply ltb_false_iff in Hcmp; specialize (Hq Hcmp).
    pose proof (scale_bounds _ _ (proj1 Hq) Hq) as Hqq.
    destruct f as [[| |]|]; rewrite ?Hpow; try lra;
      apply scale_bounds; (exact Hb || lra). }
  split.
  { intros f; rewrite (proj2 (ltb_false_iff radius 0)) by lra.
    destruct f as [[| |]|]; rewrite ?Hpow, ?Hzero; ring. }
  split; [rewrite (proj2 (ltb_false_iff radius radius)) by lra; rewrite Hone; ring|].
  split; [rewrite (proj2 (ltb_false_iff radius radius)) by lra;
          rewrite Hpow, Hone; ring|].
  destruct (Js.ltb radius dist) eqn:Hcmp; [lra|].
  apply ltb_false_iff in Hcmp; specialize (Hq Hcmp); rewrite Hpow.
  pose proof (scale_bounds _ _ (proj1 Hq) Hq) as Hqq.
  apply Rmult_le_compat_l; lra.
Qed.

Lemma X10_splash_falloff_witness :
  Targeting.calculateSplashDamage 45 0 60 None = 45%R
  /\ Targeting.calculateSplashDamage 45 60 60 None = 0%R.
Proof.
  pose proof (X10_splash_falloff 45 0 60) as H.
  destruct H as (_ & _ & H0 & H1 & _); try lra.
  split; [apply H0|exact H1].
Defined.

(** ** Build legality *)

Lemma coordsEqual_eq (a b : GridCoord) : Grid.coordsEqual a b = true <-> a = b.
Proof.
  unfold Grid.coordsEqual; rewrite andb_true_iff, !Z.eqb_eq.
  destruct a, b; cbn [gx gy]; split; [intros [-> ->]; reflexivity|].
  intros H; injection H; auto.
Qed.

Lemma occupied_existsb (coord : GridCoord) (towers : list PlacedTower)
      (f : PlacedTower -> bool) :
  (forall tower, f tower = true <-> pt_gridCoord tower = coord) ->
  existsb f towers = true <-> Spec.occupied coord towers.
Proof.
  intros Hf; unfold Spec.occupied; rewrite existsb_exists.
  split; intros (t & Hin & Ht); exists t; split; auto; now apply Hf.
Qed.

Lemma occupied_dec (coord : GridCoord) (towers : list PlacedTower) :
  Spec.occupied coord towers \/ ~ Spec.occupied coord towers.
Proof.
  destruct (existsb (fun t => Grid.coordsEqual (pt_gridCoord t) coord) towers) eqn:H.
  - left; apply (occupied_existsb coord towers _ (fun t => coordsEqual_eq _ _)); exact H.
  - right; intros Ho.
    apply (occupied_existsb coord towers _ (fun t => coordsEqual_eq _ _)) in Ho.
    congruence.
Qed.

(** X11. The grid module's [canBuildAt] answers true exactly for a
    coordinate inside the map whose tile is buildable and carries no
    tower; it answers false outside the map (so also on an empty map), on
    a non-buildable tile and on an occupied one; it raises only when the
    coordinate is inside the bounds taken from the first row but the map
    has no tile there (a ragged map). *)
Theorem X11_grid_canBuildAt (coord : GridCoord) (map : list (list Tile))
        (towers : list PlacedTower) :
  let width := Z.of_nat (List.length (hd [] map)) in
  let height := Z.of_nat (List.length map) in
  let inside := (0 <= gx coord < width /\ 0 <= gy coord < height)%Z in
  (Grid.canBuildAt coord map towers = Ok true
   <-> inside
       /\ (exists tile, Grid.tileAt map coord = Some tile
                        /\ tile_type tile = Buildable)
       /\ ~ Spec.occupied coord towers)
  /\ (~ inside -> Grid.canBuildAt coord map towers = Ok false)
  /\ (forall tile, Grid.tileAt map coord = Some tile ->
        tile_type tile <> Buildable \/ Spec.occupied coord towers ->
        Grid.canBuildAt coord map towers = Ok false)
  /\ (Grid.canBuildAt coord map towers = Throw TypeError
      <-> inside /\ Grid.tileAt map coord = None).
Proof.
  intros width height inside.
  assert (Hvalid : Grid.isValidCoord coord width height = true <-> inside).
  { unfold Grid.isValidCoord, inside.
    rewrite !andb_true_iff, !Z.leb_le, !Z.ltb_lt; tauto. }
  assert (Hocc : existsb (fun tower => Grid.coordsEqual (pt_gridCoord tower) coord)
                         towers = true <-> Spec.occupied coord towers)
    by (apply occupied_existsb; intros; apply coordsEqual_eq).
  assert (Hunf : Grid.canBuildAt coord map towers
                 = if negb (Grid.isValidCoord coord width height) then Ok false
                   else
                     match Grid.tileAt map coord with
                     | Some tile =>
                         match tile_type tile with
                         | Buildable =>
                             Ok (negb (existsb
                                         (fun tower =>
                                            Grid.coordsEqual (pt_gridCoord tower) coord)
                                         towers))
                         | _ => Ok false
                         end
                     | None => Throw TypeError
                     end).
  { unfold Grid.canBuildAt; subst width height; destruct map as [|row rest];
      cbn [hd]; destruct (negb _); try reflexivity;
      destruct (Grid.tileAt _ coord); reflexivity. }
  rewrite Hunf; clear Hunf.
  destruct (Grid.isValidCoord coord width height) eqn:Hv; cbn [negb].
  2:{ assert (Hout : ~ inside) by (intros Hin; apply Hvalid in Hin; congruence).
      split; [split; [discriminate|tauto]|].
      split; [reflexivity|].
      split; [reflexivity|].
      split; [discriminate|tauto]. }
  assert (Hin : inside) by now apply Hvalid.
  destruct (Grid.tileAt map coord) as [tile|] eqn:Ht.
  2:{ split; [split; [discriminate|]|].
      { intros (_ & (t & Heq & _) & _); discriminate Heq. }
      split; [tauto|].
      split; [intros t Heq; discriminate Heq|].
      split; [tauto|reflexivity]. }
  destruct (tile_type tile) eqn:Hty.
  1,3: split; [split; [discriminate|]|];
    [ intros (_ & (t & Heq & Hb) & _); injection Heq as Heq; subst t; congruence
    | split; [tauto|]; split; [reflexivity|];
      split; [discriminate|intros [_ Hnone]; discriminate Hnone] ].
  destruct (existsb _ towers) eqn:Hex; cbn [negb].
  - assert (Ho : Spec.occupied coord towers) by now apply Hocc.
    split; [split; [discriminate|tauto]|].
    split; [tauto|].
    split; [reflexivity|].
    split; [discriminate|intros [_ Hnone]; discriminate Hnone].
  - assert (Ho : ~ Spec.occupied coord towers)
      by (intros Ho; apply Hocc in Ho; congruence).
    split.
    { split; [intros _|reflexivity].
      split; [exact Hin|]. split; [|exact Ho].
      exists tile; split; [reflexivity|exact Hty]. }
    split; [tauto|].
    split.
    { intros t Heq [Hnb|Hoc]; [|tauto].
      injection Heq as Heq; subst t; congruence. }
    split; [discriminate|intros [_ Hnone]; discriminate Hnone].
Qed.

Lemma X11_grid_canBuildAt_witness :
  Grid.canBuildAt {| gx := 0; gy := 0 |} Examples.testMap [] = Ok true
  /\ Grid.canBuildAt {| gx := 5; gy := 5 |} Examples.testMap [] = Ok false
  /\ Grid.canBuildAt {| gx := 1; gy := 0 |} Examples.testMap [] = Ok false.
Proof.
  pose proof (X11_grid_canBuildAt {| gx := 5; gy := 5 |} Examples.testMap [])
    as (_ & Hout & _).
  pose proof (X11_grid_canBuildAt {| gx := 1; gy := 0 |} Examples.testMap [])
    as (_ & _ & Hpath & _).
  split; [|split].
  - apply (proj1 (X11_grid_canBuildAt {| gx := 0; gy := 0 |} Examples.testMap [])).
    split; [cbn; lia|].
    split; [eexists; split; reflexivity|].
    intros (t & [] & _).
  - apply Hout; cbn; lia.
  - apply (Hpath _ eq_refl); left; discriminate.
Defined.

Lemma store_occupied (state : Store.GameStore) (coord : GridCoord) :
  existsb (fun tower =>
             ((gx (pt_gridCoord tower) =? gx coord)
              && (gy (pt_gridCoord tower) =? gy coord))%Z)
          (towers (Store.game state))
  = existsb (fun tower => Grid.coordsEqual (pt_gridCoord tower) coord)
            (towers (Store.game state)).
Proof. reflexivity. Qed.

Lemma store_canBuildAt_free (state : Store.GameStore) (coord : GridCoord) :
  Store.canBuildAt state coord = Ok true ->
  ~ Spec.occupied coord (towers (Store.game state)).
Proof.
  unfold Store.canBuildAt; destruct (_ || _)%bool; [discriminate|].
  destruct (Grid.tileAt _ coord) as [tile|]; cbn; [|discriminate].
  destruct (tile_type tile); try discriminate.
  rewrite store_occupied; intros H Ho.
  apply (occupied_existsb coord _ _ (fun t => coordsEqual_eq _ _)) in Ho.
  rewrite Ho in H; discriminate H.
Qed.

(** X12. The store's own [canBuildAt] and the grid module's are the same
    function on every map that has the configured dimensions, errors
    included.  They differ on smaller maps: for a coordinate inside the
    configured bounds but outside the map the grid module answers false,
    while the store reads a tile that does not exist and raises. *)
Theorem X12_canBuildAt_agree (state : Store.GameStore) (coord : GridCoord) :
  let tiles := map_tiles (Store.game state) in
  let width := Z.of_nat (List.length (hd [] tiles)) in
  let height := Z.of_nat (List.length tiles) in
  (width = mapWidth Definitions.GAME_CONFIG ->
   height = mapHeight Definitions.GAME_CONFIG ->
   Store.canBuildAt state coord
   = Grid.canBuildAt coord tiles (towers (Store.game state)))
  /\ ((0 <= gx coord < mapWidth Definitions.GAME_CONFIG)%Z ->
      (0 <= gy coord < mapHeight Definitions.GAME_CONFIG)%Z ->
      (height <= gy coord)%Z ->
      Store.canBuildAt state coord = Throw TypeError
      /\ Grid.canBuildAt coord tiles (towers (Store.game state)) = Ok false).
Proof.
  intros tiles width height.
  assert (Hw : match tiles with
               | row :: _ => Z.of_nat (List.length row)
               | [] => 0%Z
               end = width) by (subst width; destruct tiles; reflexivity).
  split.
  - intros Hwidth Hheight.
    unfold Store.canBuildAt, Grid.canBuildAt; fold tiles; cbv zeta.
    rewrite Hw; fold height; rewrite Hwidth, Hheight.
    unfold Grid.isValidCoord.
    destruct (Z.ltb_spec (gx coord) 0), (Z.geb_spec (gx coord) (mapWidth Definitions.GAME_CONFIG)),
      (Z.ltb_spec (gy coord) 0), (Z.geb_spec (gy coord) (mapHeight Definitions.GAME_CONFIG)),
      (Z.leb_spec 0 (gx coord)), (Z.ltb_spec (gx coord) (mapWidth Definitions.GAME_CONFIG)),
      (Z.leb_spec 0 (gy coord)), (Z.ltb_spec (gy coord) (mapHeight Definitions.GAME_CONFIG));
      try lia; reflexivity.
  - intros Hx Hy Hout.
    assert (Hnone : Grid.tileAt tiles coord = None).
    { unfold Grid.tileAt.
      destruct ((gy coord <? 0) || (gx coord <? 0))%Z; [reflexivity|].
      rewrite (proj2 (nth_error_None tiles (Z.to_nat (gy coord)))); [reflexivity|].
      subst height; lia. }
    split.
    + unfold Store.canBuildAt; fold tiles; rewrite Hnone.
      destruct (Z.ltb_spec (gx coord) 0), (Z.geb_spec (gx coord) (mapWidth Definitions.GAME_CONFIG)),
        (Z.ltb_spec (gy coord) 0), (Z.geb_spec (gy coord) (mapHeight Definitions.GAME_CONFIG));
        try lia; reflexivity.
    + unfold Grid.canBuildAt; cbv zeta; rewrite Hw; fold height.
      unfold Grid.isValidCoord.
      destruct (Z.ltb_spec (gy coord) height); [lia|].
      now rewrite !andb_false_r.
Qed.

Lemma X12_canBuildAt_agree_witness :
  Store.canBuildAt Examples.fieldStore {| gx := 5; gy := 5 |}
  = Grid.canBuildAt {| gx := 5; gy := 5 |} Examples.openField [Examples.frostTower]
  /\ Store.canBuildAt Examples.testStore {| gx := 5; gy := 5 |} = Throw TypeError
  /\ Grid.canBuildAt {| gx := 5; gy := 5 |} Examples.testMap [] = Ok false.
Proof.
  split.
  - exact (proj1 (X12_canBuildAt_agree Examples.fieldStore {| gx := 5; gy := 5 |})
             eq_refl eq_refl).
  - apply (proj2 (X12_canBuildAt_agree Examples.testStore {| gx := 5; gy := 5 |}));
      cbn; lia.
Defined.

(** ** Invariants of the tower list *)

(** What an accepted build, upgrade or sale does to the tower list and the
    money; every other call leaves the store as it was. *)
Lemma buildTower_cases (newId : string) (state state' : Store.GameStore)
      (coord : GridCoord) (T : TowerType) :
  Store.buildTower newId state coord T = Ok state' ->
  state' = state
  \/ exists stats,
       Definitions.calculateTowerStats (towerTypeKey T) 1 = Ok stats
       /\ (Definitions.ts_cost stats <= money (Store.game state))%Z
       /\ Store.canBuildAt state coord = Ok true
       /\ towers (Store.game state')
          = towers (Store.game state)
            ++ [ {| pt_id := newId; pt_gridCoord := coord; pt_type := T;
                    pt_tier := 1; pt_lastAttackTime := None |} ]
       /\ money (Store.game state')
          = (money (Store.game state) - Definitions.ts_cost stats)%Z
       /\ Store.selectedTowerId state' = Some newId.
Proof.
  unfold Store.buildTower.
  destruct (calculateTowerStats_total T 1) as (stats & Hs); rewrite Hs; cbn.
  destruct (Z.ltb_spec (money (Store.game state)) (Definitions.ts_cost stats)).
  { intros H0; injection H0 as <-; now left. }
  destruct (Store.canBuildAt state coord) as [[|]|e] eqn:Hc; cbn.
  - intros H0; injection H0 as <-; right; exists stats; cbn; auto 10.
  - intros H0; injection H0 as <-; now left.
  - discriminate.
Qed.

Lemma upgradeTower_cases (state : Store.GameStore) (towerId : string) :
  Store.upgradeTower state towerId = state
  \/ exists tower,
       Store.getTowerById state towerId = Some tower
       /\ (pt_tier tower < 3)%Z
       /\ (Definitions.calculateUpgradeCost (towerTypeKey (pt_type tower))
             (pt_tier tower) (pt_tier tower + 1)
           <= money (Store.game state))%Z
       /\ towers (Store.game (Store.upgradeTower state towerId))
          = map (fun t => if String.eqb (pt_id t) towerId
                          then Store.withTier t (pt_tier tower + 1) else t)
                (towers (Store.game state))
       /\ money (Store.game (Store.upgradeTower state towerId))
          = (money (Store.game state)
             - Definitions.calculateUpgradeCost (towerTypeKey (pt_type tower))
                 (pt_tier tower) (pt_tier tower + 1))%Z.
Proof.
  unfold Store.upgradeTower.
  destruct (Store.getTowerById state towerId) as [tower|]; [|now left].
  destruct (Z.geb_spec (pt_tier tower) 3); [now left|].
  destruct (Z.gtb_spec (pt_tier tower + 1) 3); [now left|].
  destruct (Z.ltb_spec (money (Store.game state))
              (Definitions.calculateUpgradeCost (towerTypeKey (pt_type tower))
                 (pt_tier tower) (pt_tier tower + 1))); [now left|].
  right; exists tower; cbn; auto 10.
Qed.

Lemma sellTower_cases (state state' : Store.GameStore) (towerId : string) :
  Store.sellTower state towerId = Ok state' ->
  state' = state
  \/ exists tower,
       Store.getTowerById state towerId = Some tower
       /\ towers (Store.game state')
          = filter (fun t => negb (String.eqb (pt_id t) towerId))
                   (towers (Store.game state))
       /\ money (Store.game state')
          = (money (Store.game state)
             + Binary64.floor_times_0_7 (Spec.totalInvestment tower))%Z
       /\ Store.selectedTowerId state' = None.
Proof.
  unfold Store.sellTower.
  destruct (Store.getTowerById state towerId) as [tower|].
  - rewrite store_calculateSellValue_spec; cbn.
    intros H0; injection H0 as <-; right; exists tower; cbn; auto.
  - intros H0; injection H0 as <-; now left.
Qed.

Lemma sellTower_total (state : Store.GameStore) (towerId : string) :
  exists state', Store.sellTower state towerId = Ok state'.
Proof.
  unfold Store.sellTower.
  destruct (Store.getTowerById state towerId) as [tower|]; [|eauto].
  rewrite store_calculateSellValue_spec; cbn; eauto.
Qed.

Lemma filter_keeps_distinct {K T : Type} (key : T -> K) (keep : T -> bool) :
  forall items : list T,
    NoDup (map key items) -> NoDup (map key (filter keep items)).
Proof.
  intros items; induction items as [|x rest IH]; cbn; intros H; [constructor|].
  inversion H as [|? ? Hnin Hnd]; subst.
  destruct (keep x); cbn; [constructor|]; auto.
  intros Hin; apply Hnin.
  apply in_map_iff in Hin as (y & Hy & Hin).
  apply filter_In in Hin as [Hin _].
  apply in_map_iff; eauto.
Qed.

Lemma upgraded_coords (towerId : string) (tier : Z) (l : list PlacedTower) :
  map pt_gridCoord
      (map (fun t => if String.eqb (pt_id t) towerId
                     then Store.withTier t tier else t) l)
  = map pt_gridCoord l.
Proof.
  rewrite map_map; apply map_ext; intros t.
  destruct (String.eqb (pt_id t) towerId); reflexivity.
Qed.

(** X13. At most one tower per tile.  If no two towers of the store share
    a grid coordinate, the same holds after any [buildTower],
    [upgradeTower] or [sellTower], whether the call is accepted or not. *)
Theorem X13_one_tower_per_tile (state : Store.GameStore) :
  Spec.distinctCoords (towers (Store.game state)) ->
  (forall newId coord T state',
      Store.buildTower newId state coord T = Ok state' ->
      Spec.distinctCoords (towers (Store.game state')))
  /\ (forall towerId,
        Spec.distinctCoords (towers (Store.game (Store.upgradeTower state towerId))))
  /\ (forall towerId state',
        Store.sellTower state towerId = Ok state' ->
        Spec.distinctCoords (towers (Store.game state'))).
Proof.
  unfold Spec.distinctCoords; intros Hnd; split; [|split].
  - intros newId coord T state' Hb.
    apply buildTower_cases in Hb as [->|(stats & _ & _ & Hc & Ht & _)]; [exact Hnd|].
    rewrite Ht, map_app; cbn.
    apply store_canBuildAt_free in Hc.
    apply NoDup_rev in Hnd; rewrite <- (rev_involutive (_ ++ _)).
    apply NoDup_rev; rewrite rev_app_distr; cbn.
    constructor; [|exact Hnd].
    intros Hin; apply in_rev, in_map_iff in Hin as (t & Hcoord & Hin).
    apply Hc; exists t; auto.
  - intros towerId.
    destruct (upgradeTower_cases state towerId) as [->|(tower & _ & _ & _ & Ht & _)];
      [exact Hnd|].
    now rewrite Ht, upgraded_coords.
  - intros towerId state' Hs.
    apply sellTower_cases in Hs as [->|(tower & _ & Ht & _)]; [exact Hnd|].
    rewrite Ht; now apply filter_keeps_distinct.
Qed.

Lemma X13_one_tower_per_tile_witness :
  exists state',
    Store.buildTower "t2" Examples.pairStore {| gx := 7; gy := 7 |} Cannon
    = Ok state'
    /\ List.length (towers (Store.game state')) = 3%nat
    /\ Spec.distinctCoords (towers (Store.game state')).
Proof.
  assert (Hd : Spec.distinctCoords (towers (Store.game Examples.pairStore))).
  { unfold Spec.distinctCoords; cbn.
    constructor; [intros [H|[]]; discriminate H|].
    constructor; [intros []|constructor]. }
  eexists; split; [reflexivity|]; split; [reflexivity|].
  apply (proj1 (X13_one_tower_per_tile Examples.pairStore Hd)
           "t2" {| gx := 7; gy := 7 |} Cannon).
  reflexivity.
Defined.

Lemma find_upgraded (towerId other : string) (tier : Z) (l : list PlacedTower) :
  find (fun t => String.eqb (pt_id t) other)
       (map (fun t => if String.eqb (pt_id t) towerId
                      then Store.withTier t tier else t) l)
  = option_map (fun t => if String.eqb (pt_id t) towerId
                         then Store.withTier t tier else t)
               (find (fun t => String.eqb (pt_id t) other) l).
Proof.
  induction l as [|t l IH]; cbn; [reflexivity|].
  replace (pt_id (if String.eqb (pt_id t) towerId then Store.withTier t tier else t))
    with (pt_id t) by (destruct (String.eqb (pt_id t) towerId); reflexivity).
  destruct (String.eqb (pt_id t) other); [reflexivity|exact IH].
Qed.

(** X14. An accepted upgrade.  When the store has a tower with the given
    id whose tier is below 3 and the money covers
    [calculateUpgradeCost(type, tier, tier + 1)], [upgradeTower] charges
    exactly that cost, looking the id up afterwards gives the same tower
    one tier higher, every other id resolves as before, and the number of
    towers and the selection are unchanged. *)
Theorem X14_upgrade_accepted (state : Store.GameStore) (towerId : string)
        (tower : PlacedTower) :
  Store.getTowerById state towerId = Some tower ->
  (pt_tier tower < 3)%Z ->
  (Definitions.calculateUpgradeCost (towerTypeKey (pt_type tower))
     (pt_tier tower) (pt_tier tower + 1) <= money (Store.game state))%Z ->
  let state' := Store.upgradeTower state towerId in
  Store.getTowerById state' towerId
  = Some (Store.withTier tower (pt_tier tower + 1))
  /\ (forall other, other <> towerId ->
        Store.getTowerById state' other = Store.getTowerById state other)
  /\ money (Store.game state')
     = (money (Store.game state)
        - Definitions.calculateUpgradeCost (towerTypeKey (pt_type tower))
            (pt_tier tower) (pt_tier tower + 1))%Z
  /\ List.length (towers (Store.game state'))
     = List.length (towers (Store.game state))
  /\ Store.selectedTowerId state' = Store.selectedTowerId state.
Proof.
  intros Hfind Htier Hmoney state'.
  assert (Hs : state'
               = {| Store.game :=
                      Store.withTowersMoney (Store.game state)
                        (map (fun t => if String.eqb (pt_id t) towerId
                                       then Store.withTier t (pt_tier tower + 1)
                                       else t)
                             (towers (Store.game state)))
                        (money (Store.game state)
                         - Definitions.calculateUpgradeCost
                             (towerTypeKey (pt_type tower))
                             (pt_tier tower) (pt_tier tower + 1))%Z;
                    Store.hoveredCoord := Store.hoveredCoord state;
                    Store.selectedTowerId := Store.selectedTowerId state;
                    Store.selectedTowerType := Store.selectedTowerType state;
                    Store.showRange := Store.showRange state |}).
  { subst state'; unfold Store.upgradeTower; rewrite Hfind.
    destruct (Z.geb_spec (pt_tier tower) 3); [lia|].
    destruct (Z.gtb_spec (pt_tier tower + 1) 3); [lia|].
    destruct (Z.ltb_spec (money (Store.game state))
                (Definitions.calculateUpgradeCost (towerTypeKey (pt_type tower))
                   (pt_tier tower) (pt_tier tower + 1))); [lia|reflexivity]. }
  rewrite Hs; clear Hs state'; unfold Store.getTowerById in *; cbn.
  split; [|split; [|split; [reflexivity|split; [apply length_map|reflexivity]]]].
  - rewrite find_upgraded, Hfind; cbn.
    apply find_some in Hfind as [_ Hid]; now rewrite Hid.
  - intros other Hne; rewrite find_upgraded.
    destruct (find (fun t => String.eqb (pt_id t) other) (towers (Store.game state)))
      as [t|] eqn:Hf; [|reflexivity].
    apply find_some in Hf as [_ Hid]; apply String.eqb_eq in Hid; cbn.
    destruct (String.eqb_spec (pt_id t) towerId); [congruence|reflexivity].
Qed.

Lemma X14_upgrade_accepted_witness :
  Store.getTowerById (Store.upgradeTower Examples.fieldStore "t1") "t1"
  = Some (Store.withTier Examples.frostTower 3)
  /\ money (Store.game (Store.upgradeTower Examples.fieldStore "t1")) = 20%Z.
Proof.
  destruct (X14_upgrade_accepted Examples.fieldStore "t1" Examples.frostTower
              eq_refl ltac:(cbn; lia) ltac:(cbn; lia))
    as (Hfind & _ & Hmoney & _).
  split; [exact Hfind|exact Hmoney].
Defined.

(** X15. Tiers stay in range.  If every tower of the store has tier 1, 2
    or 3, the same holds after any [buildTower], [upgradeTower] or
    [sellTower]. *)
Theorem X15_tiers_in_range (state : Store.GameStore) :
  Spec.tiersValid (towers (Store.game state)) ->
  (forall newId coord T state',
      Store.buildTower newId state coord T = Ok state' ->
      Spec.tiersValid (towers (Store.game state')))
  /\ (forall towerId,
        Spec.tiersValid (towers (Store.game (Store.upgradeTower state towerId))))
  /\ (forall towerId state',
        Store.sellTower state towerId = Ok state' ->
        Spec.tiersValid (towers (Store.game state'))).
Proof.
  unfold Spec.tiersValid; intros Hv; split; [|split].
  - intros newId coord T state' Hb.
    apply buildTower_cases in Hb as [->|(stats & _ & _ & _ & Ht & _)]; [exact Hv|].
    rewrite Ht; intros t Hin; apply in_app_or in Hin as [Hin|[<-|[]]]; [auto|cbn; lia].
  - intros towerId.
    destruct (upgradeTower_cases state towerId)
      as [->|(tower & Hfind & Hlt & _ & Ht & _)]; [exact Hv|].
    rewrite Ht; intros t Hin; apply in_map_iff in Hin as (t0 & <- & Hin).
    apply find_some in Hfind as [Hfound _]; apply Hv in Hfound.
    destruct (String.eqb (pt_id t0) towerId); [cbn; lia|auto].
  - intros towerId state' Hs.
    apply sellTower_cases in Hs as [->|(tower & _ & Ht & _)]; [exact Hv|].
    rewrite Ht; intros t Hin; apply filter_In in Hin as [Hin _]; auto.
Qed.

Lemma X15_tiers_in_range_witness :
  Spec.tiersValid
    (towers (Store.game (Store.upgradeTower Examples.fieldStore "t1"))).
Proof.
  apply (X15_tiers_in_range Examples.fieldStore).
  intros t [<-|[]]; cbn; lia.
Defined.

(** A refund is positive and strictly below what the tower has cost,
    whatever the tower's type and tier field. *)
Lemma refund_bounds (tower : PlacedTower) :
  (0 < Binary64.floor_times_0_7 (Spec.totalInvestment tower)
   < Spec.totalInvestment tower)%Z.
Proof.
  unfold Spec.totalInvestment.
  destruct (pt_type tower); cbn -[Z.leb Z.add Binary64.floor_times_0_7];
    destruct (Z.leb_spec 2 (pt_tier tower));
    destruct (Z.leb_spec 3 (pt_tier tower));
    cbn -[Binary64.floor_times_0_7]; vm_compute; split; reflexivity.
Qed.

Lemma upgradeCost_nonneg (k : string) (a b : Z) :
  (0 <= Definitions.calculateUpgradeCost k a b)%Z.
Proof.
  unfold Definitions.calculateUpgradeCost.
  destruct (lookup k Definitions.TOWER_DEFINITIONS) as [definition|] eqn:Hk; [|lia].
  destruct (a >=? b)%Z; [lia|].
  assert (Hkey : In k (keys Definitions.TOWER_DEFINITIONS)).
  { destruct (in_dec string_dec k (keys Definitions.TOWER_DEFINITIONS)) as [Hin|Hnin];
      [exact Hin|].
    rewrite (lookup_not_in k _ Hnin) in Hk; discriminate Hk. }
  cbn in Hkey.
  destruct Hkey as [<-|[<-|[<-|[]]]]; cbn in Hk; injection Hk as <-;
    unfold Definitions.findUpgrade; cbn -[Z.eqb];
    destruct (Z.eqb_spec 2 b); cbn -[Z.eqb]; try lia;
    destruct (Z.eqb_spec 3 b); cbn -[Z.eqb]; lia.
Qed.

(** X16. Money never goes negative.  From a store with non-negative money,
    [buildTower], [upgradeTower] and [sellTower] all lead to a store with
    non-negative money; a build or an upgrade never raises money and a
    sale never lowers it. *)
Theorem X16_money_nonnegative (state : Store.GameStore) :
  (0 <= money (Store.game state))%Z ->
  (forall newId coord T state',
      Store.buildTower newId state coord T = Ok state' ->
      (0 <= money (Store.game state') <= money (Store.game state))%Z)
  /\ (forall towerId,
        (0 <= money (Store.game (Store.upgradeTower state towerId))
         <= money (Store.game state))%Z)
  /\ (forall towerId state',
        Store.sellTower state towerId = Ok state' ->
        (money (Store.game state) <= money (Store.game state'))%Z).
Proof.
  intros H0; split; [|split].
  - intros newId coord T state' Hb.
    apply buildTower_cases in Hb as [->|(stats & Hs & Hle & _ & _ & Hm & _)]; [lia|].
    rewrite Hm.
    destruct (towerType_defined T) as (definition & Hd & _).
    destruct (calculateTowerStats_cost _ _ 1 Hd) as (stats' & Hs' & Hcost).
    rewrite Hs in Hs'; injection Hs' as <-.
    rewrite range_empty in Hcost by lia; cbn in Hcost.
    assert (0 <= td_baseCost definition)%Z
      by (destruct T; cbn in Hd; injection Hd as <-; cbn; lia).
    lia.
  - intros towerId.
    destruct (upgradeTower_cases state towerId)
      as [->|(tower & _ & _ & Hle & _ & Hm)]; [lia|].
    rewrite Hm.
    pose proof (upgradeCost_nonneg (towerTypeKey (pt_type tower))
                  (pt_tier tower) (pt_tier tower + 1)).
    lia.
  - intros towerId state' Hs.
    apply sellTower_cases in Hs as [->|(tower & _ & _ & Hm & _)]; [lia|].
    rewrite Hm; pose proof (refund_bounds tower); lia.
Qed.

Lemma X16_money_nonnegative_witness :
  (0 <= money (Store.game (Store.upgradeTower Examples.fieldStore "t1"))
   <= money (Store.game Examples.fieldStore))%Z.
Proof.
  apply (X16_money_nonnegative Examples.fieldStore); cbn; lia.
Defined.

Lemma find_app_fresh {A : Type} (f : A -> bool) (l : list A) (x : A) :
  (forall a, In a l -> f a = false) -> find f (l ++ [x]) = find f [x].
Proof.
  induction l as [|a l IH]; intros H; [reflexivity|]; cbn [app find].
  rewrite (H a (or_introl eq_refl)); apply IH; intros b Hb; apply H; now right.
Qed.

Lemma filter_all {T : Type} (keep : T -> bool) :
  forall items : list T,
    (forall x, In x items -> keep x = true) -> filter keep items = items.
Proof.
  intros items; induction items as [|x rest IH]; intros H; [reflexivity|]; cbn.
  rewrite (H x (or_introl eq_refl)); f_equal; apply IH; intros y Hy; apply H; now right.
Qed.

Lemma tier1_investment (T : TowerType) (stats : Definitions.TowerStats)
      (id : string) (coord : GridCoord) (last : option R) :
  Definitions.calculateTowerStats (towerTypeKey T) 1 = Ok stats ->
  Spec.totalInvestment
    {| pt_id := id; pt_gridCoord := coord; pt_type := T; pt_tier := 1;
       pt_lastAttackTime := last |}
  = Definitions.ts_cost stats.
Proof.
  intros Hs.
  destruct (towerType_defined T) as (definition & Hd & _).
  destruct (calculateTowerStats_cost _ _ 1 Hd) as (stats' & Hs' & Hcost).
  rewrite Hs in Hs'; injection Hs' as <-.
  rewrite range_empty in Hcost by lia; cbn in Hcost; rewrite Hcost.
  unfold Spec.totalInvestment; cbn [pt_type pt_tier]; rewrite Hd.
  destruct T; cbn in Hd; injection Hd as <-; reflexivity.
Qed.

(** X17. Build, then sell.  When a build is accepted under an id no tower
    of the store carries yet, selling that id straight away restores the
    tower list exactly, clears the selection the build had set, and
    leaves the money at [money - cost + floor(cost * 0.7)], which is
    strictly less than before. *)
Theorem X17_build_then_sell (state : Store.GameStore) (newId : string)
        (coord : GridCoord) (T : TowerType) (stats : Definitions.TowerStats) :
  Definitions.calculateTowerStats (towerTypeKey T) 1 = Ok stats ->
  (Definitions.ts_cost stats <= money (Store.game state))%Z ->
  Store.canBuildAt state coord = Ok true ->
  (forall tower, In tower (towers (Store.game state)) -> pt_id tower <> newId) ->
  exists built sold,
    Store.buildTower newId state coord T = Ok built
    /\ Store.selectedTowerId built = Some newId
    /\ Store.sellTower built newId = Ok sold
    /\ towers (Store.game sold) = towers (Store.game state)
    /\ money (Store.game sold)
       = (money (Store.game state) - Definitions.ts_cost stats
          + Binary64.floor_times_0_7 (Definitions.ts_cost stats))%Z
    /\ (money (Store.game sold) < money (Store.game state))%Z
    /\ Store.selectedTowerId sold = None.
Proof.
  intros Hs Hmoney Hc Hfresh.
  set (newTower := {| pt_id := newId; pt_gridCoord := coord; pt_type := T;
                      pt_tier := 1; pt_lastAttackTime := None |}).
  assert (Hinv : Spec.totalInvestment newTower = Definitions.ts_cost stats)
    by (apply tier1_investment; exact Hs).
  unfold Store.buildTower; rewrite Hs; cbn.
  destruct (Z.ltb_spec (money (Store.game state)) (Definitions.ts_cost stats)); [lia|].
  rewrite Hc; cbn; fold newTower.
  eexists; eexists; split; [reflexivity|]; split; [reflexivity|].
  assert (Hfind : find (fun t => String.eqb (pt_id t) newId)
                       (towers (Store.game state) ++ [newTower]) = Some newTower).
  { rewrite find_app_fresh; [cbn; now rewrite String.eqb_refl|].
    intros t Hin; apply String.eqb_neq; auto. }
  assert (Hfilter : filter (fun t => negb (String.eqb (pt_id t) newId))
                           (towers (Store.game state) ++ [newTower])
                    = towers (Store.game state)).
  { rewrite filter_app; cbn; rewrite String.eqb_refl; cbn; rewrite app_nil_r.
    apply filter_all; intros t Hin.
    apply negb_true_iff, String.eqb_neq; auto. }
  unfold Store.sellTower, Store.getTowerById; cbn [Store.game Store.withTowersMoney towers].
  rewrite Hfind, store_calculateSellValue_spec, Hinv.
  cbn -[Binary64.floor_times_0_7 Z.add Z.sub].
  rewrite Hfilter.
  split; [reflexivity|]; split; [reflexivity|]; split; [reflexivity|].
  split; [|reflexivity].
  pose proof (refund_bounds newTower) as Hb; rewrite Hinv in Hb.
  cbn [Store.game Store.withTowersMoney money]; lia.
Qed.

Lemma X17_build_then_sell_witness :
  exists built sold,
    Store.buildTower "t2" Examples.fieldStore {| gx := 3; gy := 4 |} Arrow = Ok built
    /\ Store.sellTower built "t2" = Ok sold
    /\ towers (Store.game sold) = [Examples.frostTower]
    /\ money (Store.game sold) = 92%Z.
Proof.
  destruct (calculateTowerStats_cost "arrow" _ 1 eq_refl) as (stats & Hs & Hcost).
  rewrite range_empty in Hcost by lia; cbn in Hcost.
  assert (Hfresh : forall tower,
             In tower (towers (Store.game Examples.fieldStore)) ->
             pt_id tower <> "t2")
    by (intros t [<-|[]]; discriminate).
  destruct (X17_build_then_sell Examples.fieldStore "t2" {| gx := 3; gy := 4 |}
              Arrow stats Hs ltac:(rewrite Hcost; cbn; lia) eq_refl Hfresh)
    as (built & sold & Hb & _ & Hsell & Ht & Hm & _).
  exists built, sold; rewrite Hcost in Hm; auto.
Defined.

(** X18. The upgrade preview tells the truth about [upgradeTower].  For a
    tower of the store: at tier 3 or above there is no preview and the
    upgrade is refused; below tier 3 there is a preview, its cost is the
    amount an upgrade would charge, and its [canAfford] flag is true
    exactly when [upgradeTower] goes through, in which case the money
    drops by the previewed cost. *)
Theorem X18_preview_matches_upgrade (state : Store.GameStore) (towerId : string)
        (tower : PlacedTower) :
  Store.getTowerById state towerId = Some tower ->
  let key := towerTypeKey (pt_type tower) in
  let preview :=
    Definitions.getUpgradePreview key (pt_tier tower) (money (Store.game state)) in
  ((3 <= pt_tier tower)%Z ->
   preview = Ok None /\ Store.upgradeTower state towerId = state)
  /\ ((pt_tier tower < 3)%Z ->
      exists pv,
        preview = Ok (Some pv)
        /\ Definitions.pv_cost pv
           = Definitions.calculateUpgradeCost key (pt_tier tower) (pt_tier tower + 1)
        /\ (Definitions.canAfford pv = true ->
            Store.getTowerById (Store.upgradeTower state towerId) towerId
            = Some (Store.withTier tower (pt_tier tower + 1))
            /\ money (Store.game (Store.upgradeTower state towerId))
               = (money (Store.game state) - Definitions.pv_cost pv)%Z)
        /\ (Definitions.canAfford pv = false ->
            Store.upgradeTower state towerId = state)).
Proof.
  intros Hfind key preview; split.
  - intros Hge; split.
    + subst preview; unfold Definitions.getUpgradePreview; cbv zeta.
      destruct (Z.gtb_spec (pt_tier tower + 1) 3); [reflexivity|lia].
    + unfold Store.upgradeTower; rewrite Hfind.
      destruct (Z.geb_spec (pt_tier tower) 3); [reflexivity|lia].
  - intros Hlt.
    destruct (calculateTowerStats_total (pt_type tower) (pt_tier tower)) as (cur & Hcur).
    destruct (calculateTowerStats_total (pt_type tower) (pt_tier tower + 1))
      as (nxt & Hnxt).
    subst preview; unfold Definitions.getUpgradePreview; cbv zeta.
    destruct (Z.gtb_spec (pt_tier tower + 1) 3); [lia|].
    subst key; rewrite Hcur, Hnxt; cbn.
    eexists; split; [reflexivity|]; cbn.
    split; [reflexivity|].
    set (cost := Definitions.calculateUpgradeCost (towerTypeKey (pt_type tower))
                   (pt_tier tower) (pt_tier tower + 1)).
    split.
    + intros Hafford; apply Z.geb_le in Hafford.
      unfold Store.upgradeTower, Store.getTowerById in *; rewrite Hfind.
      destruct (Z.geb_spec (pt_tier tower) 3); [lia|].
      destruct (Z.gtb_spec (pt_tier tower + 1) 3); [lia|].
      fold cost; destruct (Z.ltb_spec (money (Store.game state)) cost); [lia|].
      cbn; split; [|reflexivity].
      rewrite find_upgraded, Hfind; cbn.
      apply find_some in Hfind as [_ Hid]; now rewrite Hid.
    + intros Hafford.
      assert (money (Store.game state) < cost)%Z
        by (destruct (Z.geb_spec (money (Store.game state)) cost); [discriminate|lia]).
      unfold Store.upgradeTower; rewrite Hfind.
      destruct (Z.geb_spec (pt_tier tower) 3); [reflexivity|].
      destruct (Z.gtb_spec (pt_tier tower + 1) 3); [reflexivity|].
      fold cost; destruct (Z.ltb_spec (money (Store.game state)) cost); [reflexivity|lia].
Qed.

Lemma X18_preview_matches_upgrade_witness :
  exists pv,
    Definitions.getUpgradePreview "frost" 2 100 = Ok (Some pv)
    /\ Definitions.pv_cost pv = 80%Z
    /\ (Definitions.canAfford pv = true ->
        money (Store.game (Store.upgradeTower Examples.fieldStore "t1")) = 20%Z).
Proof.
  destruct (X18_preview_matches_upgrade Examples.fieldStore "t1" Examples.frostTower
              eq_refl) as [_ Hlow].
  destruct (Hlow ltac:(cbn; lia)) as (pv & Hpv & Hcost & Hyes & _).
  exists pv; split; [exact Hpv|]; split; [exact Hcost|].
  intros Hafford; destruct (Hyes Hafford) as [_ Hm].
  rewrite Hm, Hcost; reflexivity.
Defined.

(** ** Tower statistics across tiers *)

Lemma range_snoc (lo hi : Z) :
  (lo <= hi + 1)%Z -> Js.range lo (hi + 1) = Js.range lo hi ++ [(hi + 1)%Z].
Proof.
  intros H; unfold Js.range.
  replace (Z.to_nat (hi + 1 - lo + 1)) with (S (Z.to_nat (hi - lo + 1))) by lia.
  rewrite seq_S, map_app; cbn; do 2 f_equal; lia.
Qed.

(** Every upgrade record of the catalog multiplies by at least one and
    costs something; every base statistic is positive. *)
Lemma catalog_upgrades (T : TowerType) (definition : TowerDefinition) :
  lookup (towerTypeKey T) Definitions.TOWER_DEFINITIONS = Some definition ->
  (0 <= td_damage definition /\ 0 <= td_range definition
   /\ 0 <= td_attackRate definition)%R
  /\ (forall t upgrade,
        Definitions.findUpgrade definition t = Some upgrade ->
        (1 <= up_damageMultiplier upgrade
         /\ 1 <= Js.or_else (up_rangeMultiplier upgrade) 1
         /\ 1 <= Js.or_else (up_attackRateMultiplier upgrade) 1)%R
        /\ (0 < up_cost upgrade)%Z
        /\ (2 <= t <= 3)%Z).
Proof.
  intros Hd; destruct T; cbn in Hd; injection Hd as <-;
    (split; [cbn; lra|]); intros t upgrade Hf;
    pose proof Hf as Hin; apply find_some in Hin as [Hin Ht];
    apply Z.eqb_eq in Ht;
    cbn in Hin; destruct Hin as [<-|[<-|[]]]; cbn -[Js.or_else] in Ht |- *;
    rewrite !or_else_nonzero by lra; (split; [lra|lia]).
Qed.

Lemma grows (x m : R) : (0 <= x -> 1 <= m -> x <= x * m /\ 0 <= x * m)%R.
Proof.
  intros Hx Hm.
  assert (x * 1 <= x * m)%R by (apply Rmult_le_compat_l; assumption).
  lra.
Qed.

Lemma applyUpgrade_grows (T : TowerType) (definition : TowerDefinition)
      (d r a : R) (c t : Z) :
  lookup (towerTypeKey T) Definitions.TOWER_DEFINITIONS = Some definition ->
  (0 <= d)%R -> (0 <= r)%R -> (0 <= a)%R ->
  let '(d', r', a', c') := Definitions.applyUpgrade definition (d, r, a, c) t in
  (d <= d' /\ r <= r' /\ a <= a')%R /\ (c <= c')%Z.
Proof.
  intros Hd H0 H1 H2; unfold Definitions.applyUpgrade.
  destruct (Definitions.findUpgrade definition t) as [upgrade|] eqn:Hf;
    [|split; [lra|lia]].
  destruct (proj2 (catalog_upgrades T definition Hd) t upgrade Hf)
    as ((Hm1 & Hm2 & Hm3) & Hc & _).
  pose proof (grows d _ H0 Hm1); pose proof (grows r _ H1 Hm2);
    pose proof (grows a _ H2 Hm3).
  split; [tauto|lia].
Qed.

Lemma stats_nonneg (T : TowerType) (definition : TowerDefinition) (l : list Z)
      (d r a : R) (c : Z) :
  lookup (towerTypeKey T) Definitions.TOWER_DEFINITIONS = Some definition ->
  (0 <= d)%R -> (0 <= r)%R -> (0 <= a)%R ->
  let '(d', r', a', _) :=
    fold_left (Definitions.applyUpgrade definition) l (d, r, a, c) in
  (0 <= d' /\ 0 <= r' /\ 0 <= a')%R.
Proof.
  intros Hd; revert d r a c; induction l as [|t l IH]; intros d r a c H0 H1 H2;
    cbn [fold_left]; [tauto|].
  pose proof (applyUpgrade_grows T definition d r a c t Hd H0 H1 H2) as Hg.
  destruct (Definitions.applyUpgrade definition (d, r, a, c) t) as [[[d' r'] a'] c'].
  apply IH; lra.
Qed.

(** X19. Upgrades never weaken a tower.  For every tower type and every
    tier value, [calculateTowerStats] succeeds at that tier and at the
    next, and the next tier has at least the damage, range, attack rate,
    damage per second and cost of the current one.  Tier values below 1
    and from 3 upwards have no further upgrade: there the next tier has
    exactly the same statistics. *)
Theorem X19_upgrades_never_weaken (T : TowerType) (tier : Z) :
  exists current upgraded,
    Definitions.calculateTowerStats (towerTypeKey T) tier = Ok current
    /\ Definitions.calculateTowerStats (towerTypeKey T) (tier + 1) = Ok upgraded
    /\ (Definitions.ts_damage current <= Definitions.ts_damage upgraded)%R
    /\ (Definitions.ts_range current <= Definitions.ts_range upgraded)%R
    /\ (Definitions.ts_attackRate current <= Definitions.ts_attackRate upgraded)%R
    /\ (Definitions.ts_dps current <= Definitions.ts_dps upgraded)%R
    /\ (Definitions.ts_cost current <= Definitions.ts_cost upgraded)%Z
    /\ ((tier < 1 \/ 3 <= tier)%Z -> upgraded = current).
Proof.
  destruct (towerType_defined T) as (definition & Hd & _).
  destruct (catalog_upgrades T definition Hd) as ((Hb0 & Hb1 & Hb2) & Hup).
  unfold Definitions.calculateTowerStats; rewrite Hd; cbv zeta.
  pose proof (stats_nonneg T definition (Js.range 2 tier) _ _ _
                (td_baseCost definition) Hd Hb0 Hb1 Hb2) as Hnn.
  destruct (Z_lt_le_dec tier 1) as [Hlow|Hge].
  { rewrite !range_empty by lia; cbn.
    eexists; eexists; split; [reflexivity|]; split; [reflexivity|]; cbn.
    repeat split; try lra; try lia. }
  rewrite range_snoc by lia; rewrite fold_left_app; cbn [fold_left].
  destruct (fold_left _ (Js.range 2 tier) _) as [[[d r] a] c].
  destruct Hnn as (H0 & H1 & H2).
  pose proof (applyUpgrade_grows T definition d r a c (tier + 1) Hd H0 H1 H2) as Hg.
  assert (Hhigh : (3 <= tier)%Z ->
                  Definitions.applyUpgrade definition (d, r, a, c) (tier + 1)
                  = (d, r, a, c)).
  { intros H3; unfold Definitions.applyUpgrade.
    destruct (Definitions.findUpgrade definition (tier + 1)) as [upgrade|] eqn:Hf;
      [|reflexivity].
    destruct (Hup _ _ Hf) as (_ & _ & Hrange); lia. }
  destruct (Definitions.applyUpgrade definition (d, r, a, c) (tier + 1))
    as [[[d' r'] a'] c'].
  destruct Hg as ((Hd' & Hr' & Ha') & Hc').
  eexists; eexists; split; [reflexivity|]; split; [reflexivity|]; cbn.
  do 3 (split; [assumption|]).
  split; [apply Rmult_le_compat; assumption|].
  split; [assumption|].
  intros [Hlt|H3]; [lia|].
  specialize (Hhigh H3); injection Hhigh as -> -> -> ->; reflexivity.
Qed.

(** ** The reducer's control actions *)

Lemma resume_after_pause (state : GameState) :
  isPaused state = false ->
  Sim.withPaused (Sim.withPaused state true) false = state.
Proof. destruct state; cbn; intros ->; reflexivity. Qed.

Lemma paused_ticks (state : GameState) (ticks : list (Sim.IdSource * R))
      (rest : list (Sim.IdSource * Sim.GameAction)) :
  isPaused state = true ->
  Sim.runActions state
    (map (fun tick => (fst tick, Sim.Tick (snd tick))) ticks ++ rest)
  = Sim.runActions state rest.
Proof.
  intros Hp; induction ticks as [|[ids dt] ticks IH]; [reflexivity|].
  cbn [map app Sim.runActions fst snd Sim.gameReducer].
  rewrite advanceTick_shortCircuited by (now left); exact IH.
Qed.

(** X20. Pausing freezes the game.  From a game that is not paused, the
    action sequence pause, any number of ticks with any time steps,
    resume, gives back exactly the state it started from. *)
Theorem X20_pause_freezes (state : GameState) (ids0 ids1 : Sim.IdSource)
        (ticks : list (Sim.IdSource * R)) :
  isPaused state = false ->
  Sim.runActions state
    ((ids0, Sim.Pause)
       :: map (fun tick => (fst tick, Sim.Tick (snd tick))) ticks
       ++ [(ids1, Sim.Resume)])
  = Ok state.
Proof.
  intros Hp; cbn [Sim.runActions Sim.gameReducer Js.bind].
  rewrite paused_ticks by reflexivity.
  cbn; now rewrite resume_after_pause.
Qed.

Lemma X20_pause_freezes_witness :
  Sim.runActions Examples.running
    [ (Examples.ids, Sim.Pause); (Examples.ids, Sim.Tick 0.5);
      (Examples.ids, Sim.Tick 30); (Examples.ids, Sim.Resume) ]
  = Ok Examples.running.
Proof.
  exact (X20_pause_freezes Examples.running Examples.ids Examples.ids
           [(Examples.ids, 0.5%R); (Examples.ids, 30%R)] eq_refl).
Defined.

Lemma clamp_bounds (speed : R) :
  (0.5 <= Rmax 0.5 (Rmin 4 speed) <= 4)%R
  /\ ((0.5 <= speed <= 4)%R -> Rmax 0.5 (Rmin 4 speed) = speed)
  /\ ((speed <= 0.5)%R -> Rmax 0.5 (Rmin 4 speed) = 0.5%R)
  /\ ((4 <= speed)%R -> Rmax 0.5 (Rmin 4 speed) = 4%R).
Proof.
  unfold Rmax, Rmin.
  destruct (Rle_dec 4 speed); destruct (Rle_dec 0.5 _); repeat split; intros; lra.
Qed.

(** X21. The speed setting is clamped.  The reducer's [set-speed] action
    and the store's [setGameSpeed] store the same speed; it lies between
    0.5 and 4, equals the requested speed when that is already in the
    interval and the nearer end otherwise; setting the stored speed again
    changes nothing; no other field of the game state is touched. *)
Theorem X21_speed_clamped (ids : Sim.IdSource) (store : Store.GameStore) (speed : R) :
  exists state',
    Sim.gameReducer ids (Store.game store) (Sim.SetSpeed speed) = Ok state'
    /\ Store.game (Store.setGameSpeed store speed) = state'
    /\ (0.5 <= gameSpeed state' <= 4)%R
    /\ ((0.5 <= speed <= 4)%R -> gameSpeed state' = speed)
    /\ ((speed <= 0.5)%R -> gameSpeed state' = 0.5%R)
    /\ ((4 <= speed)%R -> gameSpeed state' = 4%R)
    /\ Sim.gameReducer ids state' (Sim.SetSpeed (gameSpeed state')) = Ok state'
    /\ Sim.withGameSpeed state' (gameSpeed (Store.game store)) = Store.game store.
Proof.
  eexists; split; [reflexivity|]; split; [reflexivity|].
  destruct (clamp_bounds speed) as (Hb & Hin & Hlo & Hhi).
  cbn [gameSpeed Sim.withGameSpeed].
  do 4 (split; [assumption|]).
  split.
  - cbn [Sim.gameReducer gameSpeed Sim.withGameSpeed].
    destruct (clamp_bounds (Rmax 0.5 (Rmin 4 speed))) as (_ & Hfix & _).
    rewrite (Hfix Hb); reflexivity.
  - destruct (Store.game store); reflexivity.
Qed.

(** ** The towers stage *)

Lemma fold_keeps_member (f : Mob -> Mob -> Mob) (l : list Mob) (c : Mob) :
  (forall a m, f a m = a \/ f a m = m) ->
  In (fold_left f l c) (c :: l).
Proof.
  intros Hf; revert c; induction l as [|m l IH]; intros c; cbn [fold_left].
  - now left.
  - destruct (IH (f c m)) as [Heq|Hin]; [|right; now right].
    rewrite <- Heq; destruct (Hf c m) as [->| ->]; [now left|right; now left].
Qed.

Lemma findTarget_first_In (tower : Tower) (mobs : list Mob) (target : Mob) :
  Targeting.findTarget tower mobs (Some First) = Some target ->
  In target mobs /\ Spec.eligible tower target.
Proof.
  unfold Targeting.findTarget, Targeting.getFirstMob, Targeting.reduce; cbv zeta.
  destruct (filter (Targeting.inRange tower) mobs) as [|m rest] eqn:Hf;
    [discriminate|]; cbn [List.length Nat.eqb].
  intros H; injection H as H.
  assert (Hin : In target (filter (Targeting.inRange tower) mobs)).
  { rewrite Hf, <- H; apply fold_keeps_member.
    intros a x; destruct (Js.gtb _ _); auto. }
  apply filter_In in Hin as [Hin Hr]; split; [exact Hin|].
  now apply inRange_eligible.
Qed.

Lemma findTarget_no_mobs (tower : Tower) (strategy : option TargetingStrategy) :
  Targeting.findTarget tower [] strategy = None.
Proof. reflexivity. Qed.

Lemma updateTowers_step_inv (ids : Sim.IdSource) (state : GameState)
      (ts ts' : list PlacedTower) (ps ps' : list Projectile) (placedTower : PlacedTower) :
  In placedTower (towers state) ->
  Sim.updateTowers_step ids state (ts, ps) placedTower = Ok (ts', ps') ->
  exists tower shots,
    ts' = ts ++ [tower] /\ ps' = ps ++ shots
    /\ Spec.placement tower = Spec.placement placedTower
    /\ (shots = [] /\ tower = placedTower
        \/ (exists shot,
               shots = [shot] /\ Spec.freshShot state shot
               /\ pt_lastAttackTime tower = Some (simulationTime state))).
Proof.
  intros Hin; unfold Sim.updateTowers_step.
  destruct (calculateTowerStats_total (pt_type placedTower) (pt_tier placedTower))
    as (stats & Hstats); rewrite Hstats.
  destruct (towerType_defined (pt_type placedTower)) as (definition & -> & _).
  cbn [Js.bind Js.defined].
  destruct (Targeting.canTowerAttack _ _) eqn:Hready.
  2:{ intros H; injection H as <- <-.
      exists placedTower, []; rewrite app_nil_r.
      split; [reflexivity|]; split; [reflexivity|]; split; [reflexivity|].
      left; split; reflexivity. }
  unfold Targeting.canTowerAttack, Js.geb in Hready; cbv zeta in Hready.
  cbn [tower_lastAttackTime tower_attackRate] in Hready.
  apply leb_true_iff in Hready.
  destruct (Targeting.findTarget _ _ _) as [target|] eqn:Hf.
  2:{ intros H; injection H as <- <-.
      exists placedTower, []; rewrite app_nil_r.
      split; [reflexivity|]; split; [reflexivity|]; split; [reflexivity|].
      left; split; reflexivity. }
  intros H; injection H as <- <-.
  apply findTarget_first_In in Hf as [Hmob [Hreach Hend]].
  cbn [tower_pos tower_range] in Hreach.
  eexists; eexists; split; [reflexivity|]; split; [reflexivity|].
  split; [reflexivity|].
  right; eexists; split; [reflexivity|]; split; [|reflexivity].
  split; [reflexivity|].
  exists placedTower, target, stats; cbn -[Js.or_else]; auto 12.
Qed.

Lemma updateTowers_fold_inv (ids : Sim.IdSource) (state : GameState)
      (l : list PlacedTower) :
  (forall t, In t l -> In t (towers state)) ->
  forall ts ps,
  exists ts' shots,
    Sim.foldM (Sim.updateTowers_step ids state) l (ts, ps) = Ok (ts ++ ts', ps ++ shots)
    /\ map Spec.placement ts' = map Spec.placement l
    /\ (List.length shots <= List.length l)%nat
    /\ Forall (Spec.freshShot state) shots
    /\ Forall (fun t => In t l \/ pt_lastAttackTime t = Some (simulationTime state)) ts'
    /\ (mobs state = [] -> ts' = l /\ shots = []).
Proof.
  induction l as [|t l IH]; intros Hsub ts ps.
  - exists [], []; cbn; rewrite !app_nil_r; repeat split; auto.
  - cbn [Sim.foldM].
    destruct (updateTowers_step_total ids state (ts, ps) t) as ([ts1 ps1] & Hstep).
    rewrite Hstep; cbn [Js.bind].
    destruct (updateTowers_step_inv ids state ts ts1 ps ps1 t
                (Hsub t (or_introl eq_refl)) Hstep)
      as (tower & shots & -> & -> & Hpl & Hcase).
    destruct (IH (fun x Hx => Hsub x (or_intror Hx)) (ts ++ [tower]) (ps ++ shots))
      as (ts' & shots' & Hfold & Hmap & Hlen & Hfresh & Hlast & Hempty).
    exists (tower :: ts'), (shots ++ shots').
    rewrite Hfold, <- !app_assoc; cbn [app].
    split; [reflexivity|].
    split; [cbn; now rewrite Hpl, Hmap|].
    assert (Hweak : Forall (fun t0 => In t0 (t :: l)
                                      \/ pt_lastAttackTime t0 = Some (simulationTime state))
                           ts').
    { eapply Forall_impl; [|exact Hlast]; intros x [Hx|Hx]; [left; now right|now right]. }
    destruct Hcase as [[-> ->]|(shot & -> & Hshot & Htime)].
    + cbn [app List.length]; split; [lia|]; split; [exact Hfresh|].
      split; [constructor; [left; now left|exact Hweak]|].
      intros Hm; destruct (Hempty Hm) as [-> ->]; auto.
    + cbn [app List.length]; split; [lia|].
      split; [constructor; assumption|].
      split; [constructor; [now right|exact Hweak]|].
      intros Hm; destruct Hshot as (_ & _ & target & _ & _ & Hmob & _).
      rewrite Hm in Hmob; destruct Hmob.
Qed.

(** X22. The towers stage.  [updateTowers] always returns a state.  It
    keeps every tower's id, coordinate, type and tier, in order; a tower
    is either left as it was or has its last attack time set to the
    current simulation time.  Existing projectiles are kept and at most
    one new projectile per tower is appended; each new projectile is
    unhit, carries its tower's damage, starts at the centre of its tower's
    tile, comes from a tower whose cooldown [1 / attackRate] has elapsed
    and is aimed at a mob of the state that is within that tower's range
    and has not reached the end.  Without mobs nothing changes at all;
    mobs, money and lives are never touched. *)
Theorem X22_updateTowers (ids : Sim.IdSource) (state : GameState) :
  exists updatedTowers shots,
    Sim.updateTowers ids state
    = Ok (Sim.withTowersProjectiles state updatedTowers
            (projectiles state ++ shots))
    /\ map Spec.placement updatedTowers = map Spec.placement (towers state)
    /\ Forall (fun t => In t (towers state)
                        \/ pt_lastAttackTime t = Some (simulationTime state))
              updatedTowers
    /\ (List.length shots <= List.length (towers state))%nat
    /\ Forall (Spec.freshShot state) shots
    /\ (mobs state = [] -> Sim.updateTowers ids state = Ok state).
Proof.
  destruct (updateTowers_fold_inv ids state (towers state) (fun t H => H)
              [] (projectiles state))
    as (ts' & shots & Hfold & Hmap & Hlen & Hfresh & Hlast & Hempty).
  exists ts', shots; unfold Sim.updateTowers; rewrite Hfold; cbn.
  split; [reflexivity|]; split; [exact Hmap|]; split; [exact Hlast|].
  split; [exact Hlen|]; split; [exact Hfresh|].
  intros Hm; destruct (Hempty Hm) as [-> ->]; rewrite app_nil_r.
  destruct state; reflexivity.
Qed.

(** ** The mobs stage *)

Lemma updateMobEffects_fields (mob : Mob) (now : R) :
  mob_id (Effects.updateMobEffects mob now) = mob_id mob
  /\ mob_hp (Effects.updateMobEffects mob now) = mob_hp mob
  /\ mob_bounty (Effects.updateMobEffects mob now) = mob_bounty mob
  /\ mob_pathProgress (Effects.updateMobEffects mob now) = mob_pathProgress mob.
Proof.
  unfold Effects.updateMobEffects.
  destruct (slowUntil (mob_status mob)); [|auto].
  destruct (_ && _); auto.
Qed.

Lemma updateMobs_step_inv (state : GameState) (dt : R) (acc : list Mob) (n : Z)
      (mob : Mob) :
  exists kept,
    fst (Sim.updateMobs_step state dt (acc, n) mob) = acc ++ kept
    /\ (kept = [] /\ (0 <= mob_pathProgress mob)%R
        \/ exists after, kept = [after] /\ Spec.mobStepped state dt mob after).
Proof.
  unfold Sim.updateMobs_step.
  destruct (Js.ltb (mob_pathProgress mob) 0) eqn:Hneg.
  - apply ltb_true_iff in Hneg.
    eexists; split; [reflexivity|]; right; eexists; split; [reflexivity|].
    unfold Spec.mobStepped; cbn.
    repeat split; try reflexivity; intros; lra.
  - apply ltb_false_iff in Hneg; cbv zeta.
    destruct (updateMobEffects_fields mob (simulationTime state))
      as (Hid & Hhp & Hbounty & _).
    destruct (Sim.justReachedEnd (Sim.movedMob state dt mob)) eqn:Hreached.
    + cbn; exists []; rewrite app_nil_r; auto.
    + destruct (negb (mob_reachedEnd (Sim.movedMob state dt mob))
                && Js.gtb (mob_hp (Sim.movedMob state dt mob)) 0) eqn:Hkeep;
        cbn [fst]; [|exists []; rewrite app_nil_r; auto].
      apply andb_true_iff in Hkeep as [Hend Hhp0].
      apply negb_true_iff in Hend.
      unfold Js.gtb in Hhp0; apply ltb_true_iff in Hhp0.
      unfold Sim.justReachedEnd in Hreached; rewrite Hend in Hreached.
      cbn [negb] in Hreached; rewrite andb_true_r in Hreached.
      unfold Js.geb in Hreached; apply leb_false_iff in Hreached.
      eexists; split; [reflexivity|]; right; eexists; split; [reflexivity|].
      unfold Spec.mobStepped.
      split; [exact Hid|]; split; [exact Hhp|]; split; [exact Hbounty|].
      split; [intros; lra|]; intros _.
      split; [exact Hend|]; split; [exact Hhp0|]; split; [exact Hreached|].
      reflexivity.
Qed.

Lemma updateMobs_fold_inv (state : GameState) (dt : R) (l : list Mob) :
  forall acc n,
  exists kept,
    fst (fold_left (Sim.updateMobs_step state dt) l (acc, n)) = acc ++ kept
    /\ (List.length kept <= List.length l)%nat
    /\ Forall (fun after =>
                 exists before, In before l /\ Spec.mobStepped state dt before after)
              kept
    /\ ((forall mob, In mob l -> (mob_pathProgress mob < 0)%R) ->
        List.length kept = List.length l)
    /\ (forall mob, In mob l -> (mob_pathProgress mob < 0)%R ->
        exists after, In after kept /\ Spec.mobStepped state dt mob after).
Proof.
  induction l as [|mob l IH]; intros acc n; cbn [fold_left].
  - exists []; rewrite app_nil_r; cbn.
    split; [reflexivity|]; split; [lia|]; split; [constructor|].
    split; [reflexivity|intros m []].
  - destruct (updateMobs_step_inv state dt acc n mob) as (kept1 & Hstep & Hcase).
    destruct (Sim.updateMobs_step state dt (acc, n) mob) as [acc1 n1];
      cbn [fst] in Hstep; subst acc1.
    destruct (IH (acc ++ kept1) n1) as (kept & Hfold & Hlen & Hall & Hfull & Hwait).
    exists (kept1 ++ kept); rewrite Hfold, app_assoc.
    split; [reflexivity|].
    assert (Hrest : forall m, In m l -> (mob_pathProgress m < 0)%R ->
                      exists after,
                        In after (kept1 ++ kept) /\ Spec.mobStepped state dt m after).
    { intros m Hm Hneg; destruct (Hwait m Hm Hneg) as (a & Ha & Hs).
      exists a; split; [apply in_or_app; now right|exact Hs]. }
    assert (Hweak : Forall (fun after =>
                              exists before,
                                In before (mob :: l)
                                /\ Spec.mobStepped state dt before after) kept).
    { eapply Forall_impl; [|exact Hall].
      intros a (b & Hb & Hs); exists b; split; [now right|exact Hs]. }
    destruct Hcase as [[-> Hpos]|(after & -> & Hs)].
    + cbn [app List.length] in *; split; [lia|]; split; [exact Hweak|].
      split; [intros Hneg; specialize (Hneg mob (or_introl eq_refl)); lra|].
      intros m [<-|Hm] Hneg; [lra|now apply Hrest].
    + split; [cbn [app List.length]; lia|]; split.
      * constructor; [|exact Hweak]. exists mob; split; [now left|exact Hs].
      * split.
        -- intros Hneg; cbn [app List.length]; f_equal; apply Hfull.
           intros m Hm; apply Hneg; now right.
        -- intros m [<-|Hm] Hneg; [|now apply Hrest].
           exists after; split; [now left|exact Hs].
Qed.

Lemma crossing_is_on_path (state : GameState) (dt : R) (l : list Mob) :
  filter (Spec.crossesEnd state dt)
         (filter (fun mob => negb (Js.ltb (mob_pathProgress mob) 0)) l)
  = filter (Spec.crossesEnd state dt) l.
Proof.
  induction l as [|m l IH]; [reflexivity|]; cbn [filter].
  destruct (Js.ltb (mob_pathProgress m) 0) eqn:Hw; cbn [negb filter].
  - unfold Spec.crossesEnd at 2; rewrite Hw; exact IH.
  - now rewrite IH.
Qed.

(** X23. The mobs stage.  On a path of positive length (so that the
    progress increment is a number), [updateMobs] never adds a mob.
    Every mob it keeps comes from a mob of the state with the same id,
    hit points and bounty.  A kept mob that was still waiting to spawn
    (negative progress) has its progress raised by the time step and is
    otherwise untouched.  Waiting mobs are never removed, whatever else
    is in the list: each waiting mob of the state has its counted-down
    copy among the mobs kept.  Waiting mobs cost no life: the lives
    become [max(0, lives - n)] with [n] counted among the mobs on the
    path only.  A kept mob that was on the path has not reached the end,
    has positive hit points, progress below 1 and stands at the path
    position of its progress.  Money, towers, projectiles and the clock
    are not touched. *)
Theorem X23_updateMobs (state : GameState) (dt : R) :
  (0 < Grid.calculatePathLength (pathCoords state)
         (tileSize Definitions.GAME_CONFIG))%R ->
  let state' := Sim.updateMobs state dt in
  (List.length (mobs state') <= List.length (mobs state))%nat
  /\ Forall (fun after =>
               exists before,
                 In before (mobs state) /\ Spec.mobStepped state dt before after)
            (mobs state')
  /\ ((forall mob, In mob (mobs state) -> (mob_pathProgress mob < 0)%R) ->
      List.length (mobs state') = List.length (mobs state)
      /\ lives state' = Z.max 0 (lives state))
  /\ (forall mob, In mob (mobs state) -> (mob_pathProgress mob < 0)%R ->
      exists after,
        In after (mobs state') /\ Spec.mobStepped state dt mob after)
  /\ lives state'
     = Z.max 0
         (lives state
          - Z.of_nat
              (List.length
                 (filter (Spec.crossesEnd state dt)
                    (filter (fun mob => negb (Js.ltb (mob_pathProgress mob) 0))
                            (mobs state)))))
  /\ money state' = money state
  /\ towers state' = towers state
  /\ projectiles state' = projectiles state
  /\ simulationTime state' = simulationTime state
  /\ phase state' = phase state.
Proof.
  intros _ state'; subst state'; unfold Sim.updateMobs.
  destruct (updateMobs_fold_inv state dt (mobs state) [] 0%Z)
    as (kept & Hfold & Hlen & Hall & Hfull & Hwait).
  pose proof (updateMobs_step_lost state dt (mobs state) ([], 0%Z)) as Hlost.
  destruct (fold_left _ _ _) as [ms lost]; cbn [fst snd app] in *; subst ms.
  cbn [Sim.withMobsLives mobs lives money towers projectiles simulationTime phase].
  split; [exact Hlen|]; split; [exact Hall|].
  split; [|split; [exact Hwait|split;
                   [rewrite crossing_is_on_path, Hlost; f_equal; lia|repeat split]]].
  intros Hneg; split; [now apply Hfull|].
  rewrite Hlost.
  replace (filter (Spec.crossesEnd state dt) (mobs state)) with (@nil Mob); [f_equal; cbn; lia|].
  symmetry; clear -Hneg; induction (mobs state) as [|m l IH]; [reflexivity|]; cbn.
  unfold Spec.crossesEnd at 1.
  rewrite (proj2 (ltb_true_iff _ _) (Hneg m (or_introl eq_refl))); cbn.
  apply IH; intros x Hx; apply Hneg; now right.
Qed.

Lemma X23_updateMobs_witness :
  exists after,
    In after (mobs (Sim.updateMobs Examples.breach 1))
    /\ mob_id after = "w"
    /\ mob_pathProgress after = (-2 + 1)%R.
Proof.
  destruct (X23_updateMobs Examples.breach 1 straightPath_length)
    as (_ & _ & _ & Hwait & _).
  destruct (Hwait (Examples.goblin "w" (-2) Examples.noStatus))
    as (after & Hin & Hid & _ & _ & Hneg & _);
    [right; right; now left|cbn; lra|].
  exists after; split; [exact Hin|]; split; [exact Hid|].
  apply Hneg; cbn; lra.
Defined.

(** ** Wave spawning *)

Lemma sorted_snoc {A : Type} (R : A -> A -> Prop) (l : list A) (x : A) :
  StronglySorted R l -> (forall a, In a l -> R a x) -> StronglySorted R (l ++ [x]).
Proof.
  induction 1 as [|a l Hs IH Hall]; intros Hx; cbn.
  - constructor; [constructor|constructor].
  - constructor.
    + apply IH; intros b Hb; apply Hx; now right.
    + apply Forall_app; split; [exact Hall|].
      constructor; [apply Hx; now left|constructor].
Qed.

Lemma spawnMob_inv (ids : Sim.IdSource) (state : GameState) (n : Z) (spacing : R)
      (T : MobType) (acc : list Mob * R) :
  (0 < spacing)%R ->
  Spec.spawnInvariant state n acc ->
  exists acc',
    Sim.spawnMob ids state n spacing T acc = Ok acc'
    /\ Spec.spawnInvariant state n acc'.
Proof.
  intros Hsp (Hdelay & Hfresh & Hsorted & Hlow).
  destruct acc as [ms delay]; cbn [fst snd] in *.
  unfold Sim.spawnMob.
  destruct (mobType_defined T) as (definition & Hd & Hty).
  destruct (calculateMobStats_total T n) as (stats & Hs); rewrite Hs; cbn [Js.bind].
  assert (Htype : Definitions.ms_type stats = T).
  { unfold Definitions.calculateMobStats in Hs; rewrite Hd in Hs.
    injection Hs as <-; exact Hty. }
  assert (Hmax : Definitions.ms_maxHp stats = Definitions.ms_hp stats).
  { unfold Definitions.calculateMobStats in Hs; rewrite Hd in Hs.
    injection Hs as <-; reflexivity. }
  eexists; split; [reflexivity|].
  unfold Spec.spawnInvariant; cbn [fst snd].
  split; [lra|]; split; [|split].
  - apply Forall_app; split; [exact Hfresh|].
    constructor; [|constructor].
    unfold Spec.freshMob; cbn.
    split; [reflexivity|]; split; [lra|]; split; [reflexivity|].
    split; [reflexivity|].
    exists stats; rewrite Htype; auto 10.
  - apply sorted_snoc; [exact Hsorted|].
    intros a Ha; unfold Spec.entersBefore; cbn; now apply Hlow.
  - intros m Hm; apply in_app_or in Hm as [Hm|[<-|[]]].
    + specialize (Hlow m Hm); lra.
    + cbn; lra.
Qed.

Lemma spawnMobs_inv (ids : Sim.IdSource) (state : GameState) (n : Z) (spacing : R)
      (T : MobType) (count : nat) :
  (0 < spacing)%R ->
  forall acc,
  Spec.spawnInvariant state n acc ->
  exists acc',
    Sim.spawnMobs ids state n spacing T count acc = Ok acc'
    /\ Spec.spawnInvariant state n acc'.
Proof.
  intros Hsp; induction count as [|count IH]; intros acc Hinv; cbn [Sim.spawnMobs].
  - eauto.
  - destruct (spawnMob_inv ids state n spacing T acc Hsp Hinv) as (acc1 & -> & Hinv1).
    cbn [Js.bind]; apply IH; exact Hinv1.
Qed.

Lemma spawnGroup_inv (ids : Sim.IdSource) (state : GameState) (n : Z) (spacing : R)
      (acc : list Mob * R) (group : MobType * nat) :
  (0 < spacing)%R ->
  Spec.spawnInvariant state n acc ->
  exists acc',
    Sim.spawnGroup ids state n spacing acc group = Ok acc'
    /\ Spec.spawnInvariant state n acc'.
Proof.
  intros Hsp Hinv; unfold Sim.spawnGroup.
  destruct (spawnMobs_inv ids state n spacing (fst group) (snd group) Hsp acc Hinv)
    as ([ms delay] & -> & (Hdelay & Hfresh & Hsorted & Hlow)).
  cbn [Js.bind fst snd] in *; eexists; split; [reflexivity|].
  unfold Spec.spawnInvariant; cbn [fst snd].
  split; [lra|]; split; [exact Hfresh|]; split; [exact Hsorted|].
  intros m Hm; specialize (Hlow m Hm); lra.
Qed.

(** X24. Spawning a wave.  [spawnWave] always returns a state: the wave
    index is raised by one, the phase is wave-active and the existing
    mobs are kept in front of the new ones.  The number of new mobs is
    the sum of the counts of the wave's composition, so none for a wave
    number outside 1..10.  Every new mob carries the statistics
    [calculateMobStats] gives its type for this wave, full hit points, no
    slow, stands at the start of the path, has not reached the end and
    has progress at most 0; along the list the progress strictly
    decreases, so the mobs enter the path one after the other in list
    order. *)
Theorem X24_spawnWave (ids : Sim.IdSource) (state : GameState) :
  let waveNumber := (currentWaveIndex state + 1)%Z in
  exists newMobs,
    Sim.spawnWave ids state
    = Ok (Sim.withWave state (mobs state ++ newMobs) waveNumber WaveActive)
    /\ List.length newMobs
       = fold_right Nat.add 0%nat (map snd (Sim.waveComposition waveNumber))
    /\ ((waveNumber < 1 \/ 10 < waveNumber)%Z -> newMobs = [])
    /\ Forall (Spec.freshMob state waveNumber) newMobs
    /\ StronglySorted Spec.entersBefore newMobs.
Proof.
  intros waveNumber.
  destruct (waveMobs_total ids state waveNumber) as (newMobs & Hw & Hlen).
  exists newMobs; unfold Sim.spawnWave; fold waveNumber; rewrite Hw; cbn [Js.bind].
  split; [reflexivity|]; split; [exact Hlen|]; split.
  { intros Hout; apply length_zero_iff_nil; rewrite Hlen.
    destruct waveNumber as [|w|w]; try reflexivity.
    do 4 (destruct w as [w|w|]; try reflexivity; try lia). }
  unfold Sim.waveMobs in Hw.
  set (spacing := Rmax 0.3 (1.2 - IZR waveNumber * 0.1)) in *.
  assert (Hsp : (0 < spacing)%R).
  { subst spacing; apply (Rlt_le_trans _ 0.3); [lra|apply Rmax_l]. }
  destruct (foldM_total (Sim.spawnGroup ids state waveNumber spacing)
              (Spec.spawnInvariant state waveNumber))
    with (l := Sim.waveComposition waveNumber) (b := ([] : list Mob, 0%R))
    as (r & Hfold & (_ & Hfresh & Hsorted & _)).
  - intros b a Hb; now apply spawnGroup_inv.
  - unfold Spec.spawnInvariant; cbn.
    split; [lra|]; split; [constructor|]; split; [constructor|intros m []].
  - cbv zeta in Hw; rewrite Hfold in Hw; cbn in Hw; injection Hw as <-.
    split; assumption.
Qed.

(** ** Projectile hits *)

Lemma findIndex_split (id : string) (l : list Mob) (i : nat) :
  Sim.findIndex id l = Some i ->
  exists l1 m l2,
    l = l1 ++ m :: l2 /\ mob_id m = id
    /\ Sim.removeAt i l = l1 ++ l2
    /\ (forall d, Sim.setAt i d l = l1 ++ d :: l2)
    /\ Sim.bountyAt i l = mob_bounty m.
Proof.
  revert i; induction l as [|x l IH]; intros i; cbn [Sim.findIndex]; [discriminate|].
  destruct (String.eqb_spec (mob_id x) id) as [Hid|Hne].
  - intros H; injection H as <-.
    exists [], x, l; repeat split; auto.
  - destruct (Sim.findIndex id l) as [j|]; [|discriminate].
    intros H; injection H as <-.
    destruct (IH j eq_refl) as (l1 & m & l2 & -> & Hm & Hrem & Hset & Hb).
    exists (x :: l1), m, l2.
    split; [reflexivity|]; split; [exact Hm|].
    unfold Sim.removeAt, Sim.setAt, Sim.bountyAt in *.
    rewrite firstn_cons, skipn_cons; cbn [nth_error]; rewrite <- !app_comm_cons.
    split; [now rewrite Hrem|].
    split; [intros d; cbn [app]; now rewrite Hset|exact Hb].
Qed.

Lemma unique_by_id (l : list Mob) (a b : Mob) :
  NoDup (map mob_id l) -> In a l -> In b l -> mob_id a = mob_id b -> a = b.
Proof.
  induction l as [|x l IH]; intros Hnd Ha Hb Hid; [destruct Ha|].
  cbn in Hnd; inversion Hnd as [|? ? Hnin Hnd']; subst.
  destruct Ha as [<-|Ha], Hb as [<-|Hb]; auto.
  - exfalso; apply Hnin; rewrite Hid; now apply in_map.
  - exfalso; apply Hnin; rewrite <- Hid; now apply in_map.
Qed.

Lemma bountySum_app (l1 l2 : list Mob) :
  Spec.bountySum (l1 ++ l2) = (Spec.bountySum l1 + Spec.bountySum l2)%Z.
Proof.
  unfold Spec.bountySum; induction l1 as [|x l1 IH]; cbn; [reflexivity|].
  cbn in IH; rewrite IH; lia.
Qed.

Lemma bountySum_cons (m : Mob) (l : list Mob) :
  Spec.bountySum (m :: l) = (mob_bounty m + Spec.bountySum l)%Z.
Proof. reflexivity. Qed.

(** One settled hit keeps the invariant, provided the mob that was hit
    ([src], possibly slowed first) stands for a mob of the starting list. *)
Lemma settleHit_inv (mobs : list Mob) (acc : list Mob * Z) (src origin : Mob)
      (damage : R) :
  NoDup (map mob_id mobs) ->
  In origin mobs -> mob_id src = mob_id origin -> mob_bounty src = mob_bounty origin ->
  Spec.hitInvariant mobs acc ->
  Spec.hitInvariant mobs
    (Sim.settleHit acc (mob_id origin) (Effects.applyDamage src damage)).
Proof.
  intros Hnd Horigin Hid Hbounty (Hnd' & Htr & Hsum & Hlen & Hpos).
  destruct acc as [ms g]; cbn [fst snd] in *.
  unfold Sim.settleHit, Effects.applyDamage; cbv zeta.
  destruct (Sim.findIndex (mob_id origin) ms) as [i|] eqn:Hfi;
    [|unfold Spec.hitInvariant; cbn [fst snd]; auto].
  destruct (findIndex_split _ _ _ Hfi) as (l1 & m & l2 & -> & Hm & Hrem & Hset & Hb).
  assert (Hmb : mob_bounty m = mob_bounty origin).
  { destruct (Htr m) as (m0 & Hm0 & Hid0 & Hb0); [apply in_elt|].
    rewrite Hb0; f_equal; apply (unique_by_id mobs); auto; congruence. }
  rewrite bountySum_app, bountySum_cons in Hsum.
  rewrite length_app in Hlen; cbn [List.length] in Hlen.
  destruct (Js.eqb _ 0).
  - rewrite Hrem, Hb; unfold Spec.hitInvariant; cbn [fst snd].
    split; [|split; [|split; [|split]]].
    + rewrite map_app in *; cbn [map] in Hnd'; now apply NoDup_remove_1 in Hnd'.
    + intros x Hx; apply Htr; apply in_app_or in Hx as [Hx|Hx];
        apply in_or_app; [now left|right; now right].
    + rewrite bountySum_app; lia.
    + rewrite length_app; lia.
    + intros Hall; specialize (Hpos Hall); specialize (Hall origin Horigin); lia.
  - rewrite Hset; unfold Spec.hitInvariant; cbn [fst snd].
    split; [|split; [|split; [|split]]].
    + rewrite map_app in *; cbn [map mob_id Effects.withHp] in *.
      now rewrite Hid, <- Hm.
    + intros x Hx; apply in_app_or in Hx as [Hx|[<-|Hx]].
      * apply Htr, in_or_app; now left.
      * exists origin; cbn; auto.
      * apply Htr, in_or_app; right; now right.
    + rewrite bountySum_app, bountySum_cons; cbn [mob_bounty Effects.withHp]; lia.
    + rewrite length_app; cbn [List.length]; lia.
    + exact Hpos.
Qed.

Lemma tracks_refl (mobs : list Mob) : Spec.tracks mobs mobs.
Proof. intros m Hm; exists m; auto. Qed.

Lemma hitInvariant_start (mobs : list Mob) :
  NoDup (map mob_id mobs) -> Spec.hitInvariant mobs (mobs, 0%Z).
Proof.
  intros Hnd; unfold Spec.hitInvariant; cbn [fst snd].
  split; [exact Hnd|]; split; [apply tracks_refl|].
  split; [lia|]; split; [lia|intros; lia].
Qed.

Lemma applySlow_fields (mob : Mob) (a d now : R) :
  mob_id (Effects.applySlow mob a d now) = mob_id mob
  /\ mob_bounty (Effects.applySlow mob a d now) = mob_bounty mob.
Proof. unfold Effects.applySlow; destruct (negb _); auto. Qed.

Lemma handleProjectileHit_inv (projectile : Projectile) (mobs : list Mob) (now : R) :
  NoDup (map mob_id mobs) ->
  Spec.hitInvariant mobs (Sim.handleProjectileHit projectile mobs now).
Proof.
  intros Hnd; unfold Sim.handleProjectileHit; cbv zeta.
  destruct (match proj_splashRadius projectile with
            | Some r => negb (Js.eqb r 0) && Js.gtb r 0
            | None => false
            end).
  - set (inRange := Targeting.getMobsInSplashRange _ _ mobs).
    assert (Hsub : forall m, In m inRange -> In m mobs).
    { intros m Hm; subst inRange; unfold Targeting.getMobsInSplashRange in Hm.
      now apply filter_In in Hm as [Hm _]. }
    assert (Hgen : forall l acc,
               (forall m, In m l -> In m mobs) ->
               Spec.hitInvariant mobs acc ->
               Spec.hitInvariant mobs
                 (fold_left
                    (fun acc mob =>
                       Sim.settleHit acc (mob_id mob)
                         (Effects.applyDamage mob (proj_damage projectile)))
                    l acc)).
    { induction l as [|m l IH]; intros acc Hl Hacc; cbn [fold_left]; [exact Hacc|].
      apply IH; [intros x Hx; apply Hl; now right|].
      apply settleHit_inv; auto; apply Hl; now left. }
    apply Hgen; [exact Hsub|now apply hitInvariant_start].
  - destruct (match proj_targetMobId projectile with
              | Some id => find (fun mob => String.eqb (mob_id mob) id) mobs
              | None => None
              end) as [targetMob|] eqn:Hfind; [|now apply hitInvariant_start].
    assert (Hin : In targetMob mobs).
    { destruct (proj_targetMobId projectile); [|discriminate].
      now apply find_some in Hfind as [Hin _]. }
    apply settleHit_inv; auto; [| |now apply hitInvariant_start];
      destruct (proj_slowDuration projectile), (proj_slowAmount projectile);
      try reflexivity; destruct (_ && _); try reflexivity; apply applySlow_fields.
Qed.

(** X25. One projectile hit.  When the mobs have distinct ids,
    [handleProjectileHit] never adds a mob and keeps the ids distinct;
    every mob it returns stands for one of the given mobs with the same id
    and bounty; and the bounty it reports is exactly the total bounty of
    the mobs it removed, so it is non-negative when no bounty is
    negative.  A projectile without splash whose target id is not among
    the mobs changes nothing and earns nothing. *)
Theorem X25_handleProjectileHit (projectile : Projectile) (mobs : list Mob) (now : R) :
  NoDup (map mob_id mobs) ->
  let result := Sim.handleProjectileHit projectile mobs now in
  NoDup (map mob_id (fst result))
  /\ Spec.tracks mobs (fst result)
  /\ (snd result + Spec.bountySum (fst result) = Spec.bountySum mobs)%Z
  /\ (List.length (fst result) <= List.length mobs)%nat
  /\ ((forall mob, In mob mobs -> (0 <= mob_bounty mob)%Z) -> (0 <= snd result)%Z)
  /\ (proj_splashRadius projectile = None ->
      (forall id, proj_targetMobId projectile = Some id ->
                  forall mob, In mob mobs -> mob_id mob <> id) ->
      result = (mobs, 0%Z)).
Proof.
  intros Hnd result.
  destruct (handleProjectileHit_inv projectile mobs now Hnd)
    as (H1 & H2 & H3 & H4 & H5).
  do 5 (split; [assumption|]).
  intros Hsplash Hmissing; subst result; unfold Sim.handleProjectileHit.
  rewrite Hsplash; cbv zeta.
  destruct (proj_targetMobId projectile) as [id|]; [|reflexivity].
  destruct (find _ mobs) as [m|] eqn:Hfind; [|reflexivity].
  apply find_some in Hfind as [Hin Hid]; apply String.eqb_eq in Hid.
  exfalso; exact (Hmissing id eq_refl m Hin Hid).
Qed.

Lemma X25_handleProjectileHit_witness :
  let arrow :=
    {| proj_id := "p"; proj_pos := Examples.origin; proj_targetPos := Examples.origin;
       proj_targetMobId := Some "g"; proj_speed := 8; proj_damage := 100;
       proj_type := ArrowShot; proj_splashRadius := None;
       proj_slowDuration := None; proj_slowAmount := None;
       proj_hasHit := false |} in
  let result :=
    Sim.handleProjectileHit arrow [Examples.goblin "g" 0.5 Examples.noStatus] 0 in
  (snd result + Spec.bountySum (fst result) = 5)%Z.
Proof.
  intros arrow result.
  assert (Hnd : NoDup (map mob_id [Examples.goblin "g" 0.5 Examples.noStatus]))
    by (cbn; constructor; [intros []|constructor]).
  destruct (X25_handleProjectileHit arrow _ 0 Hnd) as (_ & _ & Hsum & _).
  exact Hsum.
Defined.

Lemma hitInvariant_trans (mobs0 ms : list Mob) (g : Z) (r : list Mob * Z) :
  Spec.hitInvariant mobs0 (ms, g) ->
  Spec.hitInvariant ms r ->
  Spec.hitInvariant mobs0 (fst r, (g + snd r)%Z).
Proof.
  intros (_ & Ht & Hs & Hl & Hp) (Hnd' & Ht' & Hs' & Hl' & Hp').
  destruct r as [ms' g']; cbn [fst snd] in *.
  unfold Spec.hitInvariant; cbn [fst snd].
  split; [exact Hnd'|]; split; [|split; [lia|split; [lia|]]].
  - intros m' Hm'; destruct (Ht' m' Hm') as (m & Hm & Hid & Hb).
    destruct (Ht m Hm) as (m0 & Hm0 & Hid0 & Hb0).
    exists m0; split; [exact Hm0|split; congruence].
  - intros Hall; specialize (Hp Hall).
    assert (0 <= g')%Z; [|lia].
    apply Hp'; intros m Hm; destruct (Ht m Hm) as (m0 & Hm0 & _ & Hb0).
    rewrite Hb0; now apply Hall.
Qed.

Lemma updateProjectiles_step_inv (state : GameState) (dt : R) (mobs0 : list Mob)
      (active : list Projectile) (ms : list Mob) (g : Z) (projectile : Projectile) :
  Spec.hitInvariant mobs0 (ms, g) ->
  exists kept ms' g',
    Sim.updateProjectiles_step state dt (active, ms, g) projectile
    = (active ++ kept, ms', g')
    /\ Spec.hitInvariant mobs0 (ms', g')
    /\ (List.length kept <= 1)%nat
    /\ Forall (fun p => proj_hasHit p = false /\ (0 < proj_speed p)%R
                        /\ proj_id p = proj_id projectile
                        /\ proj_targetMobId p = proj_targetMobId projectile)
              kept.
Proof.
  intros Hinv; unfold Sim.updateProjectiles_step.
  destruct (proj_hasHit projectile) eqn:Hhit.
  { exists [], ms, g; rewrite app_nil_r; auto. }
  pose proof (handleProjectileHit_inv projectile ms (simulationTime state)
                (proj1 Hinv)) as Hhph.
  pose proof (hitInvariant_trans mobs0 ms g _ Hinv Hhph) as Htrans.
  destruct (Js.eqb (proj_speed projectile) 0 || Js.leb (proj_speed projectile) 0)
    eqn:Hspeed.
  { destruct (Sim.handleProjectileHit projectile ms (simulationTime state))
      as [ms' g']; cbn [fst snd] in Htrans.
    exists [], ms', (g + g')%Z; rewrite app_nil_r; auto. }
  cbv zeta.
  destruct (Js.leb (Grid.distance (proj_pos projectile) (proj_targetPos projectile))
                   (proj_speed projectile * tileSize Definitions.GAME_CONFIG * dt)).
  { destruct (Sim.handleProjectileHit projectile ms (simulationTime state))
      as [ms' g']; cbn [fst snd] in Htrans.
    exists [], ms', (g + g')%Z; rewrite app_nil_r; auto. }
  apply orb_false_iff in Hspeed as [_ Hpos]; apply leb_false_iff in Hpos.
  eexists; exists ms, g; split; [reflexivity|]; split; [exact Hinv|].
  split; [cbn; lia|].
  constructor; [|constructor]; cbn; auto.
Qed.

(** X26. The projectiles stage.  When the mobs have distinct ids,
    [updateProjectiles] conserves money plus outstanding bounties: what is
    added to the money is exactly the total bounty of the mobs removed.
    Hence money never drops when no bounty is negative.  The stage never
    adds a mob, keeps ids distinct, and every remaining mob stands for a
    mob of the state with the same id and bounty.  It never adds a
    projectile, and every projectile it keeps is unhit and has positive
    speed.  Towers, lives, clock, wave index and phase are not touched. *)
Theorem X26_updateProjectiles (state : GameState) (dt : R) :
  NoDup (map mob_id (mobs state)) ->
  let state' := Sim.updateProjectiles state dt in
  (money state' + Spec.bountySum (mobs state')
   = money state + Spec.bountySum (mobs state))%Z
  /\ ((forall mob, In mob (mobs state) -> (0 <= mob_bounty mob)%Z) ->
      (money state <= money state')%Z)
  /\ NoDup (map mob_id (mobs state'))
  /\ Spec.tracks (mobs state) (mobs state')
  /\ (List.length (mobs state') <= List.length (mobs state))%nat
  /\ (List.length (projectiles state') <= List.length (projectiles state))%nat
  /\ Forall (fun p => proj_hasHit p = false /\ (0 < proj_speed p)%R)
            (projectiles state')
  /\ towers state' = towers state
  /\ lives state' = lives state
  /\ simulationTime state' = simulationTime state
  /\ currentWaveIndex state' = currentWaveIndex state
  /\ phase state' = phase state.
Proof.
  intros Hnd state'; subst state'; unfold Sim.updateProjectiles.
  assert (Hgen : forall l active ms g,
             Spec.hitInvariant (mobs state) (ms, g) ->
             Forall (fun p => proj_hasHit p = false /\ (0 < proj_speed p)%R) active ->
             exists active' ms' g',
               fold_left (Sim.updateProjectiles_step state dt) l (active, ms, g)
               = (active', ms', g')
               /\ Spec.hitInvariant (mobs state) (ms', g')
               /\ (List.length active' <= List.length active + List.length l)%nat
               /\ Forall (fun p => proj_hasHit p = false /\ (0 < proj_speed p)%R)
                         active').
  { induction l as [|p l IH]; intros active ms g Hinv Hact; cbn [fold_left].
    - exists active, ms, g.
      split; [reflexivity|]; split; [exact Hinv|]; split; [cbn; lia|exact Hact].
    - destruct (updateProjectiles_step_inv state dt _ active ms g p Hinv)
        as (kept & ms1 & g1 & -> & Hinv1 & Hlen1 & Hkept).
      destruct (IH (active ++ kept) ms1 g1 Hinv1) as (a' & ms' & g' & -> & Hi & Hl & Ha).
      + apply Forall_app; split; [exact Hact|].
        eapply Forall_impl; [|exact Hkept]; intros x (? & ? & _); auto.
      + exists a', ms', g'; split; [reflexivity|]; split; [exact Hi|].
        split; [|exact Ha].
        rewrite length_app in Hl; cbn [List.length]; lia. }
  destruct (Hgen (projectiles state) [] (mobs state) 0%Z
              (hitInvariant_start _ Hnd) (Forall_nil _))
    as (active & ms & g & -> & (H1 & H2 & H3 & H4 & H5) & Hlen & Hact).
  cbn [fst snd] in *.
  cbn [Sim.withProjectilesMobsMoney money mobs projectiles towers lives
       simulationTime currentWaveIndex phase].
  split; [lia|]; split; [intros Hall; specialize (H5 Hall); lia|].
  do 3 (split; [assumption|]).
  split; [cbn in Hlen; lia|]; split; [exact Hact|].
  repeat split.
Qed.

Lemma X26_updateProjectiles_witness :
  (money (Sim.updateProjectiles Examples.skirmish 0.5)
   + Spec.bountySum (mobs (Sim.updateProjectiles Examples.skirmish 0.5))
   = 100 + (5 + 5))%Z
  /\ (List.length (projectiles (Sim.updateProjectiles Examples.skirmish 0.5))
      <= 1)%nat.
Proof.
  assert (Hnd : NoDup (map mob_id (mobs Examples.skirmish))).
  { cbn; constructor; [intros [H|[]]; discriminate H|].
    constructor; [intros []|constructor]. }
  destruct (X26_updateProjectiles Examples.skirmish 0.5 Hnd)
    as (Hsum & _ & _ & _ & _ & Hlen & _).
  split; [exact Hsum|exact Hlen].
Defined.

Lemma towards_target (px py tx ty d move : R) :
  (d * d = (px - tx) * (px - tx) + (py - ty) * (py - ty))%R ->
  (0 <= move < d)%R ->
  sqrt ((px + (tx - px) / d * move - tx) * (px + (tx - px) / d * move - tx)
        + (py + (ty - py) / d * move - ty) * (py + (ty - py) / d * move - ty))
  = (d - move)%R.
Proof.
  intros Hdd Hmove.
  assert (Hd : d <> 0%R) by lra.
  replace ((px + (tx - px) / d * move - tx) * (px + (tx - px) / d * move - tx)
           + (py + (ty - py) / d * move - ty) * (py + (ty - py) / d * move - ty))%R
    with (((px - tx) * (px - tx) + (py - ty) * (py - ty))
          * (((d - move) / d) * ((d - move) / d)))%R by (field; exact Hd).
  rewrite <- Hdd.
  replace (d * d * ((d - move) / d * ((d - move) / d)))%R
    with ((d - move) * (d - move))%R by (field; exact Hd).
  apply sqrt_square; lra.
Qed.

(** X27. Projectile flight.  An unhit projectile with positive speed
    travels [speed * tileSize * deltaTime] per step, straight at its
    target position.  While that is less than the distance left, the
    projectile is kept, its distance to the target shrinks by exactly the
    distance travelled, nothing else about it changes, and mobs and
    money are untouched.  Once the distance left is within reach the
    projectile is not kept.  A projectile already marked as hit is
    dropped without any effect. *)
Theorem X27_projectile_flight (state : GameState) (dt : R)
        (active : list Projectile) (ms : list Mob) (g : Z) (projectile : Projectile) :
  let left := Grid.distance (proj_pos projectile) (proj_targetPos projectile) in
  let travelled :=
    (proj_speed projectile * tileSize Definitions.GAME_CONFIG * dt)%R in
  let step := Sim.updateProjectiles_step state dt (active, ms, g) projectile in
  (proj_hasHit projectile = true -> step = (active, ms, g))
  /\ (proj_hasHit projectile = false -> (0 < proj_speed projectile)%R ->
      (0 <= dt)%R -> (travelled < left)%R ->
      exists moved,
        step = (active ++ [moved], ms, g)
        /\ Grid.distance (proj_pos moved) (proj_targetPos moved)
           = (left - travelled)%R
        /\ Sim.withProjPos moved (proj_pos projectile) = projectile)
  /\ (proj_hasHit projectile = false -> (0 < proj_speed projectile)%R ->
      (left <= travelled)%R ->
      fst (fst step) = active).
Proof.
  intros left travelled step; subst step; unfold Sim.updateProjectiles_step.
  split; [intros ->; reflexivity|].
  split.
  - intros Hhit Hspeed Hdt Hfar; rewrite Hhit.
    rewrite (proj2 (eqb_false_iff _ _)) by lra.
    rewrite (proj2 (leb_false_iff _ _)) by lra.
    cbv zeta; fold left; fold travelled.
    rewrite (proj2 (leb_false_iff _ _) Hfar); cbn [orb].
    eexists; split; [reflexivity|]; split; [|destruct projectile; reflexivity].
    assert (Htravel : (0 <= travelled)%R).
    { subst travelled; apply Rmult_le_pos; [|exact Hdt].
      apply Rmult_le_pos; [lra|cbn; lra]. }
    unfold Grid.distance at 1; cbv zeta; cbn [proj_pos proj_targetPos Sim.withProjPos vx vy].
    apply towards_target; [|lra].
    subst left; unfold Grid.distance; cbv zeta.
    apply sqrt_sqrt, Rplus_le_le_0_compat; apply Rle_0_sqr.
  - intros Hhit Hspeed Hnear; rewrite Hhit.
    rewrite (proj2 (eqb_false_iff _ _)) by lra.
    rewrite (proj2 (leb_false_iff _ _)) by lra.
    cbv zeta; fold left; fold travelled.
    rewrite (proj2 (leb_true_iff _ _) Hnear); cbn [orb].
    destruct (Sim.handleProjectileHit _ _ _); reflexivity.
Qed.

Lemma X27_projectile_flight_witness :
  let ball :=
    {| proj_id := "p"; proj_pos := {| vx := 0; vy := 0 |};
       proj_targetPos := {| vx := 300; vy := 400 |};
       proj_targetMobId := Some "g"; proj_speed := 6; proj_damage := 45;
       proj_type := Cannonball; proj_splashRadius := Some 1.5%R;
       proj_slowDuration := None; proj_slowAmount := None;
       proj_hasHit := false |} in
  exists moved,
    Sim.updateProjectiles_step Examples.running 0.5 ([], [], 0%Z) ball
    = ([moved], [], 0%Z)
    /\ Grid.distance (proj_pos moved) (proj_targetPos moved) = 380%R.
Proof.
  intros ball.
  assert (Hleft : Grid.distance (proj_pos ball) (proj_targetPos ball) = 500%R).
  { unfold Grid.distance; cbn.
    replace ((0 - 300) * (0 - 300) + (0 - 400) * (0 - 400))%R with (500 * 500)%R by lra.
    apply sqrt_square; lra. }
  destruct (X27_projectile_flight Examples.running 0.5 [] [] 0%Z ball)
    as (_ & Hfly & _).
  destruct Hfly as (moved & Hstep & Hdist & _);
    [reflexivity|cbn; lra|lra|rewrite Hleft; cbn; lra|].
  exists moved; split; [exact Hstep|].
  rewrite Hdist, Hleft; cbn; lra.
Defined.

(** ** The whole tick *)

Lemma sameBoard_refl (state : GameState) : Spec.sameBoard state state.
Proof. unfold Spec.sameBoard; auto 10. Qed.

Lemma sameBoard_trans (a b c : GameState) :
  Spec.sameBoard a b -> Spec.sameBoard b c -> Spec.sameBoard a c.
Proof.
  unfold Spec.sameBoard.
  intros (H1 & H2 & H3 & H4 & H5 & H6) (K1 & K2 & K3 & K4 & K5 & K6).
  repeat split; congruence.
Qed.

Lemma updateMobs_frame (state : GameState) (dt : R) :
  Spec.sameBoard state (Sim.updateMobs state dt)
  /\ towers (Sim.updateMobs state dt) = towers state
  /\ projectiles (Sim.updateMobs state dt) = projectiles state.
Proof.
  unfold Sim.updateMobs; destruct (fold_left _ _ _) as [ms lost].
  unfold Spec.sameBoard; cbn; auto 10.
Qed.

Lemma updateTowers_frame (ids : Sim.IdSource) (state : GameState) :
  exists state',
    Sim.updateTowers ids state = Ok state'
    /\ Spec.sameBoard state state'
    /\ map Spec.placement (towers state') = map Spec.placement (towers state).
Proof.
  destruct (updateTowers_fold_inv ids state (towers state) (fun t H => H)
              [] (projectiles state))
    as (ts' & shots & Hfold & Hmap & _).
  unfold Sim.updateTowers; rewrite Hfold; cbn [Js.bind fst snd app].
  eexists; split; [reflexivity|]; split; [|exact Hmap].
  unfold Spec.sameBoard; cbn; auto 10.
Qed.

Lemma updateProjectiles_frame (state : GameState) (dt : R) :
  Spec.sameBoard state (Sim.updateProjectiles state dt)
  /\ towers (Sim.updateProjectiles state dt) = towers state.
Proof.
  destruct (updateProjectiles_shape state dt) as (ps & ms & gained & ->).
  unfold Spec.sameBoard; cbn; auto 10.
Qed.

Lemma beforeSpawning_frame (ids : Sim.IdSource) (state : GameState) (dt : R) :
  exists s3,
    Spec.beforeSpawning ids state dt = Ok s3
    /\ Spec.sameBoard state s3
    /\ map Spec.placement (towers s3) = map Spec.placement (towers state).
Proof.
  unfold Spec.beforeSpawning; cbv zeta.
  set (scaled := (dt * gameSpeed state)%R).
  set (s0 := Sim.withSimulationTime state (simulationTime state + scaled)%R).
  assert (H0 : Spec.sameBoard state s0 /\ towers s0 = towers state)
    by (unfold Spec.sameBoard; cbn; auto 10).
  destruct (updateMobs_frame s0 scaled) as (H1 & Ht1 & _).
  destruct (updateTowers_frame ids (Sim.updateMobs s0 scaled)) as (s2 & -> & H2 & Ht2).
  destruct (updateProjectiles_frame s2 scaled) as (H3 & Ht3).
  cbn [Js.bind]; eexists; split; [reflexivity|]; split.
  - eapply sameBoard_trans; [exact (proj1 H0)|].
    eapply sameBoard_trans; [exact H1|].
    eapply sameBoard_trans; [exact H2|exact H3].
  - rewrite Ht3, Ht2, Ht1; now destruct H0 as [_ ->].
Qed.

Lemma updateWaveSpawning_frame (ids : Sim.IdSource) (s3 : GameState) :
  exists s4,
    Sim.updateWaveSpawning ids s3 = Ok s4
    /\ Spec.sameBoard s3 s4
    /\ towers s4 = towers s3
    /\ simulationTime s4 = simulationTime s3
    /\ lives s4 = lives s3
    /\ (phase s4 = phase s3 \/ phase s4 = WaveActive).
Proof.
  destruct (updateWaveSpawning_spec ids s3) as (newMobs & _ & [[_ ->]|[_ ->]]);
    eexists; (split; [reflexivity|]); unfold Spec.sameBoard; cbn; auto 12.
Qed.

Lemma updateGamePhase_frame (state : GameState) :
  Spec.sameBoard state (Sim.updateGamePhase state)
  /\ towers (Sim.updateGamePhase state) = towers state.
Proof.
  unfold Sim.updateGamePhase, Spec.sameBoard.
  destruct (_ && _); [cbn; auto 10|].
  destruct (_ && _); cbn; auto 10.
Qed.

(** The outcome of the phase check on a state whose phase is neither
    defeat nor victory. *)
Lemma updateGamePhase_outcome (state : GameState) :
  phase state <> Defeat -> phase state <> Victory ->
  let state' := Sim.updateGamePhase state in
  (phase state' = Defeat <-> (lives state <= 0)%Z)
  /\ (phase state' = Victory
      <-> (0 < lives state)%Z /\ (10 <= currentWaveIndex state)%Z
          /\ mobs state = [])
  /\ (phase state' = Defeat \/ phase state' = Victory \/ state' = state).
Proof.
  intros Hd Hv; cbv zeta; unfold Sim.updateGamePhase.
  rewrite (proj2 (phase_eqb_neq _ _) Hd), (proj2 (phase_eqb_neq _ _) Hv).
  cbn [negb]; rewrite !andb_true_r.
  destruct (Z.leb_spec (lives state) 0).
  { cbn; split; [tauto|]; split; [|auto].
    split; [discriminate|intros (? & _); lia]. }
  destruct (Z.geb_spec (currentWaveIndex state) 10); cbn [andb].
  - destruct (mobs state) as [|m ms] eqn:Hm; cbn [List.length Nat.eqb].
    + cbn; split; [split; [discriminate|lia]|]; split; [|auto].
      split; [intros _; auto with zarith|reflexivity].
    + split; [split; [intros; congruence|lia]|]; split; [|auto].
      split; [intros; congruence|intros (_ & _ & ?); discriminate].
  - split; [split; [intros; congruence|lia]|]; split; [|auto].
    split; [intros; congruence|intros (_ & ? & _); lia].
Qed.

(** X28. A tick never fails and never touches the board.  For every game
    state, every time step and every id supply, [advanceTick] returns a
    state.  That state has the same map, path, pause flag, speed and wave
    table, and the same towers in the same order as far as id,
    coordinate, type and tier are concerned.  Unless the tick is
    short-circuited, the clock advances by exactly
    [deltaTime * gameSpeed]. *)
Theorem X28_tick_total (ids : Sim.IdSource) (state : GameState) (dt : R) :
  exists state',
    Sim.advanceTick ids state dt = Ok state'
    /\ Spec.sameBoard state state'
    /\ map Spec.placement (towers state') = map Spec.placement (towers state)
    /\ (~ Spec.shortCircuited state ->
        simulationTime state'
        = (simulationTime state + dt * gameSpeed state)%R).
Proof.
  destruct (classic_shortCircuited state) as [Hsc|Hrun].
  { exists state; rewrite advanceTick_shortCircuited by exact Hsc.
    split; [reflexivity|]; split; [apply sameBoard_refl|]; split; [reflexivity|].
    tauto. }
  destruct (advanceTick_running ids state dt Hrun)
    as (s3 & s4 & Hs3 & Hs4 & Htick & _ & _ & Htime & _).
  destruct (beforeSpawning_frame ids state dt) as (s3' & Hs3' & Hb3 & Ht3).
  rewrite Hs3 in Hs3'; injection Hs3' as <-.
  destruct (updateWaveSpawning_frame ids s3) as (s4' & Hs4' & Hb4 & Ht4 & Htime4 & _).
  rewrite Hs4 in Hs4'; injection Hs4' as <-.
  destruct (updateGamePhase_frame s4) as (Hb5 & Ht5).
  exists (Sim.updateGamePhase s4); split; [exact Htick|].
  split; [|split].
  - eapply sameBoard_trans; [exact Hb3|].
    eapply sameBoard_trans; [exact Hb4|exact Hb5].
  - now rewrite Ht5, Ht4.
  - intros _.
    destruct (updateGamePhase_fields s4) as (_ & _ & _ & ->).
    now rewrite Htime4.
Qed.

(** X29. How a tick ends the game.  After a tick that is not
    short-circuited, the phase is defeat exactly when no lives are left,
    and victory exactly when lives are left, the wave index has reached
    10 and no mob remains.  Defeat takes precedence over victory. *)
Theorem X29_endgame (ids : Sim.IdSource) (state state' : GameState) (dt : R) :
  ~ Spec.shortCircuited state ->
  Sim.advanceTick ids state dt = Ok state' ->
  (phase state' = Defeat <-> (lives state' <= 0)%Z)
  /\ (phase state' = Victory
      <-> (0 < lives state')%Z /\ (10 <= currentWaveIndex state')%Z
          /\ mobs state' = []).
Proof.
  intros Hrun Htick.
  destruct (advanceTick_running ids state dt Hrun)
    as (s3 & s4 & Hs3 & Hs4 & Htick' & _ & _ & _ & Hphase3).
  rewrite Htick in Htick'; injection Htick' as ->.
  destruct (updateWaveSpawning_frame ids s3) as (s4' & Hs4' & _ & _ & _ & _ & Hphase4).
  rewrite Hs4 in Hs4'; injection Hs4' as <-.
  assert (Hd : phase s4 <> Defeat /\ phase s4 <> Victory).
  { unfold Spec.shortCircuited in Hrun.
    destruct Hphase4 as [H|H]; rewrite H; [rewrite Hphase3|];
      split; try discriminate; intros Hp; apply Hrun; auto. }
  destruct (updateGamePhase_outcome s4 (proj1 Hd) (proj2 Hd)) as (Hdef & Hvic & _).
  destruct (updateGamePhase_fields s4) as (-> & -> & -> & _).
  split; assumption.
Qed.

Lemma X29_endgame_witness :
  exists state',
    Sim.advanceTick Examples.ids Examples.lastStand 0.5 = Ok state'
    /\ (phase state' = Defeat <-> (lives state' <= 0)%Z).
Proof.
  assert (Hrun : ~ Spec.shortCircuited Examples.lastStand)
    by (intros [H|[H|H]]; discriminate H).
  destruct (advanceTick_running Examples.ids Examples.lastStand 0.5 Hrun)
    as (s3 & s4 & _ & _ & Htick & _).
  exists (Sim.updateGamePhase s4); split; [exact Htick|].
  exact (proj1 (X29_endgame Examples.ids Examples.lastStand _ 0.5 Hrun Htick)).
Defined.

(** ** What a hit does to each mob *)

Lemma settleHit_other (ms : list Mob) (g : Z) (id : string) (hit : Mob * R * bool)
      (m : Mob) :
  In m ms -> mob_id m <> id -> In m (fst (Sim.settleHit (ms, g) id hit)).
Proof.
  intros Hin Hne; unfold Sim.settleHit; destruct hit as [[d a] k].
  destruct (Sim.findIndex id ms) as [i|] eqn:Hfi; [|exact Hin].
  destruct (findIndex_split _ _ _ Hfi) as (l1 & x & l2 & -> & Hx & Hrem & Hset & _).
  assert (Hm : In m l1 \/ In m l2).
  { apply in_app_or in Hin as [Hin|[Heq|Hin]]; auto; subst x; congruence. }
  destruct k; cbn [fst]; [rewrite Hrem|rewrite Hset]; apply in_or_app;
    destruct Hm; auto; right; now right.
Qed.

Lemma settleHit_mem (ms : list Mob) (g : Z) (id : string) (d : Mob) (a : R)
      (k : bool) (m' : Mob) :
  In m' (fst (Sim.settleHit (ms, g) id (d, a, k))) ->
  In m' ms \/ (m' = d /\ k = false).
Proof.
  unfold Sim.settleHit.
  destruct (Sim.findIndex id ms) as [i|] eqn:Hfi; [|auto].
  destruct (findIndex_split _ _ _ Hfi) as (l1 & x & l2 & -> & Hx & Hrem & Hset & _).
  destruct k; cbn [fst]; [rewrite Hrem|rewrite Hset]; intros Hin.
  - left; apply in_app_or in Hin as [Hin|Hin]; apply in_or_app; auto.
    right; now right.
  - apply in_app_or in Hin as [Hin|[<-|Hin]]; auto.
    + left; apply in_or_app; auto.
    + left; apply in_or_app; right; now right.
Qed.

Lemma settleHit_self (ms : list Mob) (g : Z) (id : string) (d : Mob) (a : R)
      (k : bool) (elem : Mob) :
  NoDup (map mob_id ms) -> In elem ms -> mob_id elem = id -> mob_id d = id ->
  let result := fst (Sim.settleHit (ms, g) id (d, a, k)) in
  NoDup (map mob_id result)
  /\ (k = true -> forall m', In m' result -> mob_id m' <> id)
  /\ (k = false -> In d result).
Proof.
  intros Hnd Hin Hid Hd; cbv zeta; unfold Sim.settleHit.
  destruct (Sim.findIndex id ms) as [i|] eqn:Hfi.
  - destruct (findIndex_split _ _ _ Hfi) as (l1 & x & l2 & -> & Hx & Hrem & Hset & _).
    rewrite map_app in Hnd; cbn [map] in Hnd.
    pose proof (NoDup_remove_1 _ _ _ Hnd) as Hnd1.
    pose proof (NoDup_remove_2 _ _ _ Hnd) as Hnot.
    destruct k; cbn [fst]; [rewrite Hrem|rewrite Hset].
    + split; [now rewrite map_app|]; split; [|discriminate].
      intros _ m' Hm' Hid'; apply Hnot.
      rewrite Hx, <- Hid', <- map_app; now apply in_map.
    + split; [|split; [discriminate|intros _; apply in_elt]].
      rewrite map_app; cbn [map]; now rewrite Hd, <- Hx.
  - exfalso; clear -Hfi Hin Hid.
    induction ms as [|x ms IH]; [destruct Hin|]; cbn in Hfi.
    destruct (String.eqb_spec (mob_id x) id) as [_|Hne]; [discriminate|].
    destruct Hin as [<-|Hin]; [congruence|].
    destruct (Sim.findIndex id ms); [discriminate|auto].
Qed.

(** The splash loop, mob by mob. *)
Lemma splash_fold (damage : R) (l : list Mob) :
  forall ms g,
  NoDup (map mob_id ms) -> NoDup (map mob_id l) ->
  (forall x, In x l -> In x ms) ->
  let result :=
    fst (fold_left
           (fun acc mob =>
              Sim.settleHit acc (mob_id mob) (Effects.applyDamage mob damage))
           l (ms, g)) in
  (forall m, In m ms -> (forall x, In x l -> mob_id x <> mob_id m) -> In m result)
  /\ (forall x, In x l ->
        (snd (Effects.applyDamage x damage) = true ->
         forall m', In m' result -> mob_id m' <> mob_id x)
        /\ (snd (Effects.applyDamage x damage) = false ->
            In (fst (fst (Effects.applyDamage x damage))) result))
  /\ (forall m', In m' result ->
        In m' ms
        \/ exists x, In x l /\ m' = fst (fst (Effects.applyDamage x damage))).
Proof.
  induction l as [|x l IH]; intros ms g Hnd Hndl Hsub; cbv zeta; cbn [fold_left].
  - cbn [fst]; split; [auto|]; split; [intros x []|auto].
  - cbn [map] in Hndl; inversion Hndl as [|? ? Hxl Hndl']; subst.
    assert (Hother : forall y, In y l -> mob_id y <> mob_id x).
    { intros y Hy Heq; apply Hxl; rewrite <- Heq; now apply in_map. }
    destruct (Effects.applyDamage x damage) as [[d a] k] eqn:Hhit.
    assert (Hd : mob_id d = mob_id x)
      by (unfold Effects.applyDamage in Hhit; injection Hhit as <- _ _; reflexivity).
    destruct (settleHit_self ms g (mob_id x) d a k x Hnd
                (Hsub x (or_introl eq_refl)) eq_refl Hd) as (Hnd1 & Hkill & Hlive).
    pose proof (settleHit_other ms g (mob_id x) (d, a, k)) as Hkeep.
    pose proof (settleHit_mem ms g (mob_id x) d a k) as Hmem.
    destruct (Sim.settleHit (ms, g) (mob_id x) (d, a, k)) as [ms1 g1];
      cbn [fst] in *.
    destruct (IH ms1 g1 Hnd1 Hndl') as (Hun & Hst & Hnew).
    { intros y Hy; apply Hkeep; [apply Hsub; now right|now apply Hother]. }
    split; [|split].
    + intros m Hm Hids; apply Hun.
      * apply Hkeep; [exact Hm|]. intros Heq; apply (Hids x); [now left|auto].
      * intros y Hy; apply Hids; now right.
    + intros y [<-|Hy]; [|now apply Hst].
      rewrite Hhit; cbn [fst snd]; split.
      * intros Hk m' Hm'; destruct (Hnew m' Hm') as [Hin|(z & Hz & ->)].
        -- now apply Hkill.
        -- unfold Effects.applyDamage; cbn; now apply Hother.
      * intros Hk; apply Hun; [now apply Hlive|].
        intros z Hz; rewrite Hd; now apply Hother.
    + intros m' Hm'; destruct (Hnew m' Hm') as [Hin|(z & Hz & ->)].
      * destruct (Hmem m' Hin) as [Hms|[-> _]]; [now left|].
        right; exists x; split; [now left|now rewrite Hhit].
      * right; exists z; split; [now right|reflexivity].
Qed.

Lemma applyDamage_outcome (src : Mob) (damage : R) :
  let dealt := Definitions.calculateDamage damage (mob_armor src) in
  let hit := Effects.applyDamage src damage in
  mob_id (fst (fst hit)) = mob_id src
  /\ ((mob_hp src <= dealt)%R -> snd hit = true)
  /\ ((dealt < mob_hp src)%R ->
      snd hit = false
      /\ mob_hp (fst (fst hit)) = (mob_hp src - dealt)%R
      /\ mob_bounty (fst (fst hit)) = mob_bounty src
      /\ mob_pathProgress (fst (fst hit)) = mob_pathProgress src).
Proof.
  cbv zeta; unfold Effects.applyDamage; cbn [fst snd].
  set (dealt := Definitions.calculateDamage damage (mob_armor src)).
  split; [reflexivity|]; split.
  - intros Hle; apply eqb_true_iff; unfold Rmax.
    destruct (Rle_dec 0 (mob_hp src - dealt)); lra.
  - intros Hlt.
    assert (Hmax : Rmax 0 (mob_hp src - dealt) = (mob_hp src - dealt)%R)
      by (unfold Rmax; destruct (Rle_dec 0 (mob_hp src - dealt)); lra).
    split; [apply eqb_false_iff; rewrite Hmax; lra|].
    cbn; rewrite Hmax; auto.
Qed.

Lemma splash_test (projectile : Projectile) :
  match proj_splashRadius projectile with
  | Some r => negb (Js.eqb r 0) && Js.gtb r 0
  | None => false
  end = true
  <-> exists r, Spec.splashes projectile r.
Proof.
  unfold Spec.splashes; destruct (proj_splashRadius projectile) as [r|].
  - rewrite andb_true_iff, negb_true_iff, eqb_false_iff.
    unfold Js.gtb; rewrite ltb_true_iff; split.
    + intros [_ Hr]; eauto.
    + intros (r' & Heq & Hr); injection Heq as ->; split; lra.
  - split; [discriminate|intros (r & Hr & _); discriminate].
Qed.

Lemma slowed_fields (projectile : Projectile) (mob : Mob) (now : R) :
  let src :=
    match proj_slowDuration projectile, proj_slowAmount projectile with
    | Some d, Some a =>
        if negb (Js.eqb d 0) && negb (Js.eqb a 0)
        then Effects.applySlow mob a d now
        else mob
    | _, _ => mob
    end in
  mob_id src = mob_id mob /\ mob_hp src = mob_hp mob
  /\ mob_armor src = mob_armor mob /\ mob_bounty src = mob_bounty mob
  /\ mob_pathProgress src = mob_pathProgress mob.
Proof.
  cbv zeta.
  destruct (proj_slowDuration projectile), (proj_slowAmount projectile); auto 10.
  destruct (_ && _); auto 10.
Qed.

(** X30. A hit is local.  When the mobs have distinct ids, a projectile
    hit leaves every mob it is not aimed at in the list exactly as it
    was.  A mob it is aimed at takes [max(1, damage - armor)]: if that
    is at least its hit points, no mob with its id remains; otherwise a
    mob with its id remains whose hit points are lower by exactly that
    amount and whose bounty and progress are unchanged. *)
Theorem X30_hit_is_local (projectile : Projectile) (mobs : list Mob) (now : R)
        (mob : Mob) :
  NoDup (map mob_id mobs) -> In mob mobs ->
  let result := fst (Sim.handleProjectileHit projectile mobs now) in
  let dealt := Definitions.calculateDamage (proj_damage projectile) (mob_armor mob) in
  (~ Spec.aimedAt projectile mob -> In mob result)
  /\ (Spec.aimedAt projectile mob -> (mob_hp mob <= dealt)%R ->
      forall mob', In mob' result -> mob_id mob' <> mob_id mob)
  /\ (Spec.aimedAt projectile mob -> (dealt < mob_hp mob)%R ->
      exists mob',
        In mob' result
        /\ mob_id mob' = mob_id mob
        /\ mob_hp mob' = (mob_hp mob - dealt)%R
        /\ mob_bounty mob' = mob_bounty mob
        /\ mob_pathProgress mob' = mob_pathProgress mob).
Proof.
  intros Hnd Hin result dealt; subst result; unfold Sim.handleProjectileHit.
  cbv zeta.
  pose proof (splash_test projectile) as Htest.
  destruct (match proj_splashRadius projectile with
            | Some r => negb (Js.eqb r 0) && Js.gtb r 0
            | None => false
            end).
  - destruct (proj1 Htest eq_refl) as (r & Hr & Hpos).
    rewrite Hr, or_else_nonzero by lra.
    set (inRange := Targeting.getMobsInSplashRange _ _ mobs).
    assert (Hrange : forall x,
               In x inRange
               <-> In x mobs
                   /\ (Grid.distance (proj_targetPos projectile) (mob_pos x)
                       <= r * tileSize Definitions.GAME_CONFIG)%R
                   /\ mob_reachedEnd x = false).
    { intros x; subst inRange; unfold Targeting.getMobsInSplashRange.
      rewrite filter_In; cbv zeta.
      rewrite andb_true_iff, leb_true_iff, negb_true_iff; tauto. }
    assert (Haimed : Spec.aimedAt projectile mob <-> In mob inRange).
    { rewrite Hrange; unfold Spec.aimedAt, Spec.splashes; split.
      - intros [(r' & (Heq & _) & Hd & He)|(Hno & _)].
        + rewrite Hr in Heq; injection Heq as <-; auto.
        + exfalso; apply (Hno r); auto.
      - intros (_ & Hd & He); left; exists r; auto. }
    destruct (splash_fold (proj_damage projectile) inRange mobs 0%Z Hnd)
      as (Hun & Hst & _).
    { subst inRange; unfold Targeting.getMobsInSplashRange.
      now apply filter_keeps_distinct. }
    { intros x Hx; now apply Hrange in Hx as [Hx _]. }
    destruct (applyDamage_outcome mob (proj_damage projectile))
      as (_ & Hdead & Halive).
    split; [|split].
    + intros Hnot; apply Hun; [exact Hin|].
      intros x Hx Hid; apply Hnot, Haimed.
      pose proof (proj1 (proj1 (Hrange x) Hx)) as Hxm.
      now rewrite <- (unique_by_id mobs x mob Hnd Hxm Hin Hid).
    + intros Ha Hle; apply Haimed in Ha.
      exact (proj1 (Hst mob Ha) (Hdead Hle)).
    + intros Ha Hlt; apply Haimed in Ha.
      destruct (Halive Hlt) as (Hk & Hhp & Hb & Hp).
      eexists; split; [exact (proj2 (Hst mob Ha) Hk)|].
      split; [reflexivity|]; auto.
  - assert (Hno : forall r, ~ Spec.splashes projectile r).
    { intros r Hr; assert (false = true) by (apply Htest; eauto); discriminate. }
    assert (Haimed : Spec.aimedAt projectile mob
                     <-> proj_targetMobId projectile = Some (mob_id mob)).
    { unfold Spec.aimedAt; split; [|auto].
      intros [(r & Hr & _)|[_ H]]; [exfalso; apply (Hno r Hr)|exact H]. }
    destruct (proj_targetMobId projectile) as [id|] eqn:Hid.
    2:{ split; [auto|]; split; intros Ha; apply Haimed in Ha; discriminate Ha. }
    destruct (find (fun m => String.eqb (mob_id m) id) mobs) as [target|] eqn:Hfind.
    2:{ split; [auto|].
        assert (Hnot : ~ Spec.aimedAt projectile mob).
        { intros Ha; apply Haimed in Ha; injection Ha as ->.
          pose proof (find_none _ _ Hfind mob Hin) as Hf; cbn in Hf.
          rewrite String.eqb_refl in Hf; discriminate Hf. }
        split; intros Ha; contradiction. }
    apply find_some in Hfind as [Htin Htid]; apply String.eqb_eq in Htid.
    pose proof (slowed_fields projectile target now) as Hsrc; cbv zeta in Hsrc.
    set (src := match proj_slowDuration projectile, proj_slowAmount projectile with
                | Some d, Some a =>
                    if negb (Js.eqb d 0) && negb (Js.eqb a 0)
                    then Effects.applySlow target a d now
                    else target
                | _, _ => target
                end) in *.
    destruct Hsrc as (Hsid & Hshp & Hsarmor & Hsb & Hsp).
    destruct (applyDamage_outcome src (proj_damage projectile))
      as (Hdid & Hdead & Halive).
    split; [|split].
    + intros Hnot; apply settleHit_other; [exact Hin|].
      intros Heq; apply Hnot, Haimed; congruence.
    + intros Ha Hle; apply Haimed in Ha; injection Ha as ->.
      assert (target = mob) by (apply (unique_by_id mobs); auto); subst target.
      destruct (Effects.applyDamage src (proj_damage projectile)) as [[d a] k]
        eqn:Hhit; cbn [fst snd] in *.
      destruct (settleHit_self mobs 0%Z (mob_id mob) d a k mob Hnd Hin eq_refl)
        as (_ & Hkill & _); [congruence|].
      apply Hkill, Hdead; subst dealt; rewrite Hshp, Hsarmor; exact Hle.
    + intros Ha Hlt; apply Haimed in Ha; injection Ha as ->.
      assert (target = mob) by (apply (unique_by_id mobs); auto); subst target.
      destruct (Halive ltac:(subst dealt; rewrite Hshp, Hsarmor; exact Hlt))
        as (Hk & Hhp & Hb & Hp).
      destruct (Effects.applyDamage src (proj_damage projectile)) as [[d a] k]
        eqn:Hhit; cbn [fst snd] in *.
      destruct (settleHit_self mobs 0%Z (mob_id mob) d a k mob Hnd Hin eq_refl)
        as (_ & _ & Hlive); [congruence|].
      exists d; split; [now apply Hlive|].
      subst dealt; rewrite Hhp, Hb, Hp, Hshp, Hsarmor; split; [congruence|auto].
Qed.

Lemma X30_hit_is_local_witness :
  let arrow :=
    {| proj_id := "p"; proj_pos := Examples.origin; proj_targetPos := Examples.origin;
       proj_targetMobId := Some "a"; proj_speed := 8; proj_damage := 15;
       proj_type := ArrowShot; proj_splashRadius := None;
       proj_slowDuration := None; proj_slowAmount := None;
       proj_hasHit := false |} in
  let a := Examples.goblin "a" 0.5 Examples.noStatus in
  let b := Examples.goblin "b" 0.2 Examples.noStatus in
  In b (fst (Sim.handleProjectileHit arrow [a; b] 0)).
Proof.
  intros arrow a b.
  assert (Hnd : NoDup (map mob_id [a; b])).
  { cbn; constructor; [intros [H|[]]; discriminate H|].
    constructor; [intros []|constructor]. }
  apply (X30_hit_is_local arrow [a; b] 0 b Hnd); [right; now left|].
  intros [(r & (Hr & _) & _)|(_ & Hid)]; [discriminate Hr|discriminate Hid].
Defined.
